(** * homelab-cli: inventory-backed allocation and reference resolution

    A shallow embedding of [src/lib/function.js] (the allocator, the
    reservation ledger, dotted-path lookup, the inventory and
    parent-config substitution passes, [updateInventory]) and of
    [Bw.prototype.fill] from [src/lib/bw.js], with the properties the
    specification states about them; and of the code around them:
    the placeholders and variables of [src/lib/terraform.js],
    [getHttpIp] and [ensureIsoOnProxmox] of [src/lib/packer.js], the
    Bitwarden client of [src/lib/bw.js] with [populateBitwardenRefs],
    [loadConfig], the command line of [src/bin/tf-operations.js] and
    the earlier allocator that [src/lib/function.js] still carries.

    Conventions of the embedding.
    - A JavaScript call that may [throw] returns a [result]; a function
      that mutates the inventory object it is given returns the inventory
      as it is left afterwards next to that result, also when it throws.
    - Numbers are integers ([Z]); this is exact for every value below
      2^53, which covers VM ids and the segments of IP addresses.
      Beyond that [parseInt] rounds to the nearest double as the code
      does, and a JSON text with such a number is left out.
    - A string field that may be absent is a [string] whose empty value
      stands for the absent one wherever the code only tests it for
      truthiness (both are falsy); object fields that the code tests
      with [||] or [!] are [option]s. *)

From Stdlib Require Import ZArith Lia Ascii.
From stdpp Require Import base decidable option list gmap strings.

Local Open Scope string_scope.
Local Open Scope Z_scope.

(** ** Exceptions and results *)

Inductive exn : Type :=
| Error (message : string)   (* throw new Error(message) *)
| TypeError                  (* property read on undefined or null, [in] on a primitive *)
| RangeError                 (* BigInt(NaN), Array(-1) *)
| SyntaxError.               (* JSON.parse *)

Inductive result (A : Type) : Type :=
| Return (a : A)
| Throw (e : exn).
Arguments Return {A} a.
Arguments Throw {A} e.

Definition bind {A B : Type} (r : result A) (k : A -> result B) : result B :=
  match r with
  | Return a => k a
  | Throw e => Throw e
  end.

Notation "x <- r ;; k" := (bind r (fun x => k))
  (at level 100, r at next level, right associativity).

(** ** JSON documents *)

#[warnings="-register-all"]
Inductive json : Type :=
| JNull
| JBool (b : bool)
| JNumber (n : Z)
| JString (s : string)
| JArray (items : list json)
| JObject (fields : list (string * json)).

(** Names every object inherits from [Object.prototype]: the [in]
    operator and a property read find them on any object literal. *)
Definition object_prototype_keys : list string :=
  [ "constructor"; "__defineGetter__"; "__defineSetter__"; "hasOwnProperty";
    "__lookupGetter__"; "__lookupSetter__"; "isPrototypeOf";
    "propertyIsEnumerable"; "toString"; "valueOf"; "__proto__";
    "toLocaleString" ].

(** ** The inventory document (schema of [loadInventory]) *)

Record Proxmox : Type := {
  username : string;
  password : string;
  endpoint : string;
  api_user : string;
  api_token : string;
  node : string
}.

Record Backend : Type := {
  backend_type : string;
  backend_config : list (string * json)
}.

Record Terraform : Type := { backend : Backend }.

Record Interface : Type := {
  network : string;
  iface_ip : string
}.

Record Host : Type := {
  host_name : string;
  host_vmid : Z;
  host_type : string;
  interfaces : option (list Interface)
}.

Record Template : Type := {
  template_name : string;
  version : string;
  template_vmid : Z
}.

Record StaticRange : Type := {
  start : string;
  end_ : string
}.

Record Network : Type := {
  name : string;
  subnet : string;
  gateway : string;
  dns : string;
  iface : string;
  dhcp_enabled : bool;
  domain : option string;
  static_range : StaticRange
}.

Record ReservedVmid : Type := {
  vmid : Z;
  vmid_refId : string
}.

Record ReservedIp : Type := {
  ip : string;
  ip_refId : string
}.

Record Reserved : Type := {
  vmids : list ReservedVmid;
  ips : list ReservedIp
}.

Record Inventory : Type := {
  proxmox : Proxmox;
  terraform : Terraform;
  hosts : option (list Host);
  templates : list Template;
  networks : list Network;
  reserved : option Reserved
}.

Definition set_reserved (r : option Reserved) (inventory : Inventory) : Inventory :=
  {| proxmox := proxmox inventory;
     terraform := terraform inventory;
     hosts := hosts inventory;
     templates := templates inventory;
     networks := networks inventory;
     reserved := r |}.

Definition set_vmids (l : list ReservedVmid) (r : Reserved) : Reserved :=
  {| vmids := l; ips := ips r |}.

Definition set_ips (l : list ReservedIp) (r : Reserved) : Reserved :=
  {| vmids := vmids r; ips := l |}.

(** [{ vmids: [], ips: [] }] *)
Definition empty_reserved : Reserved := {| vmids := []; ips := [] |}.

(** What the structure of the schema in [loadInventory] forces on a
    document it accepts: [reserved] is required, and [hosts] is not a
    key of the schema, so a document carrying it is rejected (joi
    objects do not allow unknown keys). *)
Definition schema_valid (inventory : Inventory) : Prop :=
  hosts inventory = None /\ is_Some (reserved inventory).

(** ** Resource allocator: VM ids *)

Inductive range_entry : Type :=
| Own (lo hi : Z)     (* a key of the [ranges] literal *)
| Prototype           (* a name found on Object.prototype: truthy, no [0] and [1] *)
| Missing.            (* undefined *)

(** [ranges[type]] *)
Definition ranges (type : string) : range_entry :=
  if decide (type = "baremetal") then Own 0 99
  else if decide (type = "vm") then Own 100 199
  else if decide (type = "lxc") then Own 200 299
  else if decide (type = "template") then Own 300 399
  else if decide (type ∈ object_prototype_keys) then Prototype
  else Missing.

(** [for (let id = lo; id <= hi; id++) if (!used.has(id)) return id;]
    run for at most [n] iterations from [id]. *)
Fixpoint scan (used : gset Z) (id : Z) (n : nat) : option Z :=
  match n with
  | O => None
  | S n' => if decide (id ∈ used) then scan used (id + 1) n' else Some id
  end.

Definition first_unused (used : gset Z) (lo hi : Z) : option Z :=
  scan used lo (Z.to_nat (hi - lo + 1)).

(** The set built by the two [forEach] loops of [getNextVmId]. *)
Definition used_vmids (inventory : Inventory) (r : Reserved) : gset Z :=
  list_to_set (template_vmid <$> templates inventory) ∪
  list_to_set (vmid <$> vmids r).

Definition getNextVmId (type : string) (inventory : Inventory) : result Z :=
  match ranges type with
  | Missing => Throw (Error ("Unknown type: " ++ type))
  | range =>
      match reserved inventory with
      | None => Throw TypeError
      | Some r =>
          let used := used_vmids inventory r in
          let found :=
            match range with
            | Own lo hi => first_unused used lo hi
            | _ => None
            end in
          match found with
          | Some id => Return id
          | None => Throw (Error ("No available vmid for type " ++ type))
          end
      end
  end.

(** ** Reservation ledger: VM ids *)

(** [if (!inventory.reserved) inventory.reserved = { vmids: [], ips: [] };] *)
Definition init_reserved (inventory : Inventory) : Inventory :=
  match reserved inventory with
  | Some _ => inventory
  | None => set_reserved (Some empty_reserved) inventory
  end.

Definition reserveVmId (type : string) (inventory : Inventory) (refId : string)
  : result Z * Inventory :=
  let inventory := init_reserved inventory in
  match reserved inventory with
  | None => (Throw TypeError, inventory)
  | Some r =>
      match list_find (fun v => vmid_refId v = refId) (vmids r) with
      | Some (_, existing) => (Return (vmid existing), inventory)
      | None =>
          match getNextVmId type inventory with
          | Return id =>
              let entry := {| vmid := id; vmid_refId := refId |} in
              (Return id,
               set_reserved (Some (set_vmids (vmids r ++ [entry]) r)) inventory)
          | Throw e => (Throw e, inventory)
          end
      end
  end.

(** The result is [None] where the JavaScript function returns
    [undefined]. Reading [.vmid] of [vmids[-1]] throws a [TypeError]. *)
Definition releaseVmId (inventory : Inventory) (refId : string)
  : result (option Z) * Inventory :=
  match reserved inventory with
  | None => (Return None, inventory)
  | Some r =>
      if decide (length (vmids r) = 0%nat) then (Return None, inventory)
      else
        match list_find (fun v => vmid_refId v = refId) (vmids r) with
        | None => (Throw TypeError, inventory)
        | Some (index, v) =>
            (Return (Some (vmid v)),
             set_reserved (Some (set_vmids (delete index (vmids r)) r)) inventory)
        end
  end.

(** ** JavaScript string primitives used by the allocator *)

(** [s.split(sep)] for a non-empty separator: [skip] counts the
    characters of a separator occurrence still to be passed over,
    [cur] is the piece being read. *)
Fixpoint split_go (sep s : string) (skip : nat) (cur : string) : list string :=
  match s with
  | EmptyString => [cur]
  | String c s' =>
      match skip with
      | S k => split_go sep s' k cur
      | O =>
          if String.prefix sep s
          then cur :: split_go sep s' (String.length sep - 1) ""
          else split_go sep s' 0 (cur ++ String c "")
      end
  end.

Definition split (sep s : string) : list string := split_go sep s 0 "".

(** [s.includes(sub)] *)
Fixpoint includes (sub s : string) : bool :=
  String.prefix sub s ||
  match s with
  | EmptyString => false
  | String _ s' => includes sub s'
  end.

(** [parts.join(sep)] *)
Fixpoint join (sep : string) (parts : list string) : string :=
  match parts with
  | [] => ""
  | [p] => p
  | p :: rest => p ++ sep ++ join sep rest
  end.

Definition code (c : ascii) : Z := Z.of_N (N_of_ascii c).

Definition is_digit (c : ascii) : bool := (48 <=? code c) && (code c <=? 57).

(** Value of [c] as a digit in [radix], if it is one. *)
Definition digit_value (radix : Z) (c : ascii) : option Z :=
  let n := code c in
  let d :=
    if (48 <=? n) && (n <=? 57) then Some (n - 48)
    else if (97 <=? n) && (n <=? 122) then Some (n - 87)
    else if (65 <=? n) && (n <=? 90) then Some (n - 55)
    else None in
  match d with
  | Some v => if v <? radix then Some v else None
  | None => None
  end.

(** The longest run of digits at the head of [s], read in [radix];
    [acc] is [None] until a digit has been read. *)
Fixpoint parse_digits (radix : Z) (s : string) (acc : option Z) : option Z :=
  match s with
  | EmptyString => acc
  | String c s' =>
      match digit_value radix c with
      | Some d => parse_digits radix s' (Some (radix * default 0 acc + d))
      | None => acc
      end
  end.

(** White space and line terminators among the first 256 code units:
    what [parseInt] and [trim] skip and what [\s] matches. *)
Definition is_white_space (c : ascii) : bool :=
  let n := code c in ((9 <=? n) && (n <=? 13)) || (n =? 32) || (n =? 160).

Fixpoint trim_start (s : string) : string :=
  match s with
  | String c s' => if is_white_space c then trim_start s' else s
  | EmptyString => s
  end.

(** The Number an integer becomes: itself below 2^53, beyond that the
    nearest number with 53 significant bits, ties to the even one;
    [None] when the result is an infinity. *)
Definition to_double (v : Z) : option Z :=
  let m := Z.abs v in
  if m <? 2 ^ 53 then Some v
  else
    let e := Z.log2 m - 52 in
    let q := Z.shiftr m e in
    let r := Z.land m (Z.ones e) in
    let half := 2 ^ (e - 1) in
    let q' := if (half <? r) || ((r =? half) && Z.odd q) then q + 1 else q in
    let d := q' * 2 ^ e in
    if d <? 2 ^ 1024 then Some (Z.sgn v * d) else None.

(** [parseInt(s, radix)]. Leading white space, a sign and, in radix
    16, a [0x] prefix are passed over. [None] is [NaN] or an
    infinity: [BigInt], the comparisons of a prefix length and
    [>>> 0] treat the two alike. *)
Definition parseInt (s : string) (radix : Z) : option Z :=
  let s := trim_start s in
  let '(negative, s) :=
    match s with
    | String c s' =>
        if code c =? 45 then (true, s')
        else if code c =? 43 then (false, s')
        else (false, s)
    | EmptyString => (false, s)
    end in
  let s :=
    match s with
    | String c (String x s') =>
        if (radix =? 16) && (code c =? 48) && ((code x =? 120) || (code x =? 88))
        then s' else s
    | _ => s
    end in
  v ← parse_digits radix s None;
  d ← to_double v;
  Some (if negative : bool then - d else d).

(** [BigInt(x)] of a number: [NaN] cannot be converted. *)
Definition BigInt (x : option Z) : result Z :=
  match x with
  | Some v => Return v
  | None => Throw RangeError
  end.

Definition digit_char (d : Z) : ascii :=
  ascii_of_N (Z.to_N (if d <? 10 then 48 + d else 87 + d)).

Fixpoint to_digits (radix : Z) (fuel : nat) (n : Z) (acc : string) : string :=
  match fuel with
  | O => acc
  | S fuel' =>
      let acc' := String (digit_char (n mod radix)) acc in
      if n / radix =? 0 then acc' else to_digits radix fuel' (n / radix) acc'
  end.

(** [Number(n).toString(radix)] for an integer [n]. *)
Definition toString (radix n : Z) : string :=
  let digits m := to_digits radix (S (Z.to_nat (Z.log2 m))) m "" in
  if n <? 0 then "-" ++ digits (- n) else digits n.

(** [reduce] with a callback that may throw. *)
Fixpoint reduce {A B : Type} (f : B -> A -> result B) (l : list A) (acc : B) : result B :=
  match l with
  | [] => Return acc
  | a :: l' => acc' <- f acc a ;; reduce f l' acc'
  end.

(** ** [net.isIP] of Node.js

    The library function is not part of the repository; it is modelled
    after the regular expressions Node.js documents for it. An IPv4
    address is four decimal segments 0..255 without leading zeros; an
    IPv6 address is up to eight groups of one to four hexadecimal
    digits, at most one [::], optionally ending in an embedded IPv4
    address, optionally followed by a zone after [%]. *)

Fixpoint forall_chars (p : ascii -> bool) (s : string) : bool :=
  match s with
  | EmptyString => true
  | String c s' => p c && forall_chars p s'
  end.

Definition isV4Seg (s : string) : bool :=
  forall_chars is_digit s &&
  match s with
  | String _ EmptyString => true
  | String c (String _ EmptyString)
  | String c (String _ (String _ EmptyString)) =>
      negb (code c =? 48) &&
      match parse_digits 10 s None with
      | Some v => v <=? 255
      | None => false
      end
  | _ => false
  end.

Definition isIPv4 (s : string) : bool :=
  match split "." s with
  | [a; b; c; d] => isV4Seg a && isV4Seg b && isV4Seg c && isV4Seg d
  | _ => false
  end.

Definition is_hex (c : ascii) : bool :=
  match digit_value 16 c with
  | Some _ => true
  | None => false
  end.

Definition isV6Seg (s : string) : bool :=
  forall_chars is_hex s &&
  (1 <=? Z.of_nat (String.length s)) && (Z.of_nat (String.length s) <=? 4).

(** The number of 16-bit groups a colon-separated run stands for, when
    it is well formed: hexadecimal groups, the last of which may be an
    embedded IPv4 address (two groups). *)
Fixpoint v6_groups (parts : list string) : option Z :=
  match parts with
  | [] => Some 0
  | [p] => if isV6Seg p then Some 1 else if isIPv4 p then Some 2 else None
  | p :: rest => if isV6Seg p then Z.succ <$> v6_groups rest else None
  end.

(** The same for a run that may not end in an IPv4 address. *)
Definition v6_hex_groups (parts : list string) : option Z :=
  if forallb isV6Seg parts then Some (Z.of_nat (length parts)) else None.

(** [s.split(':')] of a side of [::], which is empty when the address
    starts or ends there. *)
Definition v6_side (s : string) : list string :=
  if decide (s = "") then [] else split ":" s.

Definition is_zone_char (c : ascii) : bool :=
  let n := code c in
  is_digit c || ((97 <=? n) && (n <=? 122)) || ((65 <=? n) && (n <=? 90)) ||
  (n =? 45) || (n =? 46) || (n =? 58).

Definition isIPv6 (s : string) : bool :=
  match split "%" s with
  | addr :: zone =>
      match zone with
      | [] => true
      | [z] => negb (String.eqb z "") && forall_chars is_zone_char z
      | _ => false
      end &&
      match split "::" addr with
      | [whole] =>
          match v6_groups (split ":" whole) with
          | Some n => n =? 8
          | None => false
          end
      | [l; r] =>
          match v6_hex_groups (v6_side l), v6_groups (v6_side r) with
          | Some a, Some b => a + b <=? 7
          | _, _ => false
          end
      | _ => false
      end
  | [] => false
  end.

(** [net.isIP(s)]: 4, 6, or 0 for a string that is no address. *)
Definition isIP (s : string) : Z :=
  if isIPv4 s then 4 else if isIPv6 s then 6 else 0.

(** ** Resource allocator: static IP addresses *)

Definition ipv4ToBig (ip : string) : result Z :=
  reduce (fun acc octet => v <- BigInt (parseInt octet 10) ;; Return (Z.shiftl acc 8 + v))
         (split "." ip) 0.

Definition bigToIpv4 (n : Z) : string :=
  join "." [ toString 10 (Z.land (Z.shiftr n 24) 255);
             toString 10 (Z.land (Z.shiftr n 16) 255);
             toString 10 (Z.land (Z.shiftr n 8) 255);
             toString 10 (Z.land n 255) ].

(** [p || '0'] *)
Definition or_zero (p : string) : string := if decide (p = "") then "0" else p.

(** [s ? s.split(':').filter(Boolean) : []] *)
Definition nonempty_parts (s : string) : list string :=
  if decide (s = "") then [] else filter (fun p => p <> "") (split ":" s).

Definition expandIpv6 (ip : string) : result (list string) :=
  if includes "::" ip then
    let pieces := split "::" ip in
    (* const [left, right] = ...; a missing piece is undefined, falsy like "" *)
    let l := nonempty_parts (nth 0 pieces "") in
    let r := nonempty_parts (nth 1 pieces "") in
    let zeros := 8 - Z.of_nat (length l + length r) in
    if zeros <? 0 then Throw RangeError   (* Array(zeros) *)
    else Return (or_zero <$> (l ++ replicate (Z.to_nat zeros) "0" ++ r)%list)
  else Return (or_zero <$> split ":" ip).

Definition ipv6ToBig (ip : string) : result Z :=
  parts <- expandIpv6 ip ;;
  reduce (fun acc part => v <- BigInt part ;; Return (Z.shiftl acc 16 + v))
         ((fun p => parseInt p 16) <$> parts) 0.

(** The eight groups are pushed to the front from the lowest one up;
    the final [replace] puts back what it matched. *)
Fixpoint ipv6_parts (i : nat) (n : Z) (parts : list string) : list string :=
  match i with
  | O => parts
  | S i' => ipv6_parts i' (Z.shiftr n 16) (toString 16 (Z.land n 65535) :: parts)
  end.

Definition bigToIpv6 (n : Z) : string := join ":" (ipv6_parts 8 n []).

(** [version === 4 ? ipv4ToBig(ip) : ipv6ToBig(ip)] *)
Definition toBig (version : Z) (ip : string) : result Z :=
  if version =? 4 then ipv4ToBig ip else ipv6ToBig ip.

Definition fromBig (version : Z) (n : Z) : string :=
  if version =? 4 then bigToIpv4 n else bigToIpv6 n.

(** The prefix length taken from [subnet]; [""] where the code leaves
    [prefixLen] at [null] (tested for truthiness only). *)
Definition prefix_length (netCfg : Network) : string :=
  if negb (String.eqb (subnet netCfg) "") && includes "/" (subnet netCfg) then
    match split "/" (subnet netCfg) with
    | [_; p] => p
    | _ => ""
    end
  else "".

(** The interfaces whose address the host loops add to [used]. *)
Definition counted (networkName : string) (i : Interface) : bool :=
  bool_decide (network i = networkName) &&
  negb (String.eqb (iface_ip i) "") && negb (isIP (iface_ip i) =? 0).

Definition host_interfaces (inventory : Inventory) : list Interface :=
  h ← default [] (hosts inventory); default [] (interfaces h).

(** [used.add] of one address, when the guard [cond] lets it through. *)
Definition add_ip (version : Z) (cond : bool) (ip : string) (used : gset Z)
  : result (gset Z) :=
  if cond then b <- toBig version ip ;; Return ({[ b ]} ∪ used) else Return used.

Definition used_ips (version : Z) (networkName : string) (netCfg : Network)
  (inventory : Inventory) : result (gset Z) :=
  used <- add_ip version (negb (String.eqb (gateway netCfg) "")) (gateway netCfg) ∅ ;;
  used <- add_ip version (negb (String.eqb (dns netCfg) "")) (dns netCfg) used ;;
  reduce (fun used i => add_ip version (counted networkName i) (iface_ip i) used)
         (host_interfaces inventory) used.

Definition getNextIpAddress (networkName : string) (inventory : Inventory)
  : result string :=
  match List.find (fun n => bool_decide (name n = networkName)) (networks inventory) with
  | None => Throw (Error ("Network not found: " ++ networkName))
  | Some netCfg =>
      let startIp := start (static_range netCfg) in
      let endIp := end_ (static_range netCfg) in
      if String.eqb startIp "" || String.eqb endIp ""
      then Throw (Error ("Invalid static_range for network " ++ networkName))
      else
        let version := isIP startIp in
        if (version =? 0) || negb (version =? isIP endIp)
        then Throw (Error "Start and end IP must be valid and same IP version")
        else
          startBig <- toBig version startIp ;;
          endBig <- toBig version endIp ;;
          if startBig >? endBig
          then Throw (Error "static_range start is greater than end")
          else
            let prefixLen := prefix_length netCfg in
            used <- used_ips version networkName netCfg inventory ;;
            match first_unused used startBig endBig with
            | Some ipBig =>
                let ipStr := fromBig version ipBig in
                Return (if String.eqb prefixLen "" then ipStr
                        else ipStr ++ "/" ++ prefixLen)
            | None =>
                Throw (Error ("No available static IP in range for network "
                              ++ networkName))
            end
  end.

(** ** Reservation ledger: IP addresses *)

Definition reserveIpAddress (networkName : string) (inventory : Inventory)
  (refId : string) : result string * Inventory :=
  let inventory := init_reserved inventory in
  match reserved inventory with
  | None => (Throw TypeError, inventory)
  | Some r =>
      match list_find (fun i => ip_refId i = refId) (ips r) with
      | Some (_, existing) => (Return (ip existing), inventory)
      | None =>
          match getNextIpAddress networkName inventory with
          | Return a =>
              let entry := {| ip := a; ip_refId := refId |} in
              (Return a,
               set_reserved (Some (set_ips (ips r ++ [entry]) r)) inventory)
          | Throw e => (Throw e, inventory)
          end
      end
  end.

(** Unlike [releaseVmId] there is no test for an empty list: the read
    of [ips[-1].ip] throws whenever [refId] is not found. *)
Definition releaseIpAddress (inventory : Inventory) (refId : string)
  : result (option string) * Inventory :=
  match reserved inventory with
  | None => (Return None, inventory)
  | Some r =>
      match list_find (fun i => ip_refId i = refId) (ips r) with
      | None => (Throw TypeError, inventory)
      | Some (index, i) =>
          (Return (Some (ip i)),
           set_reserved (Some (set_ips (delete index (ips r)) r)) inventory)
      end
  end.

(** ** JavaScript values met by reference resolution *)

(** A value read out of a parsed JSON document: [undefined], a JSON
    value, or a member inherited from [Object.prototype] (a built-in
    function, or the prototype itself for [__proto__]). *)
Inductive jsval : Type :=
| Undefined
| Value (j : json)
| Inherited (key : string).

(** Outcome of a lookup or of a substitution pass. [Beyond] marks the
    runs this model does not describe: a path that continues into an
    inherited member, a property read on a string, number or boolean,
    the text a built-in function prints as, a number with a fraction or
    an exponent, an integer of 2^53 or more, which [JSON.parse] would
    round. *)
Inductive resolved (A : Type) : Type :=
| Done (a : A)
| Raised (e : exn)
| Beyond.
Arguments Done {A} a.
Arguments Raised {A} e.
Arguments Beyond {A}.

Definition and_then {A B : Type} (r : resolved A) (k : A -> resolved B) : resolved B :=
  match r with
  | Done a => k a
  | Raised e => Raised e
  | Beyond => Beyond
  end.

Notation "x <~ r ;; k" := (and_then r (fun x => k))
  (at level 100, r at next level, right associativity).

(** The own property [key] of an object whose fields are listed in
    enumeration order (keys are distinct). *)
Fixpoint own (key : string) (fields : list (string * json)) : option json :=
  match fields with
  | [] => None
  | (k, v) :: rest => if decide (k = key) then Some v else own key rest
  end.

(** [items.find(item => item.name === p)]: reading [.name] of [null]
    throws; strings, numbers, booleans and arrays have no [name]. *)
Fixpoint find_named (p : string) (items : list json) : result (option json) :=
  match items with
  | [] => Return None
  | item :: rest =>
      match item with
      | JNull => Throw TypeError
      | JObject fields =>
          match own "name" fields with
          | Some (JString s) =>
              if decide (s = p) then Return (Some item) else find_named p rest
          | _ => find_named p rest
          end
      | _ => find_named p rest
      end
  end.

(** The [for (const p of path)] loop of [getRefValue]. *)
Fixpoint getRefValue_loop (path : list string) (refValue : jsval) : resolved jsval :=
  match path with
  | [] => Done refValue
  | p :: rest =>
      match refValue with
      | Value (JArray items) =>
          match find_named p items with
          | Throw e => Raised e
          | Return None => getRefValue_loop rest Undefined
          | Return (Some item) => getRefValue_loop rest (Value item)
          end
      | Value (JObject fields) =>
          match own p fields with
          | Some v => getRefValue_loop rest (Value v)
          | None =>
              if decide (p ∈ object_prototype_keys)
              then getRefValue_loop rest (Inherited p)
              else Done (Value JNull)
          end
      | Undefined | Value JNull | Value (JBool false) | Value (JNumber 0)
      | Value (JString EmptyString) => Done (Value JNull)
      | Value (JBool true) | Value (JNumber _) | Value (JString _) =>
          Raised TypeError                 (* [p in refValue] on a primitive *)
      | Inherited _ => Beyond
      end
  end.

Definition getRefValue (refString : string) (obj : json) : resolved jsval :=
  getRefValue_loop (split "." refString) (Value obj).

(** ** JSON text *)

Definition dquote : ascii := ascii_of_nat 34.
Definition backslash : ascii := ascii_of_nat 92.

Definition hex4 (n : Z) : string :=
  let d i := String (digit_char (Z.land (Z.shiftr n i) 15)) "" in
  d 12 +:+ d 8 +:+ d 4 +:+ d 0.

Definition escape_char (c : ascii) : string :=
  let n := code c in
  if n =? 34 then String backslash (String dquote "")
  else if n =? 92 then String backslash (String backslash "")
  else if n =? 8 then String backslash "b"
  else if n =? 9 then String backslash "t"
  else if n =? 10 then String backslash "n"
  else if n =? 12 then String backslash "f"
  else if n =? 13 then String backslash "r"
  else if n <? 32 then String backslash "u" +:+ hex4 n
  else String c "".

Fixpoint escape (s : string) : string :=
  match s with
  | EmptyString => ""
  | String c s' => escape_char c +:+ escape s'
  end.

Definition quote (s : string) : string :=
  String dquote (escape s +:+ String dquote "").

(** [JSON.stringify(j)] *)
Fixpoint stringify (j : json) : string :=
  match j with
  | JNull => "null"
  | JBool true => "true"
  | JBool false => "false"
  | JNumber n => toString 10 n
  | JString s => quote s
  | JArray items => "[" +:+ join "," (List.map stringify items) +:+ "]"
  | JObject fields =>
      "{" +:+ join "," (List.map (fun kv => quote (fst kv) +:+ ":" +:+ stringify (snd kv)) fields)
      +:+ "}"
  end.

(** [String(v)], the text [String.prototype.replace] inserts for a
    replacement value that is not a string. *)
Fixpoint to_text (j : json) : string :=
  match j with
  | JNull => "null"
  | JBool true => "true"
  | JBool false => "false"
  | JNumber n => toString 10 n
  | JString s => s
  | JArray items =>
      join "," (List.map (fun item => match item with JNull => "" | _ => to_text item end) items)
  | JObject _ => "[object Object]"
  end.

Definition ToString (v : jsval) : resolved string :=
  match v with
  | Undefined => Done "undefined"
  | Value j => Done (to_text j)
  | Inherited _ => Beyond
  end.

Definition is_json_space (c : ascii) : bool :=
  let n := code c in (n =? 32) || (n =? 9) || (n =? 10) || (n =? 13).

Fixpoint skip_ws (s : string) : string :=
  match s with
  | String c s' => if is_json_space c then skip_ws s' else s
  | EmptyString => s
  end.

(** The longest prefix of [s] whose characters satisfy [p], and the rest. *)
Fixpoint span (p : ascii -> bool) (s : string) : string * string :=
  match s with
  | String c s' =>
      if p c then let '(a, b) := span p s' in (String c a, b) else ("", s)
  | EmptyString => ("", "")
  end.

Fixpoint string_drop (n : nat) (s : string) : string :=
  match n, s with
  | S n', String _ s' => string_drop n' s'
  | _, _ => s
  end.

(** The characters of a string literal after its opening quote, up to
    the closing one, and what follows. Escapes of code units from 128
    on are left out of the model. *)
Fixpoint parse_chars (s : string) : resolved (string * string) :=
  match s with
  | EmptyString => Raised SyntaxError
  | String c s' =>
      if code c =? 34 then Done ("", s')
      else if code c =? 92 then
        match s' with
        | EmptyString => Raised SyntaxError
        | String e s'' =>
            let unescaped :=
              if code e =? 34 then Some dquote
              else if code e =? 92 then Some backslash
              else if code e =? 47 then Some "/"%char
              else if code e =? 98 then Some (ascii_of_nat 8)
              else if code e =? 102 then Some (ascii_of_nat 12)
              else if code e =? 110 then Some (ascii_of_nat 10)
              else if code e =? 114 then Some (ascii_of_nat 13)
              else if code e =? 116 then Some (ascii_of_nat 9)
              else None in
            match unescaped with
            | Some x => r <~ parse_chars s'' ;; Done (String x (fst r), snd r)
            | None =>
                if code e =? 117 then
                  match s'' with
                  | String h1 (String h2 (String h3 (String h4 s5))) =>
                      match digit_value 16 h1, digit_value 16 h2,
                            digit_value 16 h3, digit_value 16 h4 with
                      | Some a, Some b, Some c', Some d =>
                          let n := ((a * 16 + b) * 16 + c') * 16 + d in
                          if n <? 128
                          then r <~ parse_chars s5 ;;
                               Done (String (ascii_of_N (Z.to_N n)) (fst r), snd r)
                          else Beyond
                      | _, _, _, _ => Raised SyntaxError
                      end
                  | _ => Raised SyntaxError
                  end
                else Raised SyntaxError
            end
        end
      else if code c <? 32 then Raised SyntaxError
      else r <~ parse_chars s' ;; Done (String c (fst r), snd r)
  end.

(** A JSON number at the head of [s]; only the integers that a Number
    holds exactly are modelled. *)
Definition parse_number (s : string) : resolved (json * string) :=
  let '(negative, s1) :=
    match s with
    | String "-" r => (true, r)
    | _ => (false, s)
    end in
  let '(digits, rest) := span is_digit s1 in
  match digits with
  | EmptyString => Raised SyntaxError
  | String d ds =>
      if (code d =? 48) && negb (String.eqb ds "") then Raised SyntaxError
      else
        let fractional :=
          match rest with
          | String c _ => (code c =? 46) || (code c =? 101) || (code c =? 69)
          | EmptyString => false
          end in
        if fractional then Beyond
        else
          let v := default 0 (parse_digits 10 digits None) in
          if v <? 2 ^ 53 then Done (JNumber (if negative : bool then - v else v), rest)
          else Beyond
  end.

(** An array index: a canonical decimal numeral below 2^32 - 1. Such
    keys are enumerated first, in ascending order. *)
Definition array_index (k : string) : option Z :=
  match k with
  | EmptyString => None
  | String c rest =>
      if forall_chars is_digit k && implb (code c =? 48) (String.eqb rest "")
      then match parse_digits 10 k None with
           | Some v => if v <=? 4294967294 then Some v else None
           | None => None
           end
      else None
  end.

Fixpoint replace_field (k : string) (v : json) (fields : list (string * json))
  : list (string * json) :=
  match fields with
  | [] => []
  | (k', v') :: rest =>
      if decide (k' = k) then (k, v) :: rest else (k', v') :: replace_field k v rest
  end.

Fixpoint insert_index (i : Z) (k : string) (v : json) (fields : list (string * json))
  : list (string * json) :=
  match fields with
  | [] => [(k, v)]
  | (k', v') :: rest =>
      match array_index k' with
      | Some j => if j <? i then (k', v') :: insert_index i k v rest
                  else (k, v) :: fields
      | None => (k, v) :: fields
      end
  end.

(** Defining the property [k] on an object under construction. *)
Definition define (k : string) (v : json) (fields : list (string * json))
  : list (string * json) :=
  match own k fields with
  | Some _ => replace_field k v fields
  | None =>
      match array_index k with
      | Some i => insert_index i k v fields
      | None => fields ++ [(k, v)]
      end
  end.

Fixpoint parse_value (fuel : nat) (s : string) : resolved (json * string) :=
  match fuel with
  | O => Beyond
  | S fuel' =>
      match skip_ws s with
      | EmptyString => Raised SyntaxError
      | String c rest as s0 =>
          if code c =? 91 then
            match skip_ws rest with
            | String "]" r => Done (JArray [], r)
            | r => parse_elements fuel' [] r
            end
          else if code c =? 123 then
            match skip_ws rest with
            | String "}" r => Done (JObject [], r)
            | r => parse_members fuel' [] r
            end
          else if code c =? 34 then
            r <~ parse_chars rest ;; Done (JString (fst r), snd r)
          else if String.prefix "true" s0 then Done (JBool true, string_drop 4 s0)
          else if String.prefix "false" s0 then Done (JBool false, string_drop 5 s0)
          else if String.prefix "null" s0 then Done (JNull, string_drop 4 s0)
          else parse_number s0
      end
  end
with parse_elements (fuel : nat) (acc : list json) (s : string)
  : resolved (json * string) :=
  match fuel with
  | O => Beyond
  | S fuel' =>
      r <~ parse_value fuel' s ;;
      match skip_ws (snd r) with
      | String "," rest => parse_elements fuel' (acc ++ [fst r]) rest
      | String "]" rest => Done (JArray (acc ++ [fst r]), rest)
      | _ => Raised SyntaxError
      end
  end
with parse_members (fuel : nat) (acc : list (string * json)) (s : string)
  : resolved (json * string) :=
  match fuel with
  | O => Beyond
  | S fuel' =>
      match skip_ws s with
      | String q rest =>
          if code q =? 34 then
            k <~ parse_chars rest ;;
            match skip_ws (snd k) with
            | String ":" rest' =>
                v <~ parse_value fuel' rest' ;;
                let acc' := define (fst k) (fst v) acc in
                match skip_ws (snd v) with
                | String "," rest'' => parse_members fuel' acc' rest''
                | String "}" rest'' => Done (JObject acc', rest'')
                | _ => Raised SyntaxError
                end
            | _ => Raised SyntaxError
            end
          else Raised SyntaxError
      | EmptyString => Raised SyntaxError
      end
  end.

(** [JSON.parse(s)]. The fuel bounds the depth of nesting and the
    number of elements of a container; twice the length of the text is
    more than either. *)
Definition JSON_parse (s : string) : resolved json :=
  r <~ parse_value (S (2 * String.length s)) s ;;
  match skip_ws (snd r) with
  | EmptyString => Done (fst r)
  | _ => Raised SyntaxError
  end.

(** ** Substitution passes over the serialized document *)

(** A match of [opening], one or more [inner] characters, [closing]
    at the head of [s]. The three regular expressions of the passes
    have this shape, and [inner] excludes [closing], so the greedy run
    is the only candidate. *)
Definition match_at (opening : string) (inner : ascii -> bool) (closing : ascii)
  (s : string) : option string :=
  if String.prefix opening s then
    let '(body, rest) := span inner (string_drop (String.length opening) s) in
    match body, rest with
    | String _ _, String c _ =>
        if decide (c = closing) then Some (opening +:+ body +:+ String closing "")
        else None
    | _, _ => None
    end
  else None.

(** [Array.from(s.matchAll(re), m => m[0])]: the matches from left to
    right, each search resuming after the previous match. *)
Fixpoint match_all_go (opening : string) (inner : ascii -> bool) (closing : ascii)
  (s : string) (skip : nat) : list string :=
  match s with
  | EmptyString => []
  | String _ s' =>
      match skip with
      | S k => match_all_go opening inner closing s' k
      | O =>
          match match_at opening inner closing s with
          | Some m => m :: match_all_go opening inner closing s' (String.length m - 1)
          | None => match_all_go opening inner closing s' 0
          end
      end
  end.

Definition match_all (opening : string) (inner : ascii -> bool) (closing : ascii)
  (s : string) : list string :=
  match_all_go opening inner closing s 0.

(** The first occurrence of [pattern] in [s]: what stands before it
    and after it. *)
Fixpoint search (pattern s before : string) : option (string * string) :=
  if String.prefix pattern s
  then Some (before, string_drop (String.length pattern) s)
  else
    match s with
    | EmptyString => None
    | String c s' => search pattern s' (before +:+ String c "")
    end.

(** The replacement text with its [$$], [$&], [$`] and [$'] patterns
    expanded; a string pattern has no capture groups, so any other
    [$] stands for itself. *)
Fixpoint expand (matched before after replacement : string) : string :=
  match replacement with
  | EmptyString => ""
  | String d tl =>
      if code d =? 36 then
        match tl with
        | String c r =>
            if code c =? 36 then "$" +:+ expand matched before after r
            else if code c =? 38 then matched +:+ expand matched before after r
            else if code c =? 96 then before +:+ expand matched before after r
            else if code c =? 39 then after +:+ expand matched before after r
            else String d (expand matched before after tl)
        | EmptyString => "$"
        end
      else String d (expand matched before after tl)
  end.

(** [s.replace(pattern, replacement)] for a string [pattern]. *)
Definition replace (s pattern replacement : string) : string :=
  match search pattern s "" with
  | None => s
  | Some (before, after) =>
      before +:+ expand pattern before after replacement +:+ after
  end.

(** [s.replace(re, '')] for a global [re] matching single characters. *)
Fixpoint remove_chars (p : ascii -> bool) (s : string) : string :=
  match s with
  | EmptyString => ""
  | String c s' => if p c then remove_chars p s' else String c (remove_chars p s')
  end.

Definition is_brace (c : ascii) : bool := (code c =? 123) || (code c =? 125).
Definition is_dquote (c : ascii) : bool := code c =? 34.

(** [[^"}]] and [[^"]] *)
Definition ref_char (c : ascii) : bool := negb (is_dquote c) && negb (code c =? 125).
Definition not_dquote (c : ascii) : bool := negb (is_dquote c).

(** The loop shared by [populateInventoryRefs] and
    [populateUpperLevelRefs]: [tag] is ['inventory:'] or ['config:'],
    [obj] the document the references point into. *)
Fixpoint substitute_refs (tag : string) (obj : json) (matches : list string)
  (strConfig : string) : resolved string :=
  match matches with
  | [] => Done strConfig
  | m :: rest =>
      let element := remove_chars is_brace m in
      result <~ getRefValue (string_drop (String.length tag) element) obj ;;
      text <~ ToString result ;;
      substitute_refs tag obj rest (replace strConfig m text)
  end.

Definition populateInventoryRefs (config inventory : json) : resolved json :=
  let strConfig := stringify config in
  let inventoryMatches := match_all "{inventory:" ref_char "}" strConfig in
  strConfig <~ substitute_refs "inventory:" inventory inventoryMatches strConfig ;;
  JSON_parse strConfig.

Definition populateUpperLevelRefs (config : json) : resolved json :=
  let strConfig := stringify config in
  let upperMatches := match_all "{config:" ref_char "}" strConfig in
  strConfig <~ substitute_refs "config:" config upperMatches strConfig ;;
  JSON_parse strConfig.

(** ** The vault pass, [Bw.prototype.fill] *)

(** [path.forEach(part => ...)]: an array is searched by [name], any
    other value is indexed with [current[part]]. *)
Fixpoint bw_walk (path : list string) (current : jsval) : resolved jsval :=
  match path with
  | [] => Done current
  | part :: rest =>
      match current with
      | Value (JArray items) =>
          match find_named part items with
          | Throw e => Raised e
          | Return None => bw_walk rest Undefined
          | Return (Some item) => bw_walk rest (Value item)
          end
      | Value (JObject fields) =>
          match own part fields with
          | Some v => bw_walk rest (Value v)
          | None =>
              if decide (part ∈ object_prototype_keys)
              then bw_walk rest (Inherited part)
              else bw_walk rest Undefined
          end
      | Undefined | Value JNull => Raised TypeError
      | Value _ | Inherited _ => Beyond
      end
  end.

(** The [for] loop of [fill], with the secrets already listed. *)
Fixpoint fill_loop (secrets : list json) (bwMatches : list string)
  (strConfig : string) : resolved string :=
  match bwMatches with
  | [] => Done strConfig
  | m :: rest =>
      let element := remove_chars is_dquote m in
      let reference := replace element "bw:" "" in
      let name := hd "" (split "." reference) in
      match find_named name secrets with
      | Throw e => Raised e
      | Return None => fill_loop secrets rest strConfig
      | Return (Some bwSecret) =>
          let path := tail (split "." reference) in
          current <~ bw_walk path (Value bwSecret) ;;
          match current with
          | Value (JString s) =>
              fill_loop secrets rest
                (replace strConfig
                   (String dquote ("bw:" +:+ reference +:+ String dquote ""))
                   (String dquote (s +:+ String dquote "")))
          | _ => fill_loop secrets rest strConfig
          end
      end
  end.

Definition fill (secrets : list json) (config : json) : resolved json :=
  let strConfig := stringify config in
  let bwMatches := match_all (String dquote "bw:") not_dquote dquote strConfig in
  strConfig <~ fill_loop secrets bwMatches strConfig ;;
  JSON_parse strConfig.

(** ** The inventory as the JavaScript object the passes read *)

Definition opt_field (key : string) (v : option json) : list (string * json) :=
  match v with
  | Some j => [(key, j)]
  | None => []
  end.

Definition proxmox_json (p : Proxmox) : json :=
  JObject [ ("username", JString (username p)); ("password", JString (password p));
            ("endpoint", JString (endpoint p)); ("api_user", JString (api_user p));
            ("api_token", JString (api_token p)); ("node", JString (node p)) ].

Definition terraform_json (t : Terraform) : json :=
  JObject [ ("backend",
             JObject [ ("type", JString (backend_type (backend t)));
                       ("config", JObject (backend_config (backend t))) ]) ].

Definition interface_json (i : Interface) : json :=
  JObject [ ("network", JString (network i)); ("ip", JString (iface_ip i)) ].

Definition host_json (h : Host) : json :=
  JObject ([ ("name", JString (host_name h)); ("vmid", JNumber (host_vmid h));
             ("type", JString (host_type h)) ]
           ++ opt_field "interfaces" ((fun l => JArray (interface_json <$> l)) <$> interfaces h)).

Definition template_json (t : Template) : json :=
  JObject [ ("name", JString (template_name t)); ("version", JString (version t));
            ("vmid", JNumber (template_vmid t)) ].

Definition network_json (n : Network) : json :=
  JObject ([ ("name", JString (name n)); ("subnet", JString (subnet n));
             ("gateway", JString (gateway n)); ("dns", JString (dns n));
             ("iface", JString (iface n)); ("dhcp_enabled", JBool (dhcp_enabled n)) ]
           ++ opt_field "domain" (JString <$> domain n)
           ++ [ ("static_range",
                 JObject [ ("start", JString (start (static_range n)));
                           ("end", JString (end_ (static_range n))) ]) ]).

Definition reserved_json (r : Reserved) : json :=
  JObject [ ("vmids",
             JArray ((fun v => JObject [ ("vmid", JNumber (vmid v));
                                         ("refId", JString (vmid_refId v)) ]) <$> vmids r));
            ("ips",
             JArray ((fun i => JObject [ ("ip", JString (ip i));
                                         ("refId", JString (ip_refId i)) ]) <$> ips r)) ].

Definition inventory_json (inventory : Inventory) : json :=
  JObject ([ ("proxmox", proxmox_json (proxmox inventory));
             ("terraform", terraform_json (terraform inventory)) ]
           ++ opt_field "hosts" ((fun l => JArray (host_json <$> l)) <$> hosts inventory)
           ++ [ ("templates", JArray (template_json <$> templates inventory));
                ("networks", JArray (network_json <$> networks inventory)) ]
           ++ opt_field "reserved" (reserved_json <$> reserved inventory)).

(** ** Persisting the reservations *)

(** The files of the inventory directory: path to contents. *)
Definition files : Type := string -> option string.

Definition writeFileSync (path data : string) (fs : files) : files :=
  fun p => if decide (p = path) then Some data else fs p.

Section Persist.

(** [JSON.parse] followed by [schema.validate] of [loadInventory]:
    the validated document, or [None] where either step fails. *)
Variable validate : string -> option Inventory.

(** [JSON.stringify(inventory, null, 2)] *)
Variable serialize : Inventory -> string.

(** [null] when the file cannot be read, parsed or validated. *)
Definition loadInventory (fs : files) (configFile : string) : option Inventory :=
  data ← fs configFile; validate data.

Definition updateInventory (fs : files) (inventoryFile : string)
  (updatedInventory : Inventory) : result unit * files :=
  match loadInventory fs inventoryFile with
  | None => (Throw (Error "Failed to load inventory for update"), fs)
  | Some inventory =>
      let inventory := set_reserved (reserved updatedInventory) inventory in
      (Return tt, writeFileSync inventoryFile (serialize inventory) fs)
  end.

End Persist.

(** ** Notions of the specification *)

(** The fixed ranges of the specification. *)
Definition vmid_ranges : list (string * (Z * Z)) :=
  [ ("baremetal", (0, 99)); ("vm", (100, 199));
    ("lxc", (200, 299)); ("template", (300, 399)) ].

(** The used set in the words of the specification: an id is taken
    when a template or a reservation carries it. *)
Definition vmid_taken (inventory : Inventory) (id : Z) : Prop :=
  (exists t, t ∈ templates inventory /\ template_vmid t = id) \/
  (exists r v, reserved inventory = Some r /\ v ∈ vmids r /\ vmid v = id).

(** The entries of a list that carry [refId]. *)
Definition bound_to {A : Type} (key : A -> string) (refId : string) (l : list A) : list A :=
  filter (fun x => key x = refId) l.

(** The reservations of [refId] in the two lists of the ledger. *)
Definition vmid_entries (refId : string) (inventory : Inventory) : list ReservedVmid :=
  bound_to vmid_refId refId (vmids (default empty_reserved (reserved inventory))).

Definition ip_entries (refId : string) (inventory : Inventory) : list ReservedIp :=
  bound_to ip_refId refId (ips (default empty_reserved (reserved inventory))).

(** The ids of committed hosts and templates. *)
Definition committed_vmids (inventory : Inventory) : list Z :=
  (host_vmid <$> default [] (hosts inventory)) ++ (template_vmid <$> templates inventory).

(** The addresses of the interfaces of committed hosts. *)
Definition committed_ips (inventory : Inventory) : list string :=
  iface_ip <$> host_interfaces inventory.

(** The invariant of the data model on [reserved]: no reserved value
    is the value of a committed resource, and a [refId] occurs once in
    its list. *)
Record ledger_invariant (inventory : Inventory) : Prop := {
  reserved_vmids_fresh :
    forall r v, reserved inventory = Some r -> v ∈ vmids r ->
                vmid v ∉ committed_vmids inventory;
  reserved_ips_fresh :
    forall r e, reserved inventory = Some r -> e ∈ ips r ->
                ip e ∉ committed_ips inventory;
  vmid_refIds_unique :
    forall r, reserved inventory = Some r -> NoDup (vmid_refId <$> vmids r);
  ip_refIds_unique :
    forall r, reserved inventory = Some r -> NoDup (ip_refId <$> ips r)
}.

(** The part of the invariant that does not speak of hosts. *)
Record ledger_core (inventory : Inventory) : Prop := {
  core_vmids_fresh :
    forall r v, reserved inventory = Some r -> v ∈ vmids r ->
                vmid v ∉ template_vmid <$> templates inventory;
  core_vmid_refIds_unique :
    forall r, reserved inventory = Some r -> NoDup (vmid_refId <$> vmids r);
  core_ip_refIds_unique :
    forall r, reserved inventory = Some r -> NoDup (ip_refId <$> ips r)
}.

(** A call of one of the two reserve operations. *)
Inductive call : Type :=
| ReserveVmId (type refId : string)
| ReserveIpAddress (networkName refId : string).

(** The inventory after a call, whether it returned or threw. *)
Definition after (c : call) (inventory : Inventory) : Inventory :=
  match c with
  | ReserveVmId type refId => snd (reserveVmId type inventory refId)
  | ReserveIpAddress networkName refId => snd (reserveIpAddress networkName inventory refId)
  end.

(** The inventory after a sequence of calls. *)
Definition after_all (calls : list call) (inventory : Inventory) : Inventory :=
  foldl (fun inventory c => after c inventory) inventory calls.

(** [a] is an address of the family [version] on which the conversion
    of the code does not throw. *)
Definition readable (version : Z) (a : string) : Prop :=
  isIP a = version /\ exists n, toBig version a = Return n.

(** The used set as the allocator computes it: the numbers its own
    conversion reads from the gateway, the dns, and the address of
    every host interface on the network that [net.isIP] accepts. *)
Definition ip_taken (version : Z) (networkName : string) (netCfg : Network)
  (inventory : Inventory) (n : Z) : Prop :=
  toBig version (gateway netCfg) = Return n \/
  toBig version (dns netCfg) = Return n \/
  exists h i, h ∈ default [] (hosts inventory) /\ i ∈ default [] (interfaces h) /\
              network i = networkName /\ isIP (iface_ip i) <> 0 /\
              toBig version (iface_ip i) = Return n.

(** The gateway, the dns and the valid host addresses of the network
    are of its family. *)
Definition same_family (version : Z) (networkName : string) (netCfg : Network)
  (inventory : Inventory) : Prop :=
  readable version (gateway netCfg) /\ readable version (dns netCfg) /\
  forall h i, h ∈ default [] (hosts inventory) -> i ∈ default [] (interfaces h) ->
              network i = networkName -> isIP (iface_ip i) <> 0 ->
              readable version (iface_ip i).

(** The number of addresses of a family. *)
Definition family_size (version : Z) : Z :=
  if version =? 4 then 2 ^ 32 else 2 ^ 128.

(** ** Shapes of the strings the allocator writes *)

(** A piece free of the character [c]. *)
Definition free_of (c : ascii) (p : string) : bool :=
  forall_chars (fun x => negb (Ascii.eqb x c)) p.

(** [c] is a digit in [radix]. *)
Definition is_below (radix : Z) (c : ascii) : bool :=
  match digit_value radix c with
  | Some _ => true
  | None => false
  end.

(** A group as [bigToIpv6] writes it: not empty, no colon inside. *)
Definition is_group (g : string) : Prop := g <> "" /\ free_of ":" g = true.

(** The decimal numeral of [k] is a segment of an IPv4 address, has
    no dot, and reads as [k]. *)
Definition octet_ok (k : Z) : bool :=
  let s := toString 10 k in
  isV4Seg s && free_of "." s && bool_decide (parseInt s 10 = Some k).

(** ** Addresses as the specification reads them *)

(** The number a numeral of [radix] stands for; [None] when the text
    is empty or holds a character that is no digit of the radix. *)
Definition numeral (radix : Z) (s : string) : option Z :=
  if forall_chars (is_below radix) s then parse_digits radix s None else None.

(** The number of a dotted quad. *)
Definition quad_number (a : string) : option Z :=
  match split "." a with
  | [a; b; c; d] =>
      a ← numeral 10 a; b ← numeral 10 b; c ← numeral 10 c; d ← numeral 10 d;
      Some (((a * 256 + b) * 256 + c) * 256 + d)
  | _ => None
  end.

(** The 16-bit words of a colon-separated run of groups. The last
    group may be a dotted quad, which stands for two words. *)
Fixpoint words (parts : list string) : option (list Z) :=
  match parts with
  | [] => Some []
  | [p] =>
      match numeral 16 p with
      | Some w => Some [w]
      | None => q ← quad_number p; Some [q / 65536; q mod 65536]
      end
  | p :: rest => w ← numeral 16 p; ws ← words rest; Some (w :: ws)
  end.

Definition words_number (ws : list Z) : Z :=
  foldl (fun acc w => acc * 65536 + w) 0 ws.

(** The number an IPv6 text stands for: a zone is no part of it, and
    [::] stands for the words of zeros that make eight. *)
Definition ipv6_number (a : string) : option Z :=
  let addr := hd "" (split "%" a) in
  match split "::" addr with
  | [whole] => ws ← words (split ":" whole); Some (words_number ws)
  | [l; r] =>
      lw ← words (v6_side l); rw ← words (v6_side r);
      Some (words_number (lw ++ replicate (8 - length lw - length rw) 0 ++ rw)%list)
  | _ => None
  end.

(** The number a valid address stands for; addresses are ordered by
    it. *)
Definition address_number (a : string) : option Z :=
  if isIPv4 a then quad_number a
  else if isIPv6 a then ipv6_number a
  else None.

(** An address of the family [version] in its plain form: a dotted
    quad, or hexadecimal groups with or without [::], without an
    embedded dotted quad and without a zone. *)
Definition plain (version : Z) (a : string) : Prop :=
  isIP a = version /\
  (version = 6 -> free_of "." a = true /\ free_of "%" a = true).

(** The used set in the words of the specification: the gateway, the
    dns, and the address of every host interface on the network that
    [net.isIP] accepts. *)
Definition address_taken (networkName : string) (netCfg : Network)
  (inventory : Inventory) (n : Z) : Prop :=
  address_number (gateway netCfg) = Some n \/
  address_number (dns netCfg) = Some n \/
  exists h i, h ∈ default [] (hosts inventory) /\ i ∈ default [] (interfaces h) /\
              network i = networkName /\ isIP (iface_ip i) <> 0 /\
              address_number (iface_ip i) = Some n.

(** The addresses of the network are written in the plain form of the
    family: the two ends of the range, the gateway, the dns and the
    host addresses on the network that [net.isIP] accepts. *)
Definition plain_network (version : Z) (networkName : string) (netCfg : Network)
  (inventory : Inventory) : Prop :=
  plain version (start (static_range netCfg)) /\
  plain version (end_ (static_range netCfg)) /\
  plain version (gateway netCfg) /\ plain version (dns netCfg) /\
  forall h i, h ∈ default [] (hosts inventory) -> i ∈ default [] (interfaces h) ->
              network i = networkName -> isIP (iface_ip i) <> 0 ->
              plain version (iface_ip i).

(** ** Sample documents *)

Definition sample_proxmox : Proxmox :=
  {| username := "root"; password := "bw:pve.login.password"; endpoint := "pve.lan:8006";
     api_user := "terraform@pve!cli"; api_token := "bw:pve.fields.token"; node := "pve" |}.

Definition sample_terraform : Terraform :=
  {| backend := {| backend_type := "s3"; backend_config := [("bucket", JString "tfstate")] |} |}.

(** The inventory of scenario B: one template with vmid 300. *)
Definition inventory_B : Inventory :=
  {| proxmox := sample_proxmox; terraform := sample_terraform; hosts := None;
     templates := [ {| template_name := "debian"; version := "12"; template_vmid := 300 |} ];
     networks := []; reserved := Some empty_reserved |}.

(** The network of scenario A, without a subnet prefix. *)
Definition lan : Network :=
  {| name := "lan"; subnet := ""; gateway := "10.0.0.1"; dns := "10.0.0.1";
     iface := "vmbr0"; dhcp_enabled := false; domain := None;
     static_range := {| start := "10.0.0.2"; end_ := "10.0.0.4" |} |}.

(** The inventory of scenario A: no committed hosts, empty ledger. *)
Definition inventory_A : Inventory :=
  {| proxmox := sample_proxmox; terraform := sample_terraform; hosts := None;
     templates := []; networks := [lan]; reserved := Some empty_reserved |}.

(** A ledger with one VM id bound to [vm:id:web] and no IP. *)
Definition inventory_web : Inventory :=
  set_reserved
    (Some {| vmids := [ {| vmid := 100; vmid_refId := "vm:id:web" |} ]; ips := [] |})
    inventory_A.

(** The network of scenario C: a range of the one address 10.0.0.5,
    which a host on the network already has. *)
Definition lan_C : Network :=
  {| name := "lan"; subnet := "10.0.0.0/24"; gateway := "10.0.0.1"; dns := "10.0.0.1";
     iface := "vmbr0"; dhcp_enabled := false; domain := None;
     static_range := {| start := "10.0.0.5"; end_ := "10.0.0.5" |} |}.

(** The inventory of scenario C. *)
Definition inventory_C : Inventory :=
  {| proxmox := sample_proxmox; terraform := sample_terraform;
     hosts := Some [ {| host_name := "nas"; host_vmid := 101; host_type := "vm";
                        interfaces := Some [ {| network := "lan"; iface_ip := "10.0.0.5" |} ] |} ];
     templates := []; networks := [lan_C]; reserved := Some empty_reserved |}.

(** Scenario C with the host's address written with its prefix length,
    as [reserveIpAddress] returns addresses on this network. *)
Definition inventory_prefixed : Inventory :=
  {| proxmox := sample_proxmox; terraform := sample_terraform;
     hosts := Some [ {| host_name := "nas"; host_vmid := 101; host_type := "vm";
                        interfaces := Some [ {| network := "lan"; iface_ip := "10.0.0.5/24" |} ] |} ];
     templates := []; networks := [lan_C]; reserved := Some empty_reserved |}.

(** An inventory with a committed host: the VM [nas] with vmid 100,
    whose address on [lan] is written with its prefix length. *)
Definition inventory_hosts : Inventory :=
  {| proxmox := sample_proxmox; terraform := sample_terraform;
     hosts := Some [ {| host_name := "nas"; host_vmid := 100; host_type := "vm";
                        interfaces := Some [ {| network := "lan"; iface_ip := "10.0.0.5/24" |} ] |} ];
     templates := []; networks := [lan_C]; reserved := Some empty_reserved |}.

(** An IPv4 range whose gateway is an IPv6 address. *)
Definition lan_mixed : Network :=
  {| name := "lan"; subnet := "10.0.0.0/24"; gateway := "fd00::1"; dns := "10.0.0.1";
     iface := "vmbr0"; dhcp_enabled := false; domain := None;
     static_range := {| start := "10.0.0.5"; end_ := "10.0.0.5" |} |}.

Definition inventory_mixed : Inventory :=
  {| proxmox := sample_proxmox; terraform := sample_terraform; hosts := None;
     templates := []; networks := [lan_mixed]; reserved := Some empty_reserved |}.

(** An IPv6 network in plain form, with a host on its third address. *)
Definition lan6 : Network :=
  {| name := "lan6"; subnet := "fd00::/64"; gateway := "fd00::1"; dns := "fd00::2";
     iface := "vmbr1"; dhcp_enabled := false; domain := None;
     static_range := {| start := "fd00::1"; end_ := "fd00::10" |} |}.

Definition inventory_v6 : Inventory :=
  {| proxmox := sample_proxmox; terraform := sample_terraform;
     hosts := Some [ {| host_name := "nas"; host_vmid := 101; host_type := "vm";
                        interfaces := Some [ {| network := "lan6"; iface_ip := "fd00::3" |} ] |} ];
     templates := []; networks := [lan6]; reserved := Some empty_reserved |}.

(** A range of IPv4-mapped addresses, ::ffff:10.0.0.2 to
    ::ffff:10.0.0.4, with its gateway written in hexadecimal groups. *)
Definition lan_mapped : Network :=
  {| name := "lan"; subnet := "::ffff:10.0.0.0/120";
     gateway := "::ffff:a00:1"; dns := "::ffff:a00:1";
     iface := "vmbr0"; dhcp_enabled := false; domain := None;
     static_range := {| start := "::ffff:10.0.0.2"; end_ := "::ffff:10.0.0.4" |} |}.

Definition inventory_mapped : Inventory :=
  {| proxmox := sample_proxmox; terraform := sample_terraform; hosts := None;
     templates := []; networks := [lan_mapped]; reserved := Some empty_reserved |}.

(** The same range written in hexadecimal groups, ::ffff:a00:2 to
    ::ffff:a00:4, with a host on its first address, written
    ::ffff:10.0.0.2. *)
Definition lan_mapped_host : Network :=
  {| name := "lan"; subnet := "::ffff:a00:0/120";
     gateway := "::ffff:a00:1"; dns := "::ffff:a00:1";
     iface := "vmbr0"; dhcp_enabled := false; domain := None;
     static_range := {| start := "::ffff:a00:2"; end_ := "::ffff:a00:4" |} |}.

Definition inventory_mapped_host : Inventory :=
  {| proxmox := sample_proxmox; terraform := sample_terraform;
     hosts := Some [ {| host_name := "nas"; host_vmid := 101; host_type := "vm";
                        interfaces := Some [ {| network := "lan";
                                                iface_ip := "::ffff:10.0.0.2" |} ] |} ];
     templates := []; networks := [lan_mapped_host]; reserved := Some empty_reserved |}.

(** A link-local range whose addresses carry a zone. *)
Definition lan_zone : Network :=
  {| name := "lan"; subnet := "fe80::/64"; gateway := "fe80::1"; dns := "fe80::1";
     iface := "vmbr0"; dhcp_enabled := false; domain := None;
     static_range := {| start := "fe80::%eth0"; end_ := "fe80::10%eth0" |} |}.

Definition inventory_zone : Inventory :=
  {| proxmox := sample_proxmox; terraform := sample_terraform; hosts := None;
     templates := []; networks := [lan_zone]; reserved := Some empty_reserved |}.

(** A serializer, a validator that knows the one document of
    [inventory_B], and a directory that holds it. *)
Definition sample_serialize (inventory : Inventory) : string :=
  stringify (inventory_json inventory).

Definition sample_validate (data : string) : option Inventory :=
  if decide (data = sample_serialize inventory_B) then Some inventory_B else None.

Definition sample_files : files :=
  fun path =>
    if decide (path = "inventory.json") then Some (sample_serialize inventory_B) else None.

(** A listed vault with the one secret [pve]. *)
Definition sample_secrets : list json :=
  [ JObject [ ("name", JString "pve");
              ("login", JObject [ ("username", JString "root");
                                  ("password", JString "hunter2") ]);
              ("fields", JArray [ JObject [ ("name", JString "token");
                                            ("value", JString "8f2c") ] ]) ] ].

(** [x] occurs in [obj]: it is [obj], an element of an array in it, or
    the value of a field in it. *)
Inductive occurs_in (x : json) : json -> Prop :=
| occurs_here : occurs_in x x
| occurs_item (items : list json) (item : json) :
    item ∈ items -> occurs_in x item -> occurs_in x (JArray items)
| occurs_field (fields : list (string * json)) (k : string) (v : json) :
    (k, v) ∈ fields -> occurs_in x v -> occurs_in x (JObject fields).

(** ** Terraform: placeholders for VM ids and addresses
    ([src/lib/terraform.js]) *)

(** A character of a label: any but a double quote, a colon or white
    space. *)
Definition label_char (c : ascii) : bool :=
  negb (is_dquote c) && negb (code c =? 58) && negb (is_white_space c).

(** A match of the VM id placeholder at the head of [s]: between
    double quotes, [vm] or [lxc], then [:id:], then one or more label
    characters. *)
Definition vmid_token_at (s : string) : option string :=
  match match_at (String dquote "vm:id:") label_char dquote s with
  | Some m => Some m
  | None => match_at (String dquote "lxc:id:") label_char dquote s
  end.

(** A match of the address placeholder at the head of [s]: between
    double quotes, [ip:], one or more label characters, a colon, one
    or more label characters. Neither run can be cut short: the
    character after it is no label character. *)
Definition ip_token_at (s : string) : option string :=
  let opening := String dquote "ip:" in
  if String.prefix opening s then
    let '(net, rest) := span label_char (string_drop (String.length opening) s) in
    match net, rest with
    | String _ _, String c rest' =>
        if code c =? 58 then
          let '(host, rest'') := span label_char rest' in
          match host, rest'' with
          | String _ _, String q _ =>
              if decide (q = dquote)
              then Some (opening +:+ net +:+ ":" +:+ host +:+ String dquote "")
              else None
          | _, _ => None
          end
        else None
    | _, _ => None
    end
  else None.

(** [Array.from(s.matchAll(re), m => m[0])] for a regular expression
    given by its matcher at the head of a string. *)
Fixpoint tokens_go (at_head : string -> option string) (s : string) (skip : nat)
  : list string :=
  match s with
  | EmptyString => []
  | String _ s' =>
      match skip with
      | S k => tokens_go at_head s' k
      | O =>
          match at_head s with
          | Some m => m :: tokens_go at_head s' (String.length m - 1)
          | None => tokens_go at_head s' 0
          end
      end
  end.

(** [Array.from(new Set(l))]: the first occurrence of each element, in
    order. *)
Fixpoint unique_go (seen l : list string) : list string :=
  match l with
  | [] => []
  | x :: l' =>
      if decide (x ∈ seen) then unique_go seen l' else x :: unique_go (x :: seen) l'
  end.

Definition unique (l : list string) : list string := unique_go [] l.

(** The [for] loop of [populateVmIds]. [newInventory] and
    [deletedInventory] are the two fields of the Terraform object the
    loop pushes to; they are returned as the loop leaves them, also
    when [getNextVmId] throws. A configuration without [reserved]
    makes the first lookup throw. *)
Fixpoint populateVmIds_loop (inventory : Inventory) (destroy : bool)
  (matchesArray : list string) (strConfig : string) (vmIds : list Z)
  (newInventory deletedInventory : Reserved)
  : result (string * list Z) * (Reserved * Reserved) :=
  match matchesArray with
  | [] => (Return (strConfig, vmIds), (newInventory, deletedInventory))
  | originalMatch :: rest =>
      let element := remove_chars is_dquote originalMatch in
      match reserved inventory with
      | None => (Throw TypeError, (newInventory, deletedInventory))
      | Some r =>
          match list_find (fun v => vmid_refId v = element) (vmids r) with
          | Some (_, existing) =>
              populateVmIds_loop inventory destroy rest
                (replace strConfig element (toString 10 (vmid existing)))
                (vmIds ++ [vmid existing]) newInventory
                (if destroy
                 then set_vmids (vmids deletedInventory ++ [existing]) deletedInventory
                 else deletedInventory)
          | None =>
              let type := hd "" (split ":" element) in
              match getNextVmId type inventory with
              | Throw e => (Throw e, (newInventory, deletedInventory))
              | Return vmId =>
                  populateVmIds_loop inventory destroy rest
                    (replace strConfig element (toString 10 vmId))
                    (vmIds ++ [vmId])
                    (set_vmids
                       (vmids newInventory ++ [ {| vmid := vmId; vmid_refId := element |} ])
                       newInventory)
                    deletedInventory
              end
          end
      end
  end.

Definition populateVmIds (inventory : Inventory) (destroy : bool) (strConfig : string)
  (newInventory deletedInventory : Reserved)
  : result (string * list Z) * (Reserved * Reserved) :=
  let matchesArray := unique (tokens_go vmid_token_at strConfig 0) in
  populateVmIds_loop inventory destroy matchesArray strConfig [] newInventory deletedInventory.

(** The [for] loop of [populateIpAddresses]. *)
Fixpoint populateIpAddresses_loop (inventory : Inventory) (destroy : bool)
  (matchesArray : list string) (strConfig : string) (reservedIps : list string)
  (newInventory deletedInventory : Reserved)
  : result (string * list string) * (Reserved * Reserved) :=
  match matchesArray with
  | [] => (Return (strConfig, reservedIps), (newInventory, deletedInventory))
  | originalMatch :: rest =>
      let element := remove_chars is_dquote originalMatch in
      match reserved inventory with
      | None => (Throw TypeError, (newInventory, deletedInventory))
      | Some r =>
          match list_find (fun i => ip_refId i = element) (ips r) with
          | Some (_, existing) =>
              populateIpAddresses_loop inventory destroy rest
                (replace strConfig element (ip existing))
                (reservedIps ++ [ip existing]) newInventory
                (if destroy
                 then set_ips (ips deletedInventory ++ [existing]) deletedInventory
                 else deletedInventory)
          | None =>
              let networkName := nth 1 (split ":" element) "" in
              match getNextIpAddress networkName inventory with
              | Throw e => (Throw e, (newInventory, deletedInventory))
              | Return a =>
                  populateIpAddresses_loop inventory destroy rest
                    (replace strConfig element a)
                    (reservedIps ++ [a])
                    (set_ips (ips newInventory ++ [ {| ip := a; ip_refId := element |} ])
                       newInventory)
                    deletedInventory
              end
          end
      end
  end.

Definition populateIpAddresses (inventory : Inventory) (destroy : bool)
  (strConfig : string) (newInventory deletedInventory : Reserved)
  : result (string * list string) * (Reserved * Reserved) :=
  let matchesArray := unique (tokens_go ip_token_at strConfig 0) in
  populateIpAddresses_loop inventory destroy matchesArray strConfig []
    newInventory deletedInventory.

(** The type a VM label names, [element.split(':')[0]]. *)
Definition label_type (refId : string) : string := hd "" (split ":" refId).

(** The network an IP label names, [element.split(':')[1]]. *)
Definition label_network (refId : string) : string := nth 1 (split ":" refId) "".

(** A manifest with two new machines. *)
Definition two_vms : string :=
  stringify (JObject [ ("web", JObject [ ("vm_id", JString "vm:id:web");
                                         ("ip", JString "ip:lan:web") ]);
                       ("db", JObject [ ("vm_id", JString "vm:id:db");
                                        ("ip", JString "ip:lan:db") ]) ]).

(** ** Packer: the address of the build host
    ([Packer.prototype.getHttpIp], [src/lib/packer.js]) *)

(** The 32-bit integer operators of JavaScript, on numbers that are
    integers: [x << count], [~x], [x & y] give a signed result,
    [x >>> 0] an unsigned one. *)
Definition ToUint32 (x : Z) : Z := x mod 2 ^ 32.

Definition ToInt32 (x : Z) : Z :=
  let u := x mod 2 ^ 32 in if u <? 2 ^ 31 then u else u - 2 ^ 32.

Definition shl (x count : Z) : Z := ToInt32 (Z.shiftl (ToInt32 x) (count mod 32)).
Definition bnot (x : Z) : Z := ToInt32 (Z.lnot (ToInt32 x)).
Definition band (x y : Z) : Z := ToInt32 (Z.land (ToInt32 x) (ToInt32 y)).
Definition ushr0 (x : Z) : Z := ToUint32 x.

(** A summand up to this magnitude adds to a 32-bit integer without
    rounding; what [parseInt] reads beyond it is left out of the
    model. *)
Definition exact_bound : Z := 2 ^ 53 - 2 ^ 32.

(** [(a, b) => ((a << 8) + parseInt(b, 10)) >>> 0]; with [NaN] the sum
    is [NaN], which [>>> 0] turns into 0. *)
Definition ipToInt_step (a : Z) (b : string) : resolved Z :=
  match parseInt b 10 with
  | None => Done 0
  | Some v => if Z.abs v <=? exact_bound then Done (ushr0 (shl a 8 + v)) else Beyond
  end.

Fixpoint ipToInt_go (parts : list string) (a : Z) : resolved Z :=
  match parts with
  | [] => Done a
  | b :: rest => a' <~ ipToInt_step a b ;; ipToInt_go rest a'
  end.

(** [s => s.split('.').reduce(..., 0) >>> 0] *)
Definition ipToInt (s : string) : resolved Z :=
  a <~ ipToInt_go (split "." s) 0 ;; Done (ushr0 a).

(** One or more digits followed by the character [c]: the digits and
    what follows [c]. *)
Definition digits_then (c : ascii) (s : string) : option (string * string) :=
  let '(d, rest) := span is_digit s in
  match d, rest with
  | String _ _, String x rest' => if decide (x = c) then Some (d, rest') else None
  | _, _ => None
  end.

(** A match of [/inet (\d+\.\d+\.\d+\.\d+)\/\d+/] at the head of [s]:
    its first group. A run of digits cannot be cut short, since the
    character that has to follow is no digit. *)
Definition inet_at (s : string) : option string :=
  if String.prefix "inet " s then
    '(a, r) ← digits_then "." (string_drop 5 s);
    '(b, r) ← digits_then "." r;
    '(c, r) ← digits_then "." r;
    '(d, r) ← digits_then "/" r;
    match span is_digit r with
    | (String _ _, _) => Some (a +:+ "." +:+ b +:+ "." +:+ c +:+ "." +:+ d)
    | _ => None
    end
  else None.

(** [s.match(re)]: the leftmost match. *)
Fixpoint inet_search (s : string) : option string :=
  match inet_at s with
  | Some address => Some address
  | None =>
      match s with
      | String _ s' => inet_search s'
      | EmptyString => None
      end
  end.

Fixpoint trim_left (s : string) : string :=
  match s with
  | String c s' => if is_white_space c then trim_left s' else s
  | EmptyString => s
  end.

Fixpoint trim_right (s : string) : string :=
  match s with
  | EmptyString => ""
  | String c s' =>
      let t := trim_right s' in
      if is_white_space c && String.eqb t "" then "" else String c t
  end.

(** [s.trim()] *)
Definition trim (s : string) : string := trim_right (trim_left s).

(** [prefixLen === 0 ? 0 : (~0 << (32 - prefixLen)) >>> 0] *)
Definition subnet_mask (prefixLen : Z) : Z :=
  if prefixLen =? 0 then 0 else ushr0 (shl (bnot 0) (32 - prefixLen)).

(** [const [base, prefix] = (network.subnet || '').split('/')]; a
    missing [prefix] is [undefined], falsy like the empty string. *)
Definition subnet_base (network : Network) : string :=
  nth 0 (split "/" (subnet network)) "".

Definition subnet_prefix (network : Network) : string :=
  nth 1 (split "/" (subnet network)) "".

(** [prefix ? parseInt(prefix, 10) : 32]; [None] is [NaN]. *)
Definition subnet_prefixLen (network : Network) : option Z :=
  if String.eqb (subnet_prefix network) "" then Some 32
  else parseInt (subnet_prefix network) 10.

(** The [for (const line of lines)] loop. *)
Fixpoint getHttpIp_lines (networkName : string) (network : Network)
  (lines : list string) : resolved string :=
  match lines with
  | [] => Raised (Error ("No valid IP found for network " +:+ networkName))
  | line :: rest =>
      match inet_search (trim line) with
      | None => getHttpIp_lines networkName network rest
      | Some address =>
          match subnet_prefixLen network with
          | None => getHttpIp_lines networkName network rest
          | Some prefixLen =>
              if String.eqb (subnet_base network) "" || (prefixLen <? 0) || (prefixLen >? 32)
              then getHttpIp_lines networkName network rest
              else
                let mask := subnet_mask prefixLen in
                ipInt <~ ipToInt address ;;
                b <~ ipToInt (subnet_base network) ;;
                let baseInt := band b mask in
                if band ipInt mask =? baseInt then Done address
                else getHttpIp_lines networkName network rest
          end
      end
  end.

(** [run] is the outcome of [ip addr show] on the build host: its
    output, or the error the executor rejects with. *)
Definition getHttpIp (inventory : option Inventory) (networkName : string)
  (run : result string) : resolved string :=
  match inventory with
  | None => Raised (Error "Inventory not loaded")
  | Some inventory =>
      match List.find (fun n => bool_decide (name n = networkName)) (networks inventory) with
      | None => Raised (Error ("Network " +:+ networkName +:+ " not found in inventory"))
      | Some network =>
          match run with
          | Throw e => Raised e
          | Return output =>
              getHttpIp_lines networkName network (split (String (ascii_of_nat 10) "") output)
          end
      end
  end.

(** Two addresses agree on their first [prefixLen] bits. *)
Definition same_subnet (prefixLen : Z) (x y : Z) : Prop :=
  x / 2 ^ (32 - prefixLen) = y / 2 ^ (32 - prefixLen).

(** What [ip addr show] prints on a host with one address on the
    network of scenario C. *)
Definition ip_addr_show : string :=
  join (String (ascii_of_nat 10) "")
    [ "1: lo: <LOOPBACK,UP,LOWER_UP> mtu 65536";
      "    inet 127.0.0.1/8 scope host lo";
      "    inet6 ::1/128 scope host";
      "2: eth0: <BROADCAST,MULTICAST,UP,LOWER_UP> mtu 1500";
      "    inet 10.0.0.17/24 brd 10.0.0.255 scope global eth0" ].

(** ** The command line ([parseArgs], [src/bin/tf-operations.js]) *)

(** The value of an option: [null] as initialised, [undefined] when
    the flag was the last word, or a string. *)
Inductive arg_value : Type :=
| ArgNull
| ArgUndefined
| ArgString (s : string).

(** The [args] object; [inventoryFile], [help] and [destroy] are
    absent until set. *)
Record Args : Type := {
  manifest : arg_value;
  bwAuth : arg_value;
  inventoryFile : option arg_value;
  help : bool;
  destroy : bool
}.

Definition initial_args : Args :=
  {| manifest := ArgNull; bwAuth := ArgNull; inventoryFile := None;
     help := false; destroy := false |}.

(** [a.split('=')[1]] *)
Definition after_equals (a : string) : arg_value :=
  match split "=" a with
  | _ :: v :: _ => ArgString v
  | _ => ArgUndefined
  end.

(** The [for] loop over [argv], from the word at hand on. *)
Fixpoint parseArgs_loop (argv : list string) (args : Args) : Args :=
  match argv with
  | [] => args
  | a :: rest =>
      if decide (a = "--help" \/ a = "-h") then
        {| manifest := manifest args; bwAuth := bwAuth args;
           inventoryFile := inventoryFile args; help := true; destroy := destroy args |}
      else if String.prefix "--manifest=" a then
        parseArgs_loop rest
          {| manifest := after_equals a; bwAuth := bwAuth args;
             inventoryFile := inventoryFile args; help := help args;
             destroy := destroy args |}
      else if decide (a = "--manifest") then
        match rest with
        | [] =>
            {| manifest := ArgUndefined; bwAuth := bwAuth args;
               inventoryFile := inventoryFile args; help := help args;
               destroy := destroy args |}
        | v :: rest' =>
            parseArgs_loop rest'
              {| manifest := ArgString v; bwAuth := bwAuth args;
                 inventoryFile := inventoryFile args; help := help args;
                 destroy := destroy args |}
        end
      else if String.prefix "--bw-auth=" a then
        parseArgs_loop rest
          {| manifest := manifest args; bwAuth := after_equals a;
             inventoryFile := inventoryFile args; help := help args;
             destroy := destroy args |}
      else if decide (a = "--bw-auth") then
        match rest with
        | [] =>
            {| manifest := manifest args; bwAuth := ArgUndefined;
               inventoryFile := inventoryFile args; help := help args;
               destroy := destroy args |}
        | v :: rest' =>
            parseArgs_loop rest'
              {| manifest := manifest args; bwAuth := ArgString v;
                 inventoryFile := inventoryFile args; help := help args;
                 destroy := destroy args |}
        end
      else if String.prefix "--inventory-file=" a then
        parseArgs_loop rest
          {| manifest := manifest args; bwAuth := bwAuth args;
             inventoryFile := Some (after_equals a); help := help args;
             destroy := destroy args |}
      else if decide (a = "--inventory-file") then
        match rest with
        | [] =>
            {| manifest := manifest args; bwAuth := bwAuth args;
               inventoryFile := Some ArgUndefined; help := help args;
               destroy := destroy args |}
        | v :: rest' =>
            parseArgs_loop rest'
              {| manifest := manifest args; bwAuth := bwAuth args;
                 inventoryFile := Some (ArgString v); help := help args;
                 destroy := destroy args |}
        end
      else if decide (a = "--destroy") then
        parseArgs_loop rest
          {| manifest := manifest args; bwAuth := bwAuth args;
             inventoryFile := inventoryFile args; help := help args;
             destroy := true |}
      else parseArgs_loop rest args
  end.

Definition parseArgs (argv : list string) : Args := parseArgs_loop argv initial_args.

(** The part of [v] before its first [=]. *)
Definition before_equals (v : string) : string := hd "" (split "=" v).

(** ** Documents as JavaScript holds them *)

(** The keys of an object in the order JavaScript enumerates them:
    no key twice, and a key that is an array index stands after
    smaller indices only. *)
Definition ordered_keys (fields : list (string * json)) : Prop :=
  forall l1 k v l2, fields = (l1 ++ (k, v) :: l2)%list ->
    own k l1 = None /\
    forall i, array_index k = Some i ->
      Forall (fun kv => exists j, array_index (fst kv) = Some j /\ j < i) l1.

(** A document that [JSON.parse] can have produced, within the model:
    integers that a double holds exactly, objects with their keys in
    enumeration order. *)
#[warnings="-register-all"]
Inductive well_formed : json -> Prop :=
| wf_null : well_formed JNull
| wf_bool (b : bool) : well_formed (JBool b)
| wf_number (n : Z) : - 2 ^ 53 < n < 2 ^ 53 -> well_formed (JNumber n)
| wf_string (s : string) : well_formed (JString s)
| wf_array (items : list json) : Forall well_formed items -> well_formed (JArray items)
| wf_object (fields : list (string * json)) :
    ordered_keys fields -> Forall (fun kv => well_formed (snd kv)) fields ->
    well_formed (JObject fields).

(** The number of values in a document. *)
Fixpoint size (j : json) : nat :=
  match j with
  | JArray items => S (list_sum (List.map (fun item => S (size item)) items))
  | JObject fields => S (list_sum (List.map (fun kv => S (size (snd kv))) fields))
  | _ => 1
  end.

(** What may follow a number in a text. *)
Definition ends_number (rest : string) : Prop :=
  match rest with
  | EmptyString => True
  | String c _ =>
      is_digit c = false /\ code c <> 46 /\ code c <> 101 /\ code c <> 69
  end.

(** The first character of the text of a value. *)
Definition value_head (c : ascii) : Prop :=
  is_json_space c = false /\ code c <> 93 /\ code c <> 125.

(** What the induction carries for a value: with fuel for its size,
    its text followed by [rest] parses to it and leaves [rest]. *)
Definition reads_back (j : json) : Prop :=
  forall fuel rest, (size j <= fuel)%nat -> ends_number rest ->
    parse_value fuel (stringify j +:+ rest) = Done (j, rest).

(** [loadConfig]: the parsed document, or [null] when the file cannot
    be read or is no JSON text (the error is caught and logged). *)
Definition loadConfig (fs : files) (configFile : string) : resolved json :=
  match fs configFile with
  | None => Done JNull
  | Some data =>
      match JSON_parse data with
      | Done j => Done j
      | Raised _ => Done JNull
      | Beyond => Beyond
      end
  end.

(** A configuration without placeholders. *)
Definition plain_config : json :=
  JObject [ ("name", JString "web"); ("cores", JNumber 2);
            ("tags", JArray [ JString "prod"; JNull; JBool true ]) ].

(** ** The earlier allocator (first version of [src/lib/function.js]) *)

(** [self.inventory] is the state of the module, set by
    [loadInventory]; it is passed in. *)
Module Earlier.

(** [new Set((self.inventory.hosts || []).map(h => h.vmid).filter(Number.isInteger))];
    the ids of the inventory document are integers. *)
Definition used_vmids (inventory : Inventory) : gset Z :=
  list_to_set (host_vmid <$> default [] (hosts inventory)).

Definition getNextVmId (self_inventory : option Inventory) (type : string) : result Z :=
  match self_inventory with
  | None => Throw (Error "Inventory not loaded")
  | Some inventory =>
      match ranges type with
      | Missing => Throw (Error ("Unknown type: " +:+ type))
      | range =>
          let used := used_vmids inventory in
          let found :=
            match range with
            | Own lo hi => first_unused used lo hi
            | _ => None
            end in
          match found with
          | Some id => Return id
          | None => Throw (Error ("No available vmid for type " +:+ type))
          end
      end
  end.

End Earlier.

(** ** Packer: waiting for the ISO ([ensureIsoOnProxmox]) *)

(** The [while (!isPresent && retries < 24)] loop: [checkForIso] gives
    the outcome of each call of [proxmox.checkForIso] by its rank,
    [calls] counts the calls made, [left] the retries left. *)
Fixpoint ensureIso_poll (checkForIso : nat -> result bool) (calls left : nat)
  : result unit * nat :=
  match left with
  | O => (Return tt, calls)
  | S left' =>
      match checkForIso calls with
      | Throw e => (Throw e, S calls)
      | Return true => (Return tt, S calls)
      | Return false => ensureIso_poll checkForIso (S calls) left'
      end
  end.

(** The outcome, with the number of calls of [checkForIso] and of
    [downloadIso] made. What [downloadIso] returns is not looked at. *)
Definition ensureIsoOnProxmox (checkForIso : nat -> result bool)
  (downloadIso : result bool) : result unit * (nat * nat) :=
  match checkForIso 0%nat with
  | Throw e => (Throw e, (1%nat, 0%nat))
  | Return true => (Return tt, (1%nat, 0%nat))
  | Return false =>
      match downloadIso with
      | Throw e => (Throw e, (1%nat, 1%nat))
      | Return _ =>
          let '(r, calls) := ensureIso_poll checkForIso 1 24 in (r, (calls, 1%nat))
      end
  end.

(** An id is carried by a committed host. *)
Definition host_vmid_taken (inventory : Inventory) (id : Z) : Prop :=
  exists h, h ∈ default [] (hosts inventory) /\ host_vmid h = id.

(** ** The Bitwarden client ([src/lib/bw.js]) and [populateBitwardenRefs] *)

(** The options of the client as the constructor's schema leaves
    them: [executable] has its default filled in. *)
Record BwOptions : Type := {
  clientId : string;
  clientSecret : string;
  masterpassword : option string;
  executable : string;
  dataDir : option string
}.

(** The client: its options, [this.session] and [this.secrets], the
    last two undefined until [unlock] and [list] set them. *)
Record Bw : Type := {
  bw_options : BwOptions;
  bw_session : option string;
  bw_secrets : option json
}.

(** [spawn(executable, args, { env })]; a variable of the environment
    may be [undefined]. *)
Record Spawn : Type := {
  spawn_executable : string;
  spawn_args : list string;
  spawn_env : list (string * option string)
}.

(** What a child process leaves when it closes: its exit code and
    what it wrote. A process that cannot be started or that is ended
    by a signal is not modelled. *)
Record Exit : Type := {
  exit_code : Z;
  stdout : string;
  stderr : string
}.

(** How a call on the client ends. Its promise resolves or rejects;
    or an exception is thrown in the handler of a [close] event,
    where nothing catches it: the promise is never settled and
    nothing that waits for it runs again; or the run is one this
    model does not describe. *)
Inductive ending (A : Type) : Type :=
| Resolves (a : A)
| Rejects (e : exn)
| Escapes (e : exn)
| Unmodelled.
Arguments Resolves {A} a.
Arguments Rejects {A} e.
Arguments Escapes {A} e.
Arguments Unmodelled {A}.

(** What is computed in the body of an [async] function: an
    exception there rejects its promise. *)
Definition awaited {A : Type} (r : resolved A) : ending A :=
  match r with
  | Done a => Resolves a
  | Raised e => Rejects e
  | Beyond => Unmodelled
  end.

(** A method of the client: it reads and updates the client and the
    list of the processes started so far. *)
Definition act (A : Type) : Type := Bw * list Spawn -> ending A * (Bw * list Spawn).

(** [await]: what follows runs when the promise resolves. *)
Definition act_bind {A B : Type} (m : act A) (k : A -> act B) : act B :=
  fun s =>
    match m s with
    | (Resolves a, s') => k a s'
    | (Rejects e, s') => (Rejects e, s')
    | (Escapes e, s') => (Escapes e, s')
    | (Unmodelled, s') => (Unmodelled, s')
    end.

Definition act_ret {A : Type} (a : A) : act A := fun s => (Resolves a, s).

Notation "x <<- m ;; k" := (act_bind m (fun x => k))
  (at level 100, m at next level, right associativity).

(** [JSON.parse] results that [!this.secrets] takes for missing. *)
Definition falsy (j : json) : bool :=
  match j with
  | JNull | JBool false | JNumber 0 | JString EmptyString => true
  | _ => false
  end.

Section Bitwarden.

(** The processes: what the [n]-th process started leaves, given how
    it was started. *)
Variable spawn : nat -> Spawn -> Exit.

Definition run_child (args : list string) (env : Bw -> list (string * option string))
  : act Exit :=
  fun '(bw, started) =>
    let call := {| spawn_executable := executable (bw_options bw);
                   spawn_args := args;
                   spawn_env := env bw |} in
    (Resolves (spawn (List.length started) call), (bw, (started ++ [call])%list)).

Definition failed (what : string) (x : Exit) : exn :=
  Error ("bw " +:+ what +:+ " failed with code " +:+ toString 10 (exit_code x)
         +:+ ": " +:+ trim (stderr x)).

Definition data_dir (bw : Bw) : option string :=
  Some (default "" (dataDir (bw_options bw))).

Definition logout : act string :=
  x <<- run_child ["logout"]
          (fun bw => [("BW_SESSION", bw_session bw); ("BW_DATA_DIR", data_dir bw)]) ;;
  fun s =>
    if exit_code x =? 0 then (Resolves (trim (stdout x)), s)
    else (Rejects (failed "logout" x), s).

Definition login : act string :=
  x <<- run_child ["login"; "--apikey"]
          (fun bw => [("BW_DATA_DIR", data_dir bw);
                      ("BW_CLIENTID", Some (clientId (bw_options bw)));
                      ("BW_CLIENTSECRET", Some (clientSecret (bw_options bw)))]) ;;
  fun s =>
    if (exit_code x =? 0) || (exit_code x =? 1) then (Resolves (trim (stdout x)), s)
    else (Rejects (failed "login" x), s).

Definition lock : act string :=
  x <<- run_child ["lock"]
          (fun bw => [("BW_DATA_DIR", data_dir bw); ("BW_SESSION", bw_session bw)]) ;;
  fun s =>
    if (exit_code x =? 0) || (exit_code x =? 1) then (Resolves (trim (stdout x)), s)
    else (Rejects (failed "lock" x), s).

Definition unlock : act string :=
  x <<- run_child ["unlock"; "--passwordenv"; "BW_PASSWORD"; "--raw"]
          (fun bw => [("BW_DATA_DIR", data_dir bw);
                      ("BW_CLIENTID", Some (clientId (bw_options bw)));
                      ("BW_CLIENTSECRET", Some (clientSecret (bw_options bw)));
                      ("BW_PASSWORD", Some (default "" (masterpassword (bw_options bw))))]) ;;
  fun '(bw, started) =>
    if (exit_code x =? 0) || (exit_code x =? 1)
    then (Resolves (trim (stdout x)),
          ({| bw_options := bw_options bw;
              bw_session := Some (trim (stdout x));
              bw_secrets := bw_secrets bw |}, started))
    else (Rejects (failed "unlock" x), (bw, started)).

(** [list]. [JSON.parse] runs in the handler of the [close] event,
    before [resolve]: when the output of the process is no JSON text
    the SyntaxError is thrown there, outside the promise. *)
Definition list_items : act json :=
  x <<- run_child ["list"; "items"]
          (fun bw => [("BW_DATA_DIR", data_dir bw); ("BW_SESSION", bw_session bw)]) ;;
  fun '(bw, started) =>
    if (exit_code x =? 0) && negb (String.eqb (trim (stdout x)) "")
    then
      match JSON_parse (trim (stdout x)) with
      | Done j =>
          (Resolves j, ({| bw_options := bw_options bw;
                           bw_session := bw_session bw;
                           bw_secrets := Some j |}, started))
      | Raised e => (Escapes e, (bw, started))
      | Beyond => (Unmodelled, (bw, started))
      end
    else (Rejects (failed "list" x), (bw, started)).

(** [fill] on the client. The loop looks at [this.secrets] in each
    turn; after the first turn they are an array, which is never
    taken for missing, so the first turn decides: secrets that
    are missing are listed once more, and [find] on anything that is
    no array is a TypeError. Without a reference the secrets are not
    looked at. *)
Definition Bw_fill (config : json) : act json :=
  fun s =>
    let strConfig := stringify config in
    let bwMatches := match_all (String dquote "bw:") not_dquote dquote strConfig in
    match bwMatches with
    | [] => (awaited (JSON_parse strConfig), s)
    | _ :: _ =>
        let listed :=
          match bw_secrets (fst s) with
          | Some j => if falsy j then list_items s else (Resolves j, s)
          | None => list_items s
          end in
        match listed with
        | (Resolves _, s') =>
            match bw_secrets (fst s') with
            | Some (JArray items) => (awaited (fill items config), s')
            | _ => (Rejects TypeError, s')
            end
        | (Rejects e, s') => (Rejects e, s')
        | (Escapes e, s') => (Escapes e, s')
        | (Unmodelled, s') => (Unmodelled, s')
        end
    end.

(** [populateBitwardenRefs]: [bwAuth] is what the constructor makes
    of the credentials, the validated options or the error it throws.
    The outcome comes with the processes started, in order. The
    [catch] block runs for what the [try] block rejects with; an
    exception that escapes in a [close] handler does not reach it. *)
Definition populateBitwardenRefs (config inventory : json) (bwAuth : result BwOptions)
  : ending (json * json) * list Spawn :=
  match bwAuth with
  | Throw e => (Rejects e, [])
  | Return o =>
      let bw := {| bw_options := o; bw_session := None; bw_secrets := None |} in
      let body :=
        _ <<- login ;;
        _ <<- unlock ;;
        _ <<- list_items ;;
        inventory' <<- Bw_fill inventory ;;
        config' <<- Bw_fill config ;;
        _ <<- lock ;;
        _ <<- logout ;;
        act_ret (config', inventory') in
      match body (bw, []) with
      | (Resolves r, (_, started)) => (Resolves r, started)
      | (Rejects err, s) =>
          let '(_, (_, started)) := (_ <<- lock ;; logout) s in
          (Rejects err, started)
      | (Escapes err, (_, started)) => (Escapes err, started)
      | (Unmodelled, (_, started)) => (Unmodelled, started)
      end
  end.

(** What one method does: it starts one process with the given
    arguments and rejects with the failure of that process only; a
    method that parses the output ([parses]) lets the error of
    [JSON.parse] escape when the process exits with 0. *)
Definition one_process {A : Type} (m : act A) (args : list string) (parses : bool)
  : Prop :=
  forall bw started, exists call r bw',
    m (bw, started) = (r, (bw', (started ++ [call])%list)) /\
    spawn_args call = args /\
    bw_options bw' = bw_options bw /\
    let x := spawn (List.length started) call in
    match r with
    | Resolves _ => True
    | Rejects e => exists what, e = failed what x
    | Escapes e =>
        parses = true /\ exit_code x = 0 /\ JSON_parse (trim (stdout x)) = Raised e
    | Unmodelled =>
        parses = true /\ exit_code x = 0 /\ JSON_parse (trim (stdout x)) = Beyond
    end.

(** What a run of [fill] on the client starts and how it ends. *)
Definition fill_ending (config : json) (started calls : list Spawn) (r : ending json)
  : Prop :=
  match r with
  | Resolves _ => True
  | Rejects e =>
      e = TypeError \/ e = SyntaxError \/
      exists call what,
        calls = [call] /\ e = failed what (spawn (List.length started) call)
  | Escapes e =>
      exists call,
        calls = [call] /\ exit_code (spawn (List.length started) call) = 0 /\
        JSON_parse (trim (stdout (spawn (List.length started) call))) = Raised e
  | Unmodelled =>
      (exists call,
         calls = [call] /\ exit_code (spawn (List.length started) call) = 0 /\
         JSON_parse (trim (stdout (spawn (List.length started) call))) = Beyond) \/
      JSON_parse (stringify config) = Beyond \/
      exists items, fill items config = Beyond
  end.

End Bitwarden.

(** A vault whose [list items] prints a notice instead of JSON text
    and exits with 0; the other commands go through. *)
Definition spawn_notice (n : nat) (call : Spawn) : Exit :=
  if decide (spawn_args call = ["list"; "items"])
  then {| exit_code := 0; stdout := "Syncing vault, try again."; stderr := "" |}
  else {| exit_code := 0; stdout := "ok"; stderr := "" |}.

Definition sample_options : BwOptions :=
  {| clientId := "user.1"; clientSecret := "s3cret"; masterpassword := Some "pw";
     executable := "bw"; dataDir := None |}.

(** The error is one of the failures of a process started among the
    first [n]. *)
Definition process_failure (spawn : nat -> Spawn -> Exit) (started : list Spawn)
  (n : nat) (e : exn) : Prop :=
  exists k call what,
    (k < n)%nat /\ started !! k = Some call /\ e = failed what (spawn k call).

(** What [populateBitwardenRefs] has started when it ends, once the
    client is built. *)
Definition session_ending (spawn : nat -> Spawn -> Exit) (config inventory : json)
  (r : ending (json * json)) (started : list Spawn) : Prop :=
  let commands := spawn_args <$> started in
  match r with
  | Resolves _ =>
      exists again,
        commands = ([ ["login"; "--apikey"];
                      ["unlock"; "--passwordenv"; "BW_PASSWORD"; "--raw"];
                      ["list"; "items"] ] ++ again ++ [ ["lock"]; ["logout"] ])%list /\
        Forall (fun args => args = ["list"; "items"]) again
  | Rejects err =>
      exists before,
        (commands = (before ++ [["lock"]])%list \/
         commands = (before ++ [["lock"]; ["logout"]])%list) /\
        hd_error before = Some ["login"; "--apikey"] /\
        (err = TypeError \/ err = SyntaxError \/
         process_failure spawn started (List.length before) err)
  | Escapes err =>
      err = SyntaxError /\
      exists before call again,
        started = (before ++ [call])%list /\
        spawn_args <$> before =
          ([ ["login"; "--apikey"];
             ["unlock"; "--passwordenv"; "BW_PASSWORD"; "--raw"] ] ++ again)%list /\
        Forall (fun args => args = ["list"; "items"]) again /\
        spawn_args call = ["list"; "items"] /\
        exit_code (spawn (List.length before) call) = 0 /\
        JSON_parse (trim (stdout (spawn (List.length before) call))) = Raised SyntaxError
  | Unmodelled =>
      (exists before call,
         started = (before ++ [call])%list /\
         spawn_args call = ["list"; "items"] /\
         exit_code (spawn (List.length before) call) = 0 /\
         JSON_parse (trim (stdout (spawn (List.length before) call))) = Beyond) \/
      JSON_parse (stringify inventory) = Beyond \/
      JSON_parse (stringify config) = Beyond \/
      (exists items, fill items inventory = Beyond) \/
      (exists items, fill items config = Beyond)
  end.

(** The outcome is no error, or a SyntaxError. *)
Definition only_syntax {A : Type} (r : resolved A) : Prop :=
  forall e, r = Raised e -> e = SyntaxError.

(** ** Terraform: variables ([setVariables], [src/lib/terraform.js]) *)

(** [(typeof value === 'string') ? value : JSON.stringify(value)] *)
Definition variable_text (value : json) : string :=
  match value with
  | JString s => s
  | _ => stringify value
  end.

(** [setVariables(env)]: the entries of [this.config.variables] are
    written into [env], one after the other. *)
Definition setVariables (variables : list (string * json)) (env : gmap string string)
  : gmap string string :=
  foldl (fun env kv => <["TF_VAR_" +:+ fst kv := variable_text (snd kv)]> env) env variables.

(** * Properties *)

(** ** The range scan *)

Lemma scan_Some (used : gset Z) (n : nat) (id x : Z) :
  scan used id n = Some x <->
  id <= x < id + Z.of_nat n /\ (x ∉ used) /\ forall j, id <= j < x -> j ∈ used.
Proof.
  revert id. induction n as [|n IH]; intros id; simpl.
  - split; [discriminate | lia].
  - destruct (decide (id ∈ used)) as [Hin | Hout].
    + rewrite IH. split.
      * intros (Hr & Hx & Hlow). split; [lia |]. split; [done |].
        intros j Hj. destruct (decide (j = id)) as [-> | ?]; [done | apply Hlow; lia].
      * intros (Hr & Hx & Hlow).
        assert (x <> id) by (intros ->; done).
        split; [lia |]. split; [done | intros j Hj; apply Hlow; lia].
    + split.
      * intros [= <-]. split; [lia |]. split; [done | lia].
      * intros (Hr & Hx & Hlow). f_equal.
        destruct (decide (id = x)) as [? | ?]; [done |].
        exfalso. apply Hout, Hlow. lia.
Qed.

Lemma scan_None (used : gset Z) (n : nat) (id : Z) :
  scan used id n = None <-> forall j, id <= j < id + Z.of_nat n -> j ∈ used.
Proof.
  revert id. induction n as [|n IH]; intros id; simpl.
  - split; [lia | done].
  - destruct (decide (id ∈ used)) as [Hin | Hout].
    + rewrite IH. split.
      * intros H j Hj. destruct (decide (j = id)) as [-> | ?]; [done | apply H; lia].
      * intros H j Hj. apply H. lia.
    + split; [discriminate |]. intros H. exfalso. apply Hout, H. lia.
Qed.

Lemma first_unused_Some (used : gset Z) (lo hi x : Z) :
  first_unused used lo hi = Some x <->
  lo <= x <= hi /\ (x ∉ used) /\ forall j, lo <= j < x -> j ∈ used.
Proof.
  unfold first_unused. rewrite scan_Some.
  split; intros (Hr & Hx & Hlow); (split; [lia |]; split; done).
Qed.

Lemma first_unused_None (used : gset Z) (lo hi : Z) :
  first_unused used lo hi = None <-> forall j, lo <= j <= hi -> j ∈ used.
Proof.
  unfold first_unused. rewrite scan_None.
  split; intros H j Hj; apply H; lia.
Qed.

(** ** VM ids *)

Lemma used_vmids_taken (inventory : Inventory) (r : Reserved) (id : Z) :
  reserved inventory = Some r ->
  id ∈ used_vmids inventory r <-> vmid_taken inventory id.
Proof.
  intros Hr. unfold used_vmids, vmid_taken.
  rewrite elem_of_union, !elem_of_list_to_set, !list_elem_of_fmap.
  split.
  - intros [(t & -> & Ht) | (v & -> & Hv)]; [left | right]; eauto.
  - intros [(t & Ht & <-) | (r' & v & Hr' & Hv & <-)]; [left | right]; eauto.
    rewrite Hr in Hr'. injection Hr' as <-. eauto.
Qed.

Lemma ranges_table (type : string) (lo hi : Z) :
  (type, (lo, hi)) ∈ vmid_ranges -> ranges type = Own lo hi.
Proof.
  unfold vmid_ranges. rewrite !elem_of_cons, elem_of_nil.
  intros [H | [H | [H | [H | []]]]]; injection H as -> -> ->; reflexivity.
Qed.

Lemma getNextVmId_own (type : string) (lo hi : Z) (inventory : Inventory) (r : Reserved) :
  ranges type = Own lo hi ->
  reserved inventory = Some r ->
  getNextVmId type inventory =
    match first_unused (used_vmids inventory r) lo hi with
    | Some id => Return id
    | None => Throw (Error ("No available vmid for type " ++ type))
    end.
Proof. intros Hty Hr. unfold getNextVmId. rewrite Hty, Hr. reflexivity. Qed.

(** C2. For a schema-valid inventory and each of the four types,
    [getNextVmId] returns the smallest id of the type's range that no
    template and no reservation carries, and throws "No available
    vmid" exactly when the whole range is taken; with templates
    [[{vmid: 300}]], no reserved vmids and type [vm] it returns 100. *)
Theorem getNextVmId_smallest_unused
  (type : string) (lo hi : Z) (inventory : Inventory) :
  (type, (lo, hi)) ∈ vmid_ranges ->
  schema_valid inventory ->
  match getNextVmId type inventory with
  | Return id =>
      lo <= id <= hi /\ ~ vmid_taken inventory id /\
      forall j, lo <= j < id -> vmid_taken inventory j
  | Throw e =>
      e = Error ("No available vmid for type " ++ type) /\
      forall j, lo <= j <= hi -> vmid_taken inventory j
  end /\
  (type = "vm" ->
   template_vmid <$> templates inventory = [300] ->
   (forall r, reserved inventory = Some r -> vmids r = []) ->
   getNextVmId type inventory = Return 100).
Proof.
  intros Hty [_ [r Hr]]. apply ranges_table in Hty as Hown.
  rewrite (getNextVmId_own _ _ _ _ _ Hown Hr). split.
  - destruct (first_unused _ lo hi) as [id|] eqn:Hscan.
    + apply first_unused_Some in Hscan as (Hrange & Hfree & Hlow).
      split; [done |]. split; [by rewrite <- used_vmids_taken |].
      intros j Hj. rewrite <- used_vmids_taken by done. by apply Hlow.
    + split; [done |]. intros j Hj. rewrite <- used_vmids_taken by done.
      by apply (proj1 (first_unused_None _ _ _) Hscan).
  - intros -> Htpl Hres. injection Hown as <- <-.
    unfold used_vmids. rewrite Htpl, (Hres r Hr). reflexivity.
Qed.

Lemma getNextVmId_smallest_unused_witness :
  ("vm", (100, 199)) ∈ vmid_ranges /\ schema_valid inventory_B /\
  getNextVmId "vm" inventory_B = Return 100.
Proof.
  assert (Hin : ("vm", (100, 199)) ∈ vmid_ranges).
  { unfold vmid_ranges. apply list_elem_of_In. simpl. auto. }
  assert (Hvalid : schema_valid inventory_B).
  { split; [reflexivity | eexists; reflexivity]. }
  split_and!; [exact Hin | exact Hvalid |].
  refine (proj2 (getNextVmId_smallest_unused "vm" 100 199 inventory_B Hin Hvalid) _ _ _).
  - reflexivity.
  - reflexivity.
  - intros r [= <-]. reflexivity.
Defined.

(** ** The reservation ledger *)

Lemma init_reserved_Some (inventory : Inventory) (r : Reserved) :
  reserved inventory = Some r -> init_reserved inventory = inventory.
Proof. unfold init_reserved. by intros ->. Qed.

Lemma init_reserved_None (inventory : Inventory) :
  reserved inventory = None ->
  init_reserved inventory = set_reserved (Some empty_reserved) inventory.
Proof. unfold init_reserved. by intros ->. Qed.

Lemma init_reserved_idemp (inventory : Inventory) :
  init_reserved (init_reserved inventory) = init_reserved inventory.
Proof.
  unfold init_reserved. destruct (reserved inventory) eqn:E; simpl; [by rewrite E | done].
Qed.

Lemma reserved_init (inventory : Inventory) :
  reserved (init_reserved inventory) = Some (default empty_reserved (reserved inventory)).
Proof. unfold init_reserved. by destruct (reserved inventory) eqn:E. Qed.

Lemma bound_to_none {A : Type} (key : A -> string) (refId : string) (l : list A) :
  Forall (fun x => key x <> refId) l -> bound_to key refId l = [].
Proof.
  unfold bound_to. induction 1 as [|x l Hx _ IH]; [done |].
  by rewrite filter_cons_False.
Qed.

Lemma bound_to_head {A : Type} (key : A -> string) (refId : string) (l : list A)
  (i : nat) (x : A) :
  list_find (fun x => key x = refId) l = Some (i, x) ->
  exists rest, bound_to key refId l = x :: rest.
Proof.
  intros (Hi & Hx & Hbefore)%list_find_Some.
  rewrite <- (take_drop_middle l i x Hi). unfold bound_to.
  rewrite filter_app, filter_cons_True by done.
  assert (filter (fun x => key x = refId) (take i l) = []) as ->; [| by eexists].
  apply (bound_to_none key refId), Forall_lookup. intros j y Hj.
  apply lookup_take_Some in Hj as [Hj Hlt]. by apply (Hbefore j y).
Qed.

Lemma bound_to_absent {A : Type} (key : A -> string) (refId : string) (l : list A) :
  list_find (fun x => key x = refId) l = None -> bound_to key refId l = [].
Proof. intros Hnone. by apply bound_to_none, (proj1 (list_find_None _ _)). Qed.

Lemma bound_to_single {A : Type} (key : A -> string) (refId : string) (l : list A)
  (i : nat) (x : A) :
  (length (bound_to key refId l) <= 1)%nat ->
  list_find (fun x => key x = refId) l = Some (i, x) ->
  bound_to key refId l = [x].
Proof.
  intros Hlen (Hi & Hx & _)%list_find_Some.
  assert (Hin : x ∈ bound_to key refId l).
  { apply list_elem_of_filter. split; [done | by eapply list_elem_of_lookup_2]. }
  destruct (bound_to key refId l) as [|y [|z rest]]; simpl in Hlen.
  - by apply elem_of_nil in Hin.
  - by apply list_elem_of_singleton in Hin as ->.
  - lia.
Qed.

Lemma bound_to_fresh {A : Type} (key : A -> string) (refId : string) (l : list A) (x : A) :
  list_find (fun x => key x = refId) l = None ->
  key x = refId ->
  bound_to key refId (l ++ [x]) = [x].
Proof.
  intros Hnone%list_find_None Hx.
  pose proof (bound_to_none key refId l Hnone) as Hl.
  unfold bound_to in *. rewrite filter_app, Hl. simpl.
  by rewrite filter_cons_True.
Qed.

Lemma NoDup_bound_to {A : Type} (key : A -> string) (refId : string) (l : list A) :
  NoDup (key <$> l) -> (length (bound_to key refId l) <= 1)%nat.
Proof.
  unfold bound_to. induction l as [|x l IH]; simpl; [lia |].
  intros [Hx Hl]%NoDup_cons. specialize (IH Hl).
  destruct (decide (key x = refId)) as [Heq | Hne].
  - rewrite filter_cons_True by done. simpl.
    enough (filter (fun x => key x = refId) l = []) as -> by (simpl; lia).
    apply (bound_to_none key refId), Forall_forall. intros y Hy Hkey.
    apply Hx, list_elem_of_fmap. exists y. split; [congruence | done].
  - by rewrite filter_cons_False.
Qed.

Lemma reserveVmId_bound (type : string) (inventory : Inventory) (r : Reserved)
  (refId : string) (i : nat) (existing : ReservedVmid) :
  reserved inventory = Some r ->
  list_find (fun v => vmid_refId v = refId) (vmids r) = Some (i, existing) ->
  reserveVmId type inventory refId = (Return (vmid existing), inventory).
Proof.
  intros Hr Hfind. unfold reserveVmId.
  rewrite (init_reserved_Some _ _ Hr), Hr, Hfind. reflexivity.
Qed.

Lemma reserveIpAddress_bound (networkName : string) (inventory : Inventory) (r : Reserved)
  (refId : string) (i : nat) (existing : ReservedIp) :
  reserved inventory = Some r ->
  list_find (fun e => ip_refId e = refId) (ips r) = Some (i, existing) ->
  reserveIpAddress networkName inventory refId = (Return (ip existing), inventory).
Proof.
  intros Hr Hfind. unfold reserveIpAddress.
  rewrite (init_reserved_Some _ _ Hr), Hr, Hfind. reflexivity.
Qed.

(** What a successful reservation leaves behind: either [refId] was
    bound and nothing changed, or one entry was appended. *)
Lemma reserveVmId_returns (type : string) (inventory inventory' : Inventory)
  (refId : string) (id : Z) :
  reserveVmId type inventory refId = (Return id, inventory') ->
  let r := default empty_reserved (reserved inventory) in
  (exists i existing,
      list_find (fun v => vmid_refId v = refId) (vmids r) = Some (i, existing) /\
      vmid existing = id /\ inventory' = init_reserved inventory) \/
  (list_find (fun v => vmid_refId v = refId) (vmids r) = None /\
   getNextVmId type (init_reserved inventory) = Return id /\
   inventory' =
     set_reserved (Some (set_vmids (vmids r ++ [ {| vmid := id; vmid_refId := refId |} ]) r))
       (init_reserved inventory)).
Proof.
  unfold reserveVmId. rewrite reserved_init. simpl.
  destruct (list_find _ _) as [[i existing]|] eqn:Hfind.
  - intros [= <- <-]. left. eauto.
  - destruct (getNextVmId _ _) as [id'|e]; intros [= <- <-]. by right.
Qed.

Lemma reserveIpAddress_returns (networkName : string) (inventory inventory' : Inventory)
  (refId : string) (a : string) :
  reserveIpAddress networkName inventory refId = (Return a, inventory') ->
  let r := default empty_reserved (reserved inventory) in
  (exists i existing,
      list_find (fun e => ip_refId e = refId) (ips r) = Some (i, existing) /\
      ip existing = a /\ inventory' = init_reserved inventory) \/
  (list_find (fun e => ip_refId e = refId) (ips r) = None /\
   getNextIpAddress networkName (init_reserved inventory) = Return a /\
   inventory' =
     set_reserved (Some (set_ips (ips r ++ [ {| ip := a; ip_refId := refId |} ]) r))
       (init_reserved inventory)).
Proof.
  unfold reserveIpAddress. rewrite reserved_init. simpl.
  destruct (list_find _ _) as [[i existing]|] eqn:Hfind.
  - intros [= <- <-]. left. eauto.
  - destruct (getNextIpAddress _ _) as [a'|e]; intros [= <- <-]. by right.
Qed.

Lemma reserveVmId_throws (type : string) (inventory inventory' : Inventory)
  (refId : string) (e : exn) :
  reserveVmId type inventory refId = (Throw e, inventory') ->
  let r := default empty_reserved (reserved inventory) in
  list_find (fun v => vmid_refId v = refId) (vmids r) = None /\
  getNextVmId type (init_reserved inventory) = Throw e /\
  inventory' = init_reserved inventory.
Proof.
  unfold reserveVmId. rewrite reserved_init. simpl.
  destruct (list_find _ _) as [[i existing]|] eqn:Hfind; [discriminate |].
  destruct (getNextVmId _ _) as [id'|e']; intros [= <- <-]. done.
Qed.

Lemma reserveIpAddress_throws (networkName : string) (inventory inventory' : Inventory)
  (refId : string) (e : exn) :
  reserveIpAddress networkName inventory refId = (Throw e, inventory') ->
  let r := default empty_reserved (reserved inventory) in
  list_find (fun i => ip_refId i = refId) (ips r) = None /\
  getNextIpAddress networkName (init_reserved inventory) = Throw e /\
  inventory' = init_reserved inventory.
Proof.
  unfold reserveIpAddress. rewrite reserved_init. simpl.
  destruct (list_find _ _) as [[i existing]|] eqn:Hfind; [discriminate |].
  destruct (getNextIpAddress _ _) as [a'|e']; intros [= <- <-]. done.
Qed.

(** C3. Reserving is idempotent in the [refId]. A second call of
    [reserveVmId] (resp. [reserveIpAddress]) with the same [refId]
    ends as the first call did, with the value it returned, and
    leaves the inventory as the first call left it; once a value is
    bound, every later call for the [refId] returns it, whatever type
    (resp. network) the call names. The value returned is the one the
    ledger bound to the [refId], or the next free one when it bound
    none. On a ledger that held at most one entry for the [refId], as
    the invariant of the data model has it, the list then holds
    exactly one entry for the [refId], binding it to the value
    returned. A call throws only for a [refId] that is not bound and
    with the error of the allocator; it binds nothing, and the second
    call throws the same error. Each list needs the invariant of its
    own entries only. *)
Theorem reserve_idempotent
  (type networkName : string) (inventory : Inventory) (refId : string) :
  (let '(r1, inventory1) := reserveVmId type inventory refId in
   reserveVmId type inventory1 refId = (r1, inventory1) /\
   match r1 with
   | Return id =>
       match vmid_entries refId inventory with
       | first :: _ => id = vmid first
       | [] => getNextVmId type (init_reserved inventory) = Return id
       end /\
       (forall type', reserveVmId type' inventory1 refId = (Return id, inventory1)) /\
       ((length (vmid_entries refId inventory) <= 1)%nat ->
        vmid_entries refId inventory1 = [ {| vmid := id; vmid_refId := refId |} ])
   | Throw e =>
       vmid_entries refId inventory = [] /\
       getNextVmId type (init_reserved inventory) = Throw e /\
       vmid_entries refId inventory1 = []
   end) /\
  (let '(r1, inventory1) := reserveIpAddress networkName inventory refId in
   reserveIpAddress networkName inventory1 refId = (r1, inventory1) /\
   match r1 with
   | Return a =>
       match ip_entries refId inventory with
       | first :: _ => a = ip first
       | [] => getNextIpAddress networkName (init_reserved inventory) = Return a
       end /\
       (forall networkName',
           reserveIpAddress networkName' inventory1 refId = (Return a, inventory1)) /\
       ((length (ip_entries refId inventory) <= 1)%nat ->
        ip_entries refId inventory1 = [ {| ip := a; ip_refId := refId |} ])
   | Throw e =>
       ip_entries refId inventory = [] /\
       getNextIpAddress networkName (init_reserved inventory) = Throw e /\
       ip_entries refId inventory1 = []
   end).
Proof.
  pose proof (reserved_init inventory) as Hr. split.
  - destruct (reserveVmId type inventory refId) as [[id|e] inventory1] eqn:Hcall.
    + apply reserveVmId_returns in Hcall as
        [(i & existing & Hfind & <- & ->) | (Hfind & Hnext & ->)].
      * assert (Hagain : forall type',
          reserveVmId type' (init_reserved inventory) refId
            = (Return (vmid existing), init_reserved inventory))
          by (intros type'; by eapply reserveVmId_bound).
        split; [apply Hagain |]. split.
        { destruct (bound_to_head vmid_refId refId _ _ _ Hfind) as [rest Hhead].
          unfold vmid_entries. by rewrite Hhead. }
        split; [apply Hagain |]. intros Hv.
        unfold vmid_entries in *. rewrite Hr. simpl.
        rewrite (bound_to_single _ _ _ _ _ Hv Hfind).
        apply list_find_Some in Hfind as (_ & <- & _). by destruct existing.
      * set (entry := {| vmid := id; vmid_refId := refId |}).
        set (r := default empty_reserved (reserved inventory)) in *.
        assert (Hfind' : list_find (fun v => vmid_refId v = refId) (vmids r ++ [entry])
                         = Some (length (vmids r), entry)).
        { apply list_find_app_Some. right. split; [lia |]. split; [done |].
          rewrite Nat.sub_diag. simpl. by rewrite decide_True. }
        assert (Hagain : forall type',
          reserveVmId type'
            (set_reserved (Some (set_vmids (vmids r ++ [entry]) r)) (init_reserved inventory))
            refId
            = (Return id,
               set_reserved (Some (set_vmids (vmids r ++ [entry]) r))
                 (init_reserved inventory)))
          by (intros type'; by eapply (reserveVmId_bound _ _ _ _ _ entry)).
        split; [apply Hagain |]. split.
        { unfold vmid_entries. fold r. by rewrite (bound_to_absent _ _ _ Hfind). }
        split; [apply Hagain |]. intros _.
        unfold vmid_entries. simpl. by apply bound_to_fresh.
    + apply reserveVmId_throws in Hcall as (Hfind & Hnext & ->). split.
      * unfold reserveVmId. rewrite init_reserved_idemp, Hr. cbv zeta.
        by rewrite Hfind, Hnext.
      * split; [by apply bound_to_absent |]. split; [done |].
        unfold vmid_entries. rewrite Hr. simpl. by apply bound_to_absent.
  - destruct (reserveIpAddress networkName inventory refId) as [[a|e] inventory1] eqn:Hcall.
    + apply reserveIpAddress_returns in Hcall as
        [(i & existing & Hfind & <- & ->) | (Hfind & Hnext & ->)].
      * assert (Hagain : forall networkName',
          reserveIpAddress networkName' (init_reserved inventory) refId
            = (Return (ip existing), init_reserved inventory))
          by (intros networkName'; by eapply reserveIpAddress_bound).
        split; [apply Hagain |]. split.
        { destruct (bound_to_head ip_refId refId _ _ _ Hfind) as [rest Hhead].
          unfold ip_entries. by rewrite Hhead. }
        split; [apply Hagain |]. intros Hi.
        unfold ip_entries in *. rewrite Hr. simpl.
        rewrite (bound_to_single _ _ _ _ _ Hi Hfind).
        apply list_find_Some in Hfind as (_ & <- & _). by destruct existing.
      * set (entry := {| ip := a; ip_refId := refId |}).
        set (r := default empty_reserved (reserved inventory)) in *.
        assert (Hfind' : list_find (fun e => ip_refId e = refId) (ips r ++ [entry])
                         = Some (length (ips r), entry)).
        { apply list_find_app_Some. right. split; [lia |]. split; [done |].
          rewrite Nat.sub_diag. simpl. by rewrite decide_True. }
        assert (Hagain : forall networkName',
          reserveIpAddress networkName'
            (set_reserved (Some (set_ips (ips r ++ [entry]) r)) (init_reserved inventory))
            refId
            = (Return a,
               set_reserved (Some (set_ips (ips r ++ [entry]) r))
                 (init_reserved inventory)))
          by (intros networkName'; by eapply (reserveIpAddress_bound _ _ _ _ _ entry)).
        split; [apply Hagain |]. split.
        { unfold ip_entries. fold r. by rewrite (bound_to_absent _ _ _ Hfind). }
        split; [apply Hagain |]. intros _.
        unfold ip_entries. simpl. by apply bound_to_fresh.
    + apply reserveIpAddress_throws in Hcall as (Hfind & Hnext & ->). split.
      * unfold reserveIpAddress. rewrite init_reserved_idemp, Hr. cbv zeta.
        by rewrite Hfind, Hnext.
      * split; [by apply bound_to_absent |]. split; [done |].
        unfold ip_entries. rewrite Hr. simpl. by apply bound_to_absent.
Qed.

(** Scenario A, run twice for one label: the second call returns 100
    again, also when it asks for another type, and one entry binds the
    label; the address of the label comes back in the same way. *)
Lemma reserve_idempotent_witness :
  let inventory1 := snd (reserveVmId "vm" inventory_A "vm:id:web") in
  let inventory2 := snd (reserveIpAddress "lan" inventory_A "ip:lan:web") in
  (length (vmid_entries "vm:id:web" inventory_A) <= 1)%nat /\
  (length (ip_entries "ip:lan:web" inventory_A) <= 1)%nat /\
  reserveVmId "vm" inventory_A "vm:id:web" = (Return 100, inventory1) /\
  reserveVmId "lxc" inventory1 "vm:id:web" = (Return 100, inventory1) /\
  vmid_entries "vm:id:web" inventory1 = [ {| vmid := 100; vmid_refId := "vm:id:web" |} ] /\
  reserveIpAddress "lan" inventory_A "ip:lan:web" = (Return "10.0.0.2", inventory2) /\
  reserveIpAddress "lan" inventory2 "ip:lan:web" = (Return "10.0.0.2", inventory2) /\
  ip_entries "ip:lan:web" inventory2 = [ {| ip := "10.0.0.2"; ip_refId := "ip:lan:web" |} ].
Proof.
  intros inventory1 inventory2.
  assert (H1 : (length (vmid_entries "vm:id:web" inventory_A) <= 1)%nat)
    by (vm_compute; lia).
  assert (H2 : (length (ip_entries "ip:lan:web" inventory_A) <= 1)%nat)
    by (vm_compute; lia).
  assert (E1 : reserveVmId "vm" inventory_A "vm:id:web" = (Return 100, inventory1))
    by reflexivity.
  assert (E2 : reserveIpAddress "lan" inventory_A "ip:lan:web"
               = (Return "10.0.0.2", inventory2)) by reflexivity.
  pose proof (proj1 (reserve_idempotent "vm" "lan" inventory_A "vm:id:web")) as Hv.
  pose proof (proj2 (reserve_idempotent "vm" "lan" inventory_A "ip:lan:web")) as Hi.
  destruct Hv as (_ & _ & Hv & Hventry). destruct Hi as (Hi & _ & _ & Hientry).
  split; [exact H1 |]. split; [exact H2 |]. split; [exact E1 |].
  split; [exact (Hv "lxc") |]. split; [exact (Hventry H1) |].
  split; [exact E2 |]. split; [exact Hi |]. exact (Hientry H2).
Defined.

(** *** Releasing *)

Lemma releaseVmId_bound (inventory : Inventory) (r : Reserved) (refId : string)
  (index : nat) (v : ReservedVmid) :
  reserved inventory = Some r ->
  list_find (fun v => vmid_refId v = refId) (vmids r) = Some (index, v) ->
  releaseVmId inventory refId =
    (Return (Some (vmid v)),
     set_reserved (Some (set_vmids (delete index (vmids r)) r)) inventory).
Proof.
  intros Hr Hfind. unfold releaseVmId. rewrite Hr, Hfind.
  destruct (decide _) as [Hnil | _]; [| done].
  apply list_find_Some in Hfind as (Hi%lookup_lt_Some & _). lia.
Qed.

Lemma releaseIpAddress_bound (inventory : Inventory) (r : Reserved) (refId : string)
  (index : nat) (e : ReservedIp) :
  reserved inventory = Some r ->
  list_find (fun e => ip_refId e = refId) (ips r) = Some (index, e) ->
  releaseIpAddress inventory refId =
    (Return (Some (ip e)),
     set_reserved (Some (set_ips (delete index (ips r)) r)) inventory).
Proof. intros Hr Hfind. unfold releaseIpAddress. by rewrite Hr, Hfind. Qed.

(** Releasing from an inventory without [reserved], or a VM id from an
    empty list, does nothing and returns [undefined]. *)
Lemma release_nothing (inventory : Inventory) (refId : string) :
  (reserved inventory = None ->
   releaseVmId inventory refId = (Return None, inventory) /\
   releaseIpAddress inventory refId = (Return None, inventory)) /\
  (forall r, reserved inventory = Some r -> vmids r = [] ->
   releaseVmId inventory refId = (Return None, inventory)).
Proof.
  split.
  - intros Hr. unfold releaseVmId, releaseIpAddress. by rewrite Hr.
  - intros r Hr Hnil. unfold releaseVmId. by rewrite Hr, Hnil.
Qed.

(** An unbound [refId] met with a non-empty list of VM ids, or with any
    list of IPs, makes the release throw: the entry at index -1 is
    read before the index is tested. *)
Lemma release_unbound_throws (inventory : Inventory) (r : Reserved) (refId : string) :
  reserved inventory = Some r ->
  (vmids r <> [] ->
   Forall (fun v => vmid_refId v <> refId) (vmids r) ->
   releaseVmId inventory refId = (Throw TypeError, inventory)) /\
  (Forall (fun e => ip_refId e <> refId) (ips r) ->
   releaseIpAddress inventory refId = (Throw TypeError, inventory)).
Proof.
  intros Hr. split.
  - intros Hne Hall. unfold releaseVmId.
    rewrite Hr, (proj2 (list_find_None _ _) Hall).
    destruct (decide _) as [Hlen | _]; [| done].
    by apply nil_length_inv in Hlen.
  - intros Hall. unfold releaseIpAddress.
    by rewrite Hr, (proj2 (list_find_None _ _) Hall).
Qed.

(** C4. Releasing a [refId] that is not bound is not a no-op when
    the list of VM ids is non-empty, and never for an IP: with
    [vm:id:web] the only reservation, [releaseVmId] of [vm:id:db] and
    [releaseIpAddress] of [ip:lan:db] both throw a [TypeError] instead
    of returning [undefined]; the bound [vm:id:web] is released as
    specified. *)
Theorem release_unbound_refId_throws :
  releaseVmId inventory_web "vm:id:db" = (Throw TypeError, inventory_web) /\
  releaseIpAddress inventory_web "ip:lan:db" = (Throw TypeError, inventory_web) /\
  releaseIpAddress inventory_A "ip:lan:db" = (Throw TypeError, inventory_A) /\
  releaseVmId inventory_web "vm:id:web" = (Return (Some 100), inventory_A).
Proof. repeat split. Qed.

(** ** Two labels, one address *)

(** The IP allocator never reads the ledger. *)
Lemma getNextIpAddress_ignores_reserved (networkName : string) (inventory : Inventory)
  (r : option Reserved) :
  getNextIpAddress networkName (set_reserved r inventory) =
  getNextIpAddress networkName inventory.
Proof. reflexivity. Qed.

Lemma getNextIpAddress_init (networkName : string) (inventory : Inventory) :
  getNextIpAddress networkName (init_reserved inventory) =
  getNextIpAddress networkName inventory.
Proof. unfold init_reserved. by destruct (reserved inventory). Qed.

(** Hence a second label that is not yet bound is given the address
    the first one has just been given. *)
Lemma fresh_labels_share_address (networkName : string) (inventory inventory1 : Inventory)
  (refId1 refId2 a : string) :
  ip_entries refId1 inventory = [] ->
  ip_entries refId2 inventory = [] ->
  refId1 <> refId2 ->
  reserveIpAddress networkName inventory refId1 = (Return a, inventory1) ->
  fst (reserveIpAddress networkName inventory1 refId2) = Return a.
Proof.
  intros H1 H2 Hne Hcall.
  assert (Hnone : forall refId, ip_entries refId inventory = [] ->
            list_find (fun e => ip_refId e = refId)
              (ips (default empty_reserved (reserved inventory))) = None).
  { intros refId H. apply list_find_None, Forall_forall. intros e He Hkey.
    eapply (filter_nil_not_elem_of _ _ e H); done. }
  apply reserveIpAddress_returns in Hcall as
    [(i & existing & Hfind & _) | (_ & Hnext & ->)].
  { rewrite (Hnone _ H1) in Hfind. discriminate. }
  unfold reserveIpAddress. simpl.
  rewrite list_find_app_r by by apply Hnone.
  simpl. rewrite decide_False by done. simpl.
  rewrite getNextIpAddress_init in Hnext.
  change (getNextIpAddress networkName _) with
    (getNextIpAddress networkName (init_reserved inventory)).
  rewrite getNextIpAddress_init, Hnext. reflexivity.
Qed.

(** C1. In scenario A the label [ip:lan:host1] is given 10.0.0.2,
    and the label [ip:lan:host2], reserved next on the same inventory,
    is given 10.0.0.2 again, not 10.0.0.3: the ledger ends with two
    labels bound to one address. *)
Theorem scenario_A_second_label_same_address :
  let first := reserveIpAddress "lan" inventory_A "ip:lan:host1" in
  let second := reserveIpAddress "lan" (snd first) "ip:lan:host2" in
  fst first = Return "10.0.0.2" /\
  fst second = Return "10.0.0.2" /\
  (ips <$> reserved (snd second)) =
    Some [ {| ip := "10.0.0.2"; ip_refId := "ip:lan:host1" |};
           {| ip := "10.0.0.2"; ip_refId := "ip:lan:host2" |} ].
Proof. vm_compute. repeat split. Qed.

(** ** Persisting *)

(** C9. When the stored inventory loads, [updateInventory] returns
    and rewrites that one file with a document whose [reserved] is the
    in-memory one and whose other top-level fields are those of the
    document that was stored; no other file changes. Where the
    written document passes validation, loading the file again yields
    it. *)
Theorem updateInventory_only_reserved
  (validate : string -> option Inventory) (serialize : Inventory -> string)
  (fs : files) (inventoryFile : string) (stored updatedInventory : Inventory) :
  loadInventory validate fs inventoryFile = Some stored ->
  exists written,
    updateInventory validate serialize fs inventoryFile updatedInventory =
      (Return tt, writeFileSync inventoryFile (serialize written) fs) /\
    writeFileSync inventoryFile (serialize written) fs inventoryFile =
      Some (serialize written) /\
    (forall path, path <> inventoryFile ->
       writeFileSync inventoryFile (serialize written) fs path = fs path) /\
    reserved written = reserved updatedInventory /\
    proxmox written = proxmox stored /\
    terraform written = terraform stored /\
    hosts written = hosts stored /\
    templates written = templates stored /\
    networks written = networks stored /\
    (validate (serialize written) = Some written ->
     loadInventory validate (writeFileSync inventoryFile (serialize written) fs)
       inventoryFile = Some written).
Proof.
  intros Hload. exists (set_reserved (reserved updatedInventory) stored).
  unfold updateInventory. rewrite Hload. split; [reflexivity |].
  split; [unfold writeFileSync; by rewrite decide_True |].
  split; [intros path Hne; unfold writeFileSync; by rewrite decide_False |].
  repeat (split; [reflexivity |]).
  intros Hvalid. unfold loadInventory, writeFileSync. by rewrite decide_True.
Qed.

Lemma updateInventory_only_reserved_witness :
  loadInventory sample_validate sample_files "inventory.json" = Some inventory_B /\
  exists written,
    fst (updateInventory sample_validate sample_serialize sample_files
           "inventory.json" inventory_web) = Return tt /\
    reserved written = reserved inventory_web /\
    templates written = templates inventory_B.
Proof.
  assert (Hload : loadInventory sample_validate sample_files "inventory.json"
                  = Some inventory_B) by (vm_compute; reflexivity).
  split; [exact Hload |].
  destruct (updateInventory_only_reserved sample_validate sample_serialize
              sample_files "inventory.json" inventory_B inventory_web Hload)
    as (written & Hrun & _ & _ & Hres & _ & _ & _ & Htpl & _ & _).
  exists written. rewrite Hrun. split; [reflexivity |]. split; [exact Hres | exact Htpl].
Defined.

(** ** The ledger invariant *)

Lemma getNextVmId_unused (type : string) (inventory : Inventory) (r : Reserved) (id : Z) :
  reserved inventory = Some r ->
  getNextVmId type inventory = Return id ->
  id ∉ used_vmids inventory r.
Proof.
  intros Hr. unfold getNextVmId. rewrite Hr.
  destruct (ranges type) as [lo hi | |]; simpl; [| discriminate..].
  destruct (first_unused _ lo hi) as [x|] eqn:Hscan; [| discriminate].
  intros [= <-]. by apply first_unused_Some in Hscan as (_ & ? & _).
Qed.

Lemma reserveVmId_after (type : string) (inventory : Inventory) (refId : string) :
  let r := default empty_reserved (reserved inventory) in
  snd (reserveVmId type inventory refId) = init_reserved inventory \/
  exists id,
    list_find (fun v => vmid_refId v = refId) (vmids r) = None /\
    getNextVmId type (init_reserved inventory) = Return id /\
    snd (reserveVmId type inventory refId) =
      set_reserved (Some (set_vmids (vmids r ++ [ {| vmid := id; vmid_refId := refId |} ]) r))
        (init_reserved inventory).
Proof.
  unfold reserveVmId. rewrite reserved_init. simpl.
  destruct (list_find _ _) as [[i existing]|] eqn:Hfind; [by left |].
  destruct (getNextVmId _ _) as [id|e] eqn:Hnext; [| by left].
  right. by exists id.
Qed.

Lemma reserveIpAddress_after (networkName : string) (inventory : Inventory) (refId : string) :
  let r := default empty_reserved (reserved inventory) in
  snd (reserveIpAddress networkName inventory refId) = init_reserved inventory \/
  exists a,
    list_find (fun e => ip_refId e = refId) (ips r) = None /\
    snd (reserveIpAddress networkName inventory refId) =
      set_reserved (Some (set_ips (ips r ++ [ {| ip := a; ip_refId := refId |} ]) r))
        (init_reserved inventory).
Proof.
  unfold reserveIpAddress. rewrite reserved_init. simpl.
  destruct (list_find _ _) as [[i existing]|] eqn:Hfind; [by left |].
  destruct (getNextIpAddress _ _) as [a|e] eqn:Hnext; [| by left].
  right. by exists a.
Qed.

Lemma NoDup_snoc_fresh {A : Type} (key : A -> string) (l : list A) (x : A) :
  NoDup (key <$> l) ->
  list_find (fun y => key y = key x) l = None ->
  NoDup (key <$> (l ++ [x])%list).
Proof.
  intros Hl Hnone%list_find_None. rewrite fmap_app. apply NoDup_app.
  split; [done |]. split; [| apply NoDup_singleton].
  intros k (y & Hk & Hy)%list_elem_of_fmap Hx%list_elem_of_singleton.
  apply (proj1 (Forall_forall _ _) Hnone y Hy). congruence.
Qed.

Lemma ledger_core_init (inventory : Inventory) :
  ledger_core inventory -> ledger_core (init_reserved inventory).
Proof.
  intros Hcore. unfold init_reserved. destruct (reserved inventory) eqn:Hr; [done |].
  constructor; simpl.
  - intros r v [= <-] Hin. by apply elem_of_nil in Hin.
  - intros r [= <-]. apply NoDup_nil_2.
  - intros r [= <-]. apply NoDup_nil_2.
Qed.

(** Whatever hosts the inventory object carries, and whether it has a
    [reserved] block or not, a reserve call keeps the reserved vmids
    apart from the templates' and the [refId]s of each list distinct. *)
Lemma after_preserves_core (c : call) (inventory : Inventory) :
  ledger_core inventory -> ledger_core (after c inventory).
Proof.
  intros Hcore%ledger_core_init.
  pose proof (reserved_init inventory) as Hr.
  set (r := default empty_reserved (reserved inventory)) in *.
  destruct Hcore as [Hv Hvu Hiu].
  destruct c as [type refId | networkName refId]; simpl.
  - destruct (reserveVmId_after type inventory refId)
      as [-> | (id & Hfind & Hnext & ->)]; [by constructor |].
    fold r in Hfind. fold r. constructor; simpl.
    + intros r' v [= <-]. simpl.
      intros [Hin | ->%list_elem_of_singleton]%elem_of_app; [by eapply Hv |].
      simpl. apply (getNextVmId_unused _ _ _ _ Hr) in Hnext.
      intros Hin. contradict Hnext.
      unfold used_vmids. rewrite elem_of_union, elem_of_list_to_set. by left.
    + intros r' [= <-]. simpl.
      apply (NoDup_snoc_fresh vmid_refId); [by apply Hvu | done].
    + intros r' [= <-]. simpl. by apply Hiu.
  - destruct (reserveIpAddress_after networkName inventory refId)
      as [-> | (a & Hfind & ->)]; [by constructor |].
    fold r in Hfind. fold r. constructor; simpl.
    + intros r' v [= <-]. simpl. by apply Hv.
    + intros r' [= <-]. simpl. by apply Hvu.
    + intros r' [= <-]. simpl.
      apply (NoDup_snoc_fresh ip_refId); [by apply Hiu | done].
Qed.

Lemma reserve_preserves_core (calls : list call) (inventory : Inventory) :
  ledger_core inventory -> ledger_core (after_all calls inventory).
Proof.
  revert inventory. induction calls as [|c calls IH]; intros inventory Hcore; [done |].
  simpl. by apply IH, after_preserves_core.
Qed.

(** The VM-id allocator reads the templates and the ledger and
    nothing else of the inventory: the hosts do not count. *)
Lemma getNextVmId_ignores_hosts (type : string) (inventory inventory' : Inventory) :
  templates inventory = templates inventory' ->
  reserved inventory = reserved inventory' ->
  getNextVmId type inventory = getNextVmId type inventory'.
Proof.
  intros Ht Hr. unfold getNextVmId, used_vmids. by rewrite Ht, Hr.
Qed.


(** ** Strings and numerals *)

Lemma append_cons (c : ascii) (s t : string) : String c s +:+ t = String c (s +:+ t).
Proof. reflexivity. Qed.

Lemma append_empty (s : string) : s +:+ "" = s.
Proof. induction s as [|c s IH]; [done | by rewrite append_cons, IH]. Qed.

Lemma append_assoc (s1 s2 s3 : string) : (s1 +:+ s2) +:+ s3 = s1 +:+ (s2 +:+ s3).
Proof. induction s1 as [|c s1 IH]; [done | by rewrite !append_cons, IH]. Qed.

Lemma forall_chars_impl (p q : ascii -> bool) (s : string) :
  (forall c, p c = true -> q c = true) ->
  forall_chars p s = true -> forall_chars q s = true.
Proof.
  intros Hpq. induction s as [|c s IH]; simpl; [done |].
  intros [Hc Hs]%andb_prop. by rewrite (Hpq c Hc), IH.
Qed.

Lemma forall_chars_app (p : ascii -> bool) (s t : string) :
  forall_chars p (s +:+ t) = forall_chars p s && forall_chars p t.
Proof.
  induction s as [|c s IH]; [done |].
  rewrite append_cons. cbn [forall_chars]. by rewrite IH, andb_assoc.
Qed.

Lemma prefix_head_differs (a b : ascii) (s t : string) :
  a <> b -> String.prefix (String a s) (String b t) = false.
Proof. intros Hab. simpl. by destruct (ascii_dec a b). Qed.

Lemma prefix_head_same (a : ascii) (s t : string) :
  String.prefix (String a s) (String a t) = String.prefix s t.
Proof. simpl. by destruct (ascii_dec a a). Qed.

Lemma split_go_piece (c : ascii) (p rest cur : string) :
  free_of c p = true ->
  split_go (String c "") (p +:+ rest) 0 cur = split_go (String c "") rest 0 (cur +:+ p).
Proof.
  revert cur. induction p as [|x p IH]; intros cur Hp.
  - by rewrite append_empty.
  - rewrite append_cons. simpl. simpl in Hp. apply andb_prop in Hp as [Hx Hp].
    apply negb_true_iff, Ascii.eqb_neq in Hx.
    destruct (ascii_dec c x) as [-> | _]; [done |].
    rewrite (IH _ Hp), append_assoc. reflexivity.
Qed.

Lemma split_go_separator (c : ascii) (rest cur : string) :
  split_go (String c "") (String c rest) 0 cur = cur :: split_go (String c "") rest 0 "".
Proof. simpl. destruct (ascii_dec c c); [by destruct rest | done]. Qed.

Lemma split_last (c : ascii) (p cur : string) :
  free_of c p = true -> split_go (String c "") p 0 cur = [cur +:+ p].
Proof.
  intros Hp. rewrite <- (append_empty p) at 1. by rewrite split_go_piece.
Qed.

Lemma split_go_join (c : ascii) (p : string) (pieces : list string) (cur : string) :
  forallb (free_of c) (p :: pieces) = true ->
  split_go (String c "") (join (String c "") (p :: pieces)) 0 cur =
  (cur +:+ p) :: pieces.
Proof.
  revert p cur. induction pieces as [|q pieces IH]; intros p cur Hall.
  - simpl in *. apply andb_prop in Hall as [Hp _]. by apply split_last.
  - change (join (String c "") (p :: q :: pieces))
      with (p +:+ String c (join (String c "") (q :: pieces))).
    simpl in Hall. apply andb_prop in Hall as [Hp Hall].
    rewrite split_go_piece by done. rewrite split_go_separator.
    f_equal. rewrite IH by done. done.
Qed.

Lemma split_join (c : ascii) (pieces : list string) :
  pieces <> [] ->
  forallb (free_of c) pieces = true ->
  split (String c "") (join (String c "") pieces) = pieces.
Proof.
  intros Hne Hall. destruct pieces as [|p pieces]; [done |].
  unfold split. by rewrite split_go_join.
Qed.

Lemma split_absent (sep s cur : string) :
  sep <> "" -> includes sep s = false -> split_go sep s 0 cur = [cur +:+ s].
Proof.
  intros Hsep. revert cur. induction s as [|c s IH]; intros cur Hs.
  - simpl. by rewrite append_empty.
  - cbn [includes] in Hs. apply orb_false_iff in Hs as [Hp Hs].
    cbn [split_go]. rewrite Hp, (IH _ Hs), append_assoc. reflexivity.
Qed.

Lemma free_of_join (c : ascii) (sep : string) (pieces : list string) :
  free_of c sep = true -> forallb (free_of c) pieces = true ->
  free_of c (join sep pieces) = true.
Proof.
  intros Hsep. induction pieces as [|p [|q pieces] IH]; [done | |].
  - cbn [forallb join]. by rewrite andb_true_r.
  - intros [Hp Hrest]%andb_prop.
    change (join sep (p :: q :: pieces)) with (p +:+ (sep +:+ join sep (q :: pieces))).
    unfold free_of in *. rewrite !forall_chars_app, Hp, Hsep. by rewrite IH.
Qed.

Lemma includes_piece (p rest : string) :
  free_of ":" p = true -> includes "::" (p +:+ rest) = includes "::" rest.
Proof.
  induction p as [|x p IH]; intros Hp; [done |].
  cbn [forall_chars free_of] in Hp. unfold free_of in Hp. cbn [forall_chars] in Hp.
  apply andb_prop in Hp as [Hx%negb_true_iff%Ascii.eqb_neq Hp].
  rewrite append_cons. cbn [includes]. rewrite (IH Hp).
  by rewrite prefix_head_differs.
Qed.

Lemma includes_colon (y : ascii) (q : string) :
  y <> ":"%char ->
  includes "::" (String ":" (String y q)) = includes "::" (String y q).
Proof.
  intros Hy.
  change (includes "::" (String ":" (String y q))) with
    (String.prefix "::" (String ":" (String y q)) || includes "::" (String y q)).
  by rewrite prefix_head_same, prefix_head_differs.
Qed.

Lemma includes_join (groups : list string) :
  Forall is_group groups -> includes "::" (join ":" groups) = false.
Proof.
  induction 1 as [|g groups [Hne Hfree] Hall IH]; [done |].
  destruct groups as [|g' rest].
  - cbn [join]. rewrite <- (append_empty g). by rewrite includes_piece.
  - change (join ":" (g :: g' :: rest)) with (g +:+ String ":" (join ":" (g' :: rest))).
    rewrite includes_piece by done.
    apply Forall_cons in Hall as [[Hne' Hfree'] _].
    destruct g' as [|y g']; [done |].
    assert (Hy : y <> ":"%char).
    { unfold free_of in Hfree'. cbn [forall_chars] in Hfree'.
      by apply andb_prop in Hfree' as [Hy%negb_true_iff%Ascii.eqb_neq _]. }
    assert (Hhead : exists q, join ":" (String y g' :: rest) = String y q).
    { destruct rest; cbn [join]; rewrite ?append_cons; eauto. }
    destruct Hhead as [q Hq]. rewrite Hq in *. by rewrite includes_colon.
Qed.

Lemma code_ascii (m : Z) : 0 <= m < 256 -> code (ascii_of_N (Z.to_N m)) = m.
Proof.
  intros Hm. unfold code. rewrite N_ascii_embedding by lia. lia.
Qed.

Lemma code_inj_neq (c x : ascii) : code c <> code x -> Ascii.eqb c x = false.
Proof. intros Hne. apply Ascii.eqb_neq. by intros ->. Qed.

Lemma code_digit_char (d : Z) :
  0 <= d < 36 -> code (digit_char d) = if d <? 10 then 48 + d else 87 + d.
Proof.
  intros Hd. unfold digit_char. apply code_ascii. destruct (d <? 10); lia.
Qed.

Lemma digit_value_digit_char (radix d : Z) :
  0 <= d < radix -> radix <= 36 -> digit_value radix (digit_char d) = Some d.
Proof.
  intros Hd Hr. unfold digit_value. rewrite code_digit_char by lia. cbv zeta.
  destruct (Z.ltb_spec d 10).
  - replace ((48 <=? 48 + d) && (48 + d <=? 57)) with true by
      (symmetry; apply andb_true_iff; split; apply Z.leb_le; lia).
    replace (48 + d - 48 <? radix) with true by (symmetry; apply Z.ltb_lt; lia).
    f_equal. lia.
  - replace ((48 <=? 87 + d) && (87 + d <=? 57)) with false by
      (symmetry; apply andb_false_iff; right; apply Z.leb_gt; lia).
    replace ((97 <=? 87 + d) && (87 + d <=? 122)) with true by
      (symmetry; apply andb_true_iff; split; apply Z.leb_le; lia).
    replace (87 + d - 87 <? radix) with true by (symmetry; apply Z.ltb_lt; lia).
    f_equal. lia.
Qed.

Lemma digit_value_nonneg (radix : Z) (c : ascii) (d : Z) :
  digit_value radix c = Some d -> 0 <= d < radix.
Proof.
  unfold digit_value.
  repeat match goal with
         | |- context [if ?b then _ else _] => destruct b eqn:?
         end; simpl; try discriminate;
    repeat match goal with
           | |- context [?a <? ?b] => destruct (Z.ltb_spec a b)
           end; intros [= <-]; lia.
Qed.

Lemma is_digit_code (c : ascii) : is_digit c = true -> 48 <= code c <= 57.
Proof. unfold is_digit. intros [?%Z.leb_le ?%Z.leb_le]%andb_prop. lia. Qed.

(** The code of a digit: a decimal digit or a letter. *)
Lemma is_below_code (radix : Z) (c : ascii) :
  is_below radix c = true ->
  48 <= code c <= 57 /\ code c - 48 < radix \/
  97 <= code c <= 122 /\ code c - 87 < radix \/
  65 <= code c <= 90 /\ code c - 55 < radix.
Proof.
  unfold is_below, digit_value. cbv zeta.
  destruct ((48 <=? code c) && (code c <=? 57)) eqn:E1;
    [| destruct ((97 <=? code c) && (code c <=? 122)) eqn:E2;
       [| destruct ((65 <=? code c) && (code c <=? 90)) eqn:E3; [| discriminate]]];
    match goal with
    | |- context [?a <? ?b] => destruct (Z.ltb_spec a b); [intros _ | discriminate]
    end;
    match goal with
    | E : _ && _ = true |- _ => apply andb_prop in E as [?%Z.leb_le ?%Z.leb_le]
    end; lia.
Qed.

(** A character that is no digit or letter, or a letter past the
    digits of the radix, does not occur among digits. *)
Lemma digits_free_of (radix : Z) (x : ascii) (s : string) :
  code x < 48 \/ 57 < code x < 65 \/ 90 < code x < 97 \/ 122 < code x \/
  65 <= code x <= 90 /\ radix <= code x - 55 \/
  97 <= code x <= 122 /\ radix <= code x - 87 ->
  forall_chars (is_below radix) s = true -> free_of x s = true.
Proof.
  intros Hx. apply forall_chars_impl. intros c Hc%is_below_code.
  apply negb_true_iff, code_inj_neq. lia.
Qed.

Lemma parse_digits_nonneg (radix : Z) (s : string) (acc : option Z) (v : Z) :
  0 <= radix ->
  (forall a, acc = Some a -> 0 <= a) ->
  parse_digits radix s acc = Some v -> 0 <= v.
Proof.
  intros Hr. revert acc. induction s as [|c s IH]; intros acc Hacc; simpl.
  - intros ->. by apply Hacc.
  - destruct (digit_value radix c) as [d|] eqn:Hd.
    + apply IH. intros a [= <-]. apply digit_value_nonneg in Hd.
      destruct acc as [a|]; simpl; [specialize (Hacc a eq_refl) |]; nia.
    + intros ->. by apply Hacc.
Qed.

Lemma to_digits_chars (radix : Z) (fuel : nat) (n : Z) (acc : string) :
  0 < radix <= 36 ->
  forall_chars (is_below radix) acc = true ->
  forall_chars (is_below radix) (to_digits radix fuel n acc) = true.
Proof.
  intros Hr. revert n acc. induction fuel as [|fuel IH]; intros n acc Hacc; simpl; [done |].
  assert (Hd : forall_chars (is_below radix) (String (digit_char (n mod radix)) acc) = true).
  { cbn [forall_chars]. rewrite Hacc. unfold is_below.
    rewrite digit_value_digit_char; [done | | lia]. apply Z.mod_pos_bound. lia. }
  destruct (n / radix =? 0); [done | by apply IH].
Qed.

Lemma to_digits_length (radix : Z) (fuel : nat) (k n : Z) (acc : string) :
  1 < radix -> 1 <= k -> 0 <= n < radix ^ k ->
  Z.of_nat (String.length (to_digits radix fuel n acc)) <= k + Z.of_nat (String.length acc).
Proof.
  intros Hr. revert k n acc. induction fuel as [|fuel IH]; intros k n acc Hk Hn; simpl; [lia |].
  destruct (Z.eqb_spec (n / radix) 0) as [Hq | Hq]; [simpl; lia |].
  assert (Hk2 : 2 <= k).
  { destruct (decide (k = 1)) as [-> | ?]; [| lia].
    rewrite Z.pow_1_r in Hn. rewrite Z.div_small in Hq by lia. done. }
  etransitivity; [apply (IH (k - 1)) |]; [lia | | simpl; lia].
  split; [apply Z.div_pos; lia |].
  apply Z.div_lt_upper_bound; [lia |].
  rewrite <- Z.pow_succ_r by lia. replace (Z.succ (k - 1)) with k by lia. lia.
Qed.

Lemma to_digits_nonempty (radix : Z) (fuel : nat) (n : Z) (acc : string) :
  to_digits radix (S fuel) n acc <> "".
Proof.
  revert n acc. induction fuel as [|fuel IH]; intros n acc.
  - simpl. by destruct (n / radix =? 0).
  - change (to_digits radix (S (S fuel)) n acc) with
      (let acc' := String (digit_char (n mod radix)) acc in
       if n / radix =? 0 then acc' else to_digits radix (S fuel) (n / radix) acc').
    simpl. destruct (n / radix =? 0); [done | apply IH].
Qed.

(** Reading the digits written for [n], most significant first, adds
    [n] to what was read before, shifted. *)
Lemma parse_to_digits (radix : Z) (fuel : nat) (n : Z) (acc : string) (a : option Z) :
  1 < radix <= 36 -> 0 <= n < radix ^ Z.of_nat (S fuel) ->
  exists width, 0 < width /\
    parse_digits radix (to_digits radix (S fuel) n acc) a =
    parse_digits radix acc (Some (default 0 a * radix ^ width + n)).
Proof.
  intros Hr. revert n acc a. induction fuel as [|fuel IH]; intros n acc a Hn;
    change (to_digits radix (S ?f) n acc) with
      (let acc' := String (digit_char (n mod radix)) acc in
       if n / radix =? 0 then acc' else to_digits radix f (n / radix) acc');
    cbv zeta;
    assert (Hmod : 0 <= n mod radix < radix) by (apply Z.mod_pos_bound; lia);
    pose proof (Z.div_mod n radix ltac:(lia)) as Hdm;
    destruct (Z.eqb_spec (n / radix) 0) as [Hq | Hq].
  - exists 1. split; [lia |]. cbn [parse_digits].
    rewrite digit_value_digit_char by lia. f_equal. f_equal. rewrite Z.pow_1_r. lia.
  - exfalso. apply Hq. apply Z.div_small. change (Z.of_nat 1) with 1 in Hn.
    rewrite Z.pow_1_r in Hn. lia.
  - exists 1. split; [lia |]. cbn [parse_digits].
    rewrite digit_value_digit_char by lia. f_equal. f_equal. rewrite Z.pow_1_r. lia.
  - destruct (IH (n / radix) (String (digit_char (n mod radix)) acc) a) as (w & Hw & ->).
    { split; [apply Z.div_pos; lia |]. apply Z.div_lt_upper_bound; [lia |].
      rewrite (Nat2Z.inj_succ (S fuel)), Z.pow_succ_r in Hn by lia. lia. }
    exists (w + 1). split; [lia |]. cbn [parse_digits].
    rewrite digit_value_digit_char by lia. cbn [default]. f_equal. f_equal.
    rewrite Z.pow_add_r, Z.pow_1_r by lia.
    set (q := n / radix) in *. set (m := n mod radix) in *. clearbody q m.
    subst n. unfold id. ring.
Qed.

Lemma toString_digits (radix n : Z) :
  1 < radix <= 36 -> 0 <= n ->
  forall_chars (is_below radix) (toString radix n) = true /\
  toString radix n <> "" /\
  parse_digits radix (toString radix n) None = Some n.
Proof.
  intros Hr Hn. unfold toString.
  replace (n <? 0) with false by (symmetry; apply Z.ltb_ge; lia).
  split; [by apply to_digits_chars; [lia |] |].
  split; [apply to_digits_nonempty |].
  assert (Hfuel : 0 <= n < radix ^ Z.of_nat (S (Z.to_nat (Z.log2 n)))).
  { split; [done |]. rewrite Nat2Z.inj_succ, Z2Nat.id by apply Z.log2_nonneg.
    destruct (decide (n = 0)) as [-> | Hpos].
    - simpl. lia.
    - pose proof (Z.log2_spec n ltac:(lia)) as [_ Hlt].
      eapply Z.lt_le_trans; [exact Hlt |].
      apply Z.pow_le_mono_l. lia. }
  destruct (parse_to_digits radix (Z.to_nat (Z.log2 n)) n "" None Hr Hfuel) as (w & _ & ->).
  cbn [parse_digits default]. f_equal; simpl; lia.
Qed.

(** Below 2^53 an integer is a Number as it is. *)
Lemma to_double_small (v : Z) : Z.abs v < 2 ^ 53 -> to_double v = Some v.
Proof. intros Hv. unfold to_double. cbv zeta. by rewrite (proj2 (Z.ltb_lt _ _) Hv). Qed.

Lemma not_white_space (c : ascii) :
  48 <= code c <= 57 \/ 65 <= code c <= 90 \/ 97 <= code c <= 122 ->
  is_white_space c = false.
Proof.
  intros Hc. unfold is_white_space. cbv zeta.
  repeat (apply orb_false_iff; split);
    [apply andb_false_iff; right; apply Z.leb_gt; lia | apply Z.eqb_neq; lia ..].
Qed.

Lemma to_double_Some (v : Z) : Some v ≫= to_double = to_double v.
Proof. reflexivity. Qed.

(** On a string that starts with a digit, [parseInt] in radix 10 has
    nothing to skip. *)
Lemma parseInt_digit_head (c : ascii) (s : string) :
  is_digit c = true ->
  parseInt (String c s) 10 = parse_digits 10 (String c s) None ≫= to_double.
Proof.
  intros Hc%is_digit_code. unfold parseInt. cbn [trim_start].
  rewrite not_white_space by lia.
  replace (code c =? 45) with false by (symmetry; apply Z.eqb_neq; lia).
  replace (code c =? 43) with false by (symmetry; apply Z.eqb_neq; lia).
  destruct s as [|x s]; [| change (10 =? 16) with false; cbn [andb]];
    destruct (parse_digits 10 _ None) as [v|]; try done;
    cbn [mbind option_bind]; by destruct (to_double v).
Qed.

(** On a string that starts with a digit or a letter and has no [x]
    in second place, [parseInt] has nothing to pass over. *)
Lemma parseInt_plain (radix : Z) (c : ascii) (s : string) :
  48 <= code c <= 57 \/ 65 <= code c <= 90 \/ 97 <= code c <= 122 ->
  (forall x s', s = String x s' -> code x <> 120 /\ code x <> 88) ->
  parseInt (String c s) radix = parse_digits radix (String c s) None ≫= to_double.
Proof.
  intros Hc Hx. unfold parseInt. cbn [trim_start]. rewrite not_white_space by done.
  cbv zeta.
  replace (code c =? 45) with false by (symmetry; apply Z.eqb_neq; lia).
  replace (code c =? 43) with false by (symmetry; apply Z.eqb_neq; lia).
  destruct s as [|x s'].
  - destruct (parse_digits radix _ None) as [v|]; [| done].
    cbn [mbind option_bind]. by destruct (to_double v).
  - destruct (Hx x s' eq_refl) as [H1 H2].
    replace ((code x =? 120) || (code x =? 88)) with false by
      (symmetry; apply orb_false_iff; split; apply Z.eqb_neq; lia).
    rewrite andb_false_r. destruct (parse_digits radix _ None) as [v|]; [| done].
    cbn [mbind option_bind]. by destruct (to_double v).
Qed.

Lemma parseInt_toString_16 (k : Z) :
  0 <= k < 2 ^ 53 -> parseInt (toString 16 k) 16 = Some k.
Proof.
  intros Hk. destruct (toString_digits 16 k ltac:(lia) ltac:(lia))
    as (Hchars & Hne & Hparse).
  destruct (toString 16 k) as [|c s] eqn:Hs; [done |].
  cbn [forall_chars] in Hchars.
  apply andb_prop in Hchars as [Hc%is_below_code Hrest].
  rewrite parseInt_plain, Hparse.
  - cbn [mbind option_bind]. apply to_double_small. lia.
  - lia.
  - intros x s' ->. cbn [forall_chars] in Hrest.
    apply andb_prop in Hrest as [Hx%is_below_code _]. lia.
Qed.

(** ** Addresses as numbers *)

Lemma isIP_empty : isIP "" = 0.
Proof. reflexivity. Qed.

Lemma isIP_cases (a : string) : isIP a = 0 \/ isIP a = 4 \/ isIP a = 6.
Proof. unfold isIP. destruct (isIPv4 a), (isIPv6 a); auto. Qed.

Lemma octets_ok : forallb octet_ok (seqZ 0 256) = true.
Proof. vm_compute. reflexivity. Qed.

Lemma octet_ok_all (k : Z) : 0 <= k < 256 -> octet_ok k = true.
Proof.
  intros Hk. apply (proj1 (forallb_forall _ _) octets_ok), list_elem_of_In, elem_of_seqZ. lia.
Qed.

Lemma octet_decompose (n : Z) :
  0 <= n < 2 ^ 32 ->
  let a := Z.land (Z.shiftr n 24) 255 in
  let b := Z.land (Z.shiftr n 16) 255 in
  let c := Z.land (Z.shiftr n 8) 255 in
  let d := Z.land n 255 in
  (0 <= a < 256 /\ 0 <= b < 256 /\ 0 <= c < 256 /\ 0 <= d < 256) /\
  Z.shiftl (Z.shiftl (Z.shiftl (Z.shiftl 0 8 + a) 8 + b) 8 + c) 8 + d = n.
Proof.
  intros Hn. simpl.
  change 255 with (Z.ones 8). rewrite !Z.land_ones, !Z.shiftr_div_pow2, !Z.shiftl_mul_pow2 by lia.
  change (2 ^ 8) with 256. change (2 ^ 16) with 65536. change (2 ^ 24) with 16777216.
  change (2 ^ 32) with 4294967296 in Hn.
  split; [repeat split; try apply Z.mod_pos_bound; lia |].
  Z.div_mod_to_equations. lia.
Qed.

Lemma ipv4_roundtrip (n : Z) :
  0 <= n < 2 ^ 32 -> isIP (bigToIpv4 n) = 4 /\ ipv4ToBig (bigToIpv4 n) = Return n.
Proof.
  intros Hn. destruct (octet_decompose n Hn) as [(Ha & Hb & Hc & Hd) Hsum].
  unfold bigToIpv4.
  set (a := Z.land (Z.shiftr n 24) 255) in *. set (b := Z.land (Z.shiftr n 16) 255) in *.
  set (c := Z.land (Z.shiftr n 8) 255) in *. set (d := Z.land n 255) in *.
  clearbody a b c d.
  apply octet_ok_all in Ha, Hb, Hc, Hd. unfold octet_ok in *.
  set (sa := toString 10 a) in *. set (sb := toString 10 b) in *.
  set (sc := toString 10 c) in *. set (sd := toString 10 d) in *.
  clearbody sa sb sc sd.
  apply andb_prop in Ha as [[Ha1 Ha2]%andb_prop Ha3%bool_decide_eq_true].
  apply andb_prop in Hb as [[Hb1 Hb2]%andb_prop Hb3%bool_decide_eq_true].
  apply andb_prop in Hc as [[Hc1 Hc2]%andb_prop Hc3%bool_decide_eq_true].
  apply andb_prop in Hd as [[Hd1 Hd2]%andb_prop Hd3%bool_decide_eq_true].
  assert (Hsplit : split "." (join "." [sa; sb; sc; sd]) = [sa; sb; sc; sd]).
  { apply (split_join "."); [done |]. cbn [forallb]. by rewrite Ha2, Hb2, Hc2, Hd2. }
  split.
  - unfold isIP, isIPv4. rewrite Hsplit. by rewrite Ha1, Hb1, Hc1, Hd1.
  - unfold ipv4ToBig. rewrite Hsplit. cbn [reduce bind]. rewrite Ha3, Hb3, Hc3, Hd3.
    cbn [BigInt bind reduce]. f_equal. exact Hsum.
Qed.

Lemma isV4Seg_parse (s : string) :
  isV4Seg s = true -> exists v, parseInt s 10 = Some v /\ 0 <= v <= 255.
Proof.
  unfold isV4Seg. intros [Hdigits Hshape]%andb_prop.
  destruct s as [|c s]; [discriminate |].
  pose proof Hdigits as Hc. cbn [forall_chars] in Hc. apply andb_prop in Hc as [Hc _].
  rewrite (parseInt_digit_head c s Hc).
  assert (Hpos : forall v, parse_digits 10 (String c s) None = Some v -> 0 <= v).
  { intros v. apply parse_digits_nonneg; [lia | discriminate]. }
  destruct s as [|c2 [|c3 [|c4 s]]]; try discriminate.
  - pose proof (is_digit_code c Hc) as Hcode.
    exists (code c - 48). split; [| lia].
    cbn [parse_digits]. unfold digit_value.
    replace ((48 <=? code c) && (code c <=? 57)) with true by
      (symmetry; apply andb_true_iff; split; apply Z.leb_le; lia).
    replace (code c - 48 <? 10) with true by (symmetry; apply Z.ltb_lt; lia).
    cbn [parse_digits default]. rewrite to_double_Some, to_double_small by lia.
    f_equal; lia.
  - apply andb_prop in Hshape as [_ Hv].
    destruct (parse_digits 10 _ None) as [v|] eqn:Hparse; [| discriminate].
    apply Z.leb_le in Hv. specialize (Hpos v eq_refl).
    exists v. split; [| lia]. rewrite to_double_Some. apply to_double_small. lia.
  - apply andb_prop in Hshape as [_ Hv].
    destruct (parse_digits 10 _ None) as [v|] eqn:Hparse; [| discriminate].
    apply Z.leb_le in Hv. specialize (Hpos v eq_refl).
    exists v. split; [| lia]. rewrite to_double_Some. apply to_double_small. lia.
Qed.

(** A valid IPv4 address is read by [ipv4ToBig], as a 32-bit number. *)
Lemma ipv4ToBig_valid (a : string) :
  isIP a = 4 -> exists n, ipv4ToBig a = Return n /\ 0 <= n < 2 ^ 32.
Proof.
  unfold isIP. destruct (isIPv4 a) eqn:Hv4; [intros _ | by destruct (isIPv6 a)].
  unfold isIPv4 in Hv4. unfold ipv4ToBig.
  destruct (split "." a) as [|s1 [|s2 [|s3 [|s4 [|s5 l]]]]]; try discriminate.
  apply andb_prop in Hv4 as [[[H1 H2]%andb_prop H3]%andb_prop H4].
  destruct (isV4Seg_parse s1 H1) as (v1 & E1 & ?).
  destruct (isV4Seg_parse s2 H2) as (v2 & E2 & ?).
  destruct (isV4Seg_parse s3 H3) as (v3 & E3 & ?).
  destruct (isV4Seg_parse s4 H4) as (v4 & E4 & ?).
  cbn [reduce bind BigInt]. rewrite E1. cbn [reduce bind BigInt]. rewrite E2.
  cbn [reduce bind BigInt]. rewrite E3. cbn [reduce bind BigInt]. rewrite E4.
  cbn [reduce bind BigInt].
  eexists. split; [reflexivity |]. rewrite !Z.shiftl_mul_pow2 by lia.
  change (2 ^ 8) with 256. change (2 ^ 32) with 4294967296. lia.
Qed.

(** What [bigToIpv6] writes for a 16-bit group. *)
Lemma hextet_string (k : Z) :
  0 <= k < 65536 ->
  let s := toString 16 k in
  isV6Seg s = true /\ s <> "" /\ free_of ":" s = true /\ free_of "." s = true /\
  free_of "%" s = true /\ parseInt s 16 = Some k.
Proof.
  intros Hk s. subst s.
  destruct (toString_digits 16 k ltac:(lia) ltac:(lia)) as (Hchars & Hne & _).
  assert (Hlen : Z.of_nat (String.length (toString 16 k)) <= 4).
  { unfold toString. replace (k <? 0) with false by (symmetry; apply Z.ltb_ge; lia).
    etransitivity; [apply (to_digits_length 16 _ 4); [lia | lia |] |]; simpl; lia. }
  split; [| split; [done |]].
  - unfold isV6Seg. change is_hex with (is_below 16). rewrite Hchars. cbn [andb].
    apply andb_true_iff. split; apply Z.leb_le; [| lia].
    destruct (toString 16 k); [done | simpl; lia].
  - split; [apply (digits_free_of 16); [unfold code; simpl; lia | done] |].
    split; [apply (digits_free_of 16); [unfold code; simpl; lia | done] |].
    split; [apply (digits_free_of 16); [unfold code; simpl; lia | done] |].
    apply parseInt_toString_16. lia.
Qed.

Lemma hextet_decompose (n : Z) :
  0 <= n < 2 ^ 128 ->
  let n1 := Z.shiftr n 16 in let n2 := Z.shiftr n1 16 in let n3 := Z.shiftr n2 16 in
  let n4 := Z.shiftr n3 16 in let n5 := Z.shiftr n4 16 in let n6 := Z.shiftr n5 16 in
  let n7 := Z.shiftr n6 16 in
  let h (m : Z) := Z.land m 65535 in
  (0 <= h n < 65536 /\ 0 <= h n1 < 65536 /\ 0 <= h n2 < 65536 /\ 0 <= h n3 < 65536 /\
   0 <= h n4 < 65536 /\ 0 <= h n5 < 65536 /\ 0 <= h n6 < 65536 /\ 0 <= h n7 < 65536) /\
  Z.shiftl (Z.shiftl (Z.shiftl (Z.shiftl (Z.shiftl (Z.shiftl (Z.shiftl (Z.shiftl 0 16
    + h n7) 16 + h n6) 16 + h n5) 16 + h n4) 16 + h n3) 16 + h n2) 16 + h n1) 16 + h n = n.
Proof.
  intros Hn. cbv zeta beta.
  change 65535 with (Z.ones 16). rewrite !Z.land_ones, !Z.shiftr_div_pow2, !Z.shiftl_mul_pow2 by lia.
  change (2 ^ 16) with 65536. change (2 ^ 128) with (65536 * 65536 * 65536 * 65536 * 65536 * 65536 * 65536 * 65536) in Hn.
  split; [repeat split; try apply Z.mod_pos_bound; lia |].
  Z.div_mod_to_equations. lia.
Qed.

Lemma or_zero_group (g : string) : g <> "" -> or_zero g = g.
Proof. intros Hg. unfold or_zero. by rewrite decide_False. Qed.

(** What [bigToIpv6] writes is an IPv6 address that [ipv6ToBig] reads
    back as the same number. *)
Lemma ipv6_roundtrip (n : Z) :
  0 <= n < 2 ^ 128 -> isIP (bigToIpv6 n) = 6 /\ ipv6ToBig (bigToIpv6 n) = Return n.
Proof.
  intros Hn. destruct (hextet_decompose n Hn) as [(H0 & H1 & H2 & H3 & H4 & H5 & H6 & H7) Hsum].
  unfold bigToIpv6. cbn [ipv6_parts]. cbv zeta beta in *.
  set (n1 := Z.shiftr n 16) in *. set (n2 := Z.shiftr n1 16) in *.
  set (n3 := Z.shiftr n2 16) in *. set (n4 := Z.shiftr n3 16) in *.
  set (n5 := Z.shiftr n4 16) in *. set (n6 := Z.shiftr n5 16) in *.
  set (n7 := Z.shiftr n6 16) in *.
  set (h0 := Z.land n 65535) in *. set (h1 := Z.land n1 65535) in *.
  set (h2 := Z.land n2 65535) in *. set (h3 := Z.land n3 65535) in *.
  set (h4 := Z.land n4 65535) in *. set (h5 := Z.land n5 65535) in *.
  set (h6 := Z.land n6 65535) in *. set (h7 := Z.land n7 65535) in *.
  clearbody h0 h1 h2 h3 h4 h5 h6 h7. clear n1 n2 n3 n4 n5 n6 n7.
  destruct (hextet_string h0 H0) as (S0 & E0 & C0 & D0 & P0 & V0).
  destruct (hextet_string h1 H1) as (S1 & E1 & C1 & D1 & P1 & V1).
  destruct (hextet_string h2 H2) as (S2 & E2 & C2 & D2 & P2 & V2).
  destruct (hextet_string h3 H3) as (S3 & E3 & C3 & D3 & P3 & V3).
  destruct (hextet_string h4 H4) as (S4 & E4 & C4 & D4 & P4 & V4).
  destruct (hextet_string h5 H5) as (S5 & E5 & C5 & D5 & P5 & V5).
  destruct (hextet_string h6 H6) as (S6 & E6 & C6 & D6 & P6 & V6).
  destruct (hextet_string h7 H7) as (S7 & E7 & C7 & D7 & P7 & V7).
  set (g0 := toString 16 h0) in *. set (g1 := toString 16 h1) in *.
  set (g2 := toString 16 h2) in *. set (g3 := toString 16 h3) in *.
  set (g4 := toString 16 h4) in *. set (g5 := toString 16 h5) in *.
  set (g6 := toString 16 h6) in *. set (g7 := toString 16 h7) in *.
  clearbody g0 g1 g2 g3 g4 g5 g6 g7.
  set (groups := [g7; g6; g5; g4; g3; g2; g1; g0]).
  assert (Hsplit : split ":" (join ":" groups) = groups).
  { apply (split_join ":"); [done |]. subst groups. cbn [forallb].
    by rewrite C0, C1, C2, C3, C4, C5, C6, C7. }
  assert (Hnone : includes "::" (join ":" groups) = false).
  { apply includes_join. subst groups. by repeat constructor. }
  assert (Hwhole : split "::" (join ":" groups) = [join ":" groups]).
  { unfold split. by rewrite split_absent. }
  assert (Hdots : split "." (join ":" groups) = [join ":" groups]).
  { unfold split. rewrite (split_last "."); [done |].
    apply free_of_join; [done |]. subst groups. cbn [forallb].
    by rewrite D0, D1, D2, D3, D4, D5, D6, D7. }
  assert (Hzone : split "%" (join ":" groups) = [join ":" groups]).
  { unfold split. rewrite (split_last "%"); [done |].
    apply free_of_join; [done |]. subst groups. cbn [forallb].
    by rewrite P0, P1, P2, P3, P4, P5, P6, P7. }
  split.
  - unfold isIP, isIPv4, isIPv6. rewrite Hdots, Hzone, Hwhole, Hsplit.
    subst groups. cbn [v6_groups]. by rewrite S0, S1, S2, S3, S4, S5, S6, S7.
  - unfold ipv6ToBig, expandIpv6. rewrite Hnone, Hsplit. subst groups.
    cbn [fmap list_fmap bind]. rewrite !or_zero_group by done.
    rewrite V0, V1, V2, V3, V4, V5, V6, V7. cbn [reduce bind BigInt].
    f_equal. exact Hsum.
Qed.

(** The address written for a number of the family is a valid address
    of the family and reads back as that number. *)
Lemma fromBig_roundtrip (version n : Z) :
  version = 4 \/ version = 6 ->
  0 <= n < family_size version ->
  isIP (fromBig version n) = version /\ toBig version (fromBig version n) = Return n.
Proof.
  intros [-> | ->] Hn.
  - by apply ipv4_roundtrip.
  - by apply ipv6_roundtrip.
Qed.

(** ** Static IP addresses *)

Lemma readable_nonempty (version : Z) (a : string) :
  version <> 0 -> readable version a -> String.eqb a "" = false.
Proof.
  intros Hv [Hip _]. apply String.eqb_neq. intros ->. by rewrite isIP_empty in Hip.
Qed.

(** A valid IPv4 address is readable as such. *)
Lemma readable_ipv4 (a : string) : isIP a = 4 -> readable 4 a.
Proof.
  intros Hip. split; [done |].
  destruct (ipv4ToBig_valid a Hip) as (n & Hn & _). by exists n.
Qed.

Lemma reduce_add_ip (version : Z) (cond : Interface -> bool) (l : list Interface)
  (used0 : gset Z) :
  (forall i, i ∈ l -> cond i = true -> exists n, toBig version (iface_ip i) = Return n) ->
  exists used,
    reduce (fun used i => add_ip version (cond i) (iface_ip i) used) l used0 = Return used /\
    forall n, n ∈ used <->
              n ∈ used0 \/
              exists i, i ∈ l /\ cond i = true /\ toBig version (iface_ip i) = Return n.
Proof.
  revert used0. induction l as [|i l IH]; intros used0 Hconv; simpl.
  - exists used0. split; [done |]. intros n. split; [by left |].
    intros [? | (i & Hi & _)]; [done | by apply elem_of_nil in Hi].
  - assert (Hl : forall j, j ∈ l -> cond j = true ->
                  exists n, toBig version (iface_ip j) = Return n).
    { intros j Hj. apply Hconv. by right. }
    unfold add_ip at 1. destruct (cond i) eqn:Hc; simpl.
    + destruct (Hconv i) as [b Hb]; [by left | done |]. rewrite Hb. simpl.
      destruct (IH ({[ b ]} ∪ used0) Hl) as (used & -> & Hused).
      exists used. split; [done |]. intros n. rewrite Hused, elem_of_union, elem_of_singleton.
      split.
      * intros [[-> | ?] | (j & Hj & ? & ?)]; [right | by left | right].
        -- exists i. split; [by left | done].
        -- exists j. split; [by right | done].
      * intros [? | (j & [-> | Hj]%elem_of_cons & Hcj & Hbj)].
        -- left. by right.
        -- left. left. congruence.
        -- right. by exists j.
    + destruct (IH used0 Hl) as (used & -> & Hused).
      exists used. split; [done |]. intros n. rewrite Hused. split.
      * intros [? | (j & Hj & ? & ?)]; [by left | right].
        exists j. split; [by right | done].
      * intros [? | (j & [-> | Hj]%elem_of_cons & Hcj & Hbj)]; [by left | congruence |].
        right. by exists j.
Qed.

Lemma counted_spec (networkName : string) (i : Interface) :
  counted networkName i = true <->
  network i = networkName /\ isIP (iface_ip i) <> 0.
Proof.
  unfold counted. rewrite !andb_true_iff, bool_decide_eq_true, !negb_true_iff.
  rewrite String.eqb_neq, Z.eqb_neq. split; [tauto |].
  intros [Hn Hip]. split; [split; [done |] | done].
  intros Hempty. by rewrite Hempty, isIP_empty in Hip.
Qed.

Lemma used_ips_taken (version : Z) (networkName : string) (netCfg : Network)
  (inventory : Inventory) :
  version <> 0 ->
  same_family version networkName netCfg inventory ->
  exists used,
    used_ips version networkName netCfg inventory = Return used /\
    forall n, n ∈ used <-> ip_taken version networkName netCfg inventory n.
Proof.
  intros Hv (Hg & Hd & Hhosts). unfold used_ips, add_ip.
  rewrite (readable_nonempty _ _ Hv Hg), (readable_nonempty _ _ Hv Hd). simpl.
  destruct Hg as [_ [g Hgw]]. destruct Hd as [_ [d Hdns]].
  rewrite Hgw, Hdns. simpl.
  assert (Hmatch : forall i, i ∈ host_interfaces inventory ->
            exists h, h ∈ default [] (hosts inventory) /\ i ∈ default [] (interfaces h)).
  { unfold host_interfaces. intros i (h & Hi & Hh)%list_elem_of_bind. by exists h. }
  destruct (reduce_add_ip version (counted networkName) (host_interfaces inventory)
              ({[ d ]} ∪ ({[ g ]} ∪ ∅))) as (used & Hred & Hused).
  { intros i Hi [Hn Hip]%counted_spec. destruct (Hmatch i Hi) as (h & Hh & Hih).
    by destruct (Hhosts h i Hh Hih Hn Hip) as [_ ?]. }
  exists used. split; [exact Hred |]. intros n. rewrite Hused.
  rewrite !elem_of_union, !elem_of_singleton. unfold ip_taken. split.
  - intros [[-> | [-> | []%elem_of_empty]] | (i & Hi & [Hn Hip]%counted_spec & Hb)];
      [by right; left | by left |].
    right. right. destruct (Hmatch i Hi) as (h & Hh & Hih). by exists h, i.
  - intros [Hn | [Hn | (h & i & Hh & Hih & Hn & Hip & Hb)]].
    + left. right. left. congruence.
    + left. left. congruence.
    + right. exists i.
      split; [unfold host_interfaces; rewrite list_elem_of_bind; by exists h |].
      split; [by apply counted_spec | done].
Qed.

(** The scan in the terms of the code. Let the network be found by
    its name, the two ends of its range be of one family and read by
    the conversion of the code as [startBig <= endBig], and the
    gateway, the dns and the valid host addresses be read by it too.
    Then [getNextIpAddress] writes the lowest number from [startBig]
    to [endBig] that the conversion reads from none of them, and
    throws for lack of capacity when there is none. *)
Lemma getNextIpAddress_scan
  (networkName : string) (inventory : Inventory) (netCfg : Network)
  (version startBig endBig : Z) :
  List.find (fun n => bool_decide (name n = networkName)) (networks inventory)
    = Some netCfg ->
  version <> 0 ->
  isIP (start (static_range netCfg)) = version ->
  isIP (end_ (static_range netCfg)) = version ->
  toBig version (start (static_range netCfg)) = Return startBig ->
  toBig version (end_ (static_range netCfg)) = Return endBig ->
  startBig <= endBig ->
  same_family version networkName netCfg inventory ->
  let taken := ip_taken version networkName netCfg inventory in
  match getNextIpAddress networkName inventory with
  | Return address =>
      exists n,
        startBig <= n <= endBig /\ ~ taken n /\
        (forall j, startBig <= j < n -> taken j) /\
        address =
          (if String.eqb (prefix_length netCfg) "" then fromBig version n
           else fromBig version n +:+ "/" +:+ prefix_length netCfg) /\
        (version = 4 \/ 0 <= startBig /\ endBig < 2 ^ 128 ->
         isIP (fromBig version n) = version /\
         toBig version (fromBig version n) = Return n)
  | Throw e =>
      e = Error ("No available static IP in range for network " +:+ networkName) /\
      forall j, startBig <= j <= endBig -> taken j
  end.
Proof.
  intros Hfind Hv Hstart Hend Hs He Hle Hfam taken. subst taken.
  unfold getNextIpAddress. rewrite Hfind.
  assert (Hs_ne : String.eqb (start (static_range netCfg)) "" = false).
  { apply String.eqb_neq. intros Heq. rewrite Heq, isIP_empty in Hstart. done. }
  assert (He_ne : String.eqb (end_ (static_range netCfg)) "" = false).
  { apply String.eqb_neq. intros Heq. rewrite Heq, isIP_empty in Hend. done. }
  rewrite Hs_ne, He_ne, Hstart, Hend. simpl.
  rewrite (proj2 (Z.eqb_neq _ _) Hv), Z.eqb_refl. simpl.
  rewrite Hs, He. simpl.
  destruct (startBig >? endBig) eqn:Hgt; [apply Z.gtb_lt in Hgt; lia |].
  destruct (used_ips_taken version networkName netCfg inventory Hv Hfam)
    as (used & -> & Hused).
  simpl. destruct (first_unused used startBig endBig) as [n|] eqn:Hscan.
  - apply first_unused_Some in Hscan as (Hrange & Hfree & Hlow).
    exists n. split; [done |]. split; [by rewrite <- Hused |].
    split; [intros j Hj; apply Hused; by apply Hlow |].
    split; [done |]. intros Hbits.
    assert (Hver : version = 4 \/ version = 6).
    { destruct (isIP_cases (start (static_range netCfg))) as [? | [? | ?]];
        [congruence | left | right]; congruence. }
    apply fromBig_roundtrip; [done |]. unfold family_size.
    destruct Hver as [-> | ->].
    + change (4 =? 4) with true. cbv iota.
      destruct (ipv4ToBig_valid _ Hstart) as (s & Es & Hs4).
      destruct (ipv4ToBig_valid _ Hend) as (e & Ee & He4).
      unfold toBig in Hs, He. simpl in Hs, He.
      rewrite Es in Hs. rewrite Ee in He. injection Hs as <-. injection He as <-.
      lia.
    + change (6 =? 4) with false. cbv iota.
      destruct Hbits as [? | [Hlo Hhi]]; [discriminate | lia].
  - split; [done |]. intros j Hj. apply Hused.
    by apply (proj1 (first_unused_None _ _ _) Hscan).
Qed.

(** Scenario C, run: the allocation throws for lack of capacity. *)
Example scenario_C_no_capacity :
  getNextIpAddress "lan" inventory_C =
    Throw (Error "No available static IP in range for network lan") /\
  fst (reserveIpAddress "lan" inventory_C "ip:lan:host1") =
    Throw (Error "No available static IP in range for network lan").
Proof. split; reflexivity. Qed.

(** ** Dotted paths *)

Lemma find_named_found (p : string) (items : list json) (item : json) :
  find_named p items = Return (Some item) ->
  exists before fields after,
    items = (before ++ item :: after)%list /\
    item = JObject fields /\ own "name" fields = Some (JString p) /\
    Forall (fun x => forall fs, x = JObject fs -> own "name" fs <> Some (JString p)) before.
Proof.
  induction items as [|x items IH]; simpl; [discriminate |].
  assert (Hrest : find_named p items = Return (Some item) ->
            (forall fs, x = JObject fs -> own "name" fs <> Some (JString p)) ->
            exists before fields after,
              x :: items = (before ++ item :: after)%list /\
              item = JObject fields /\ own "name" fields = Some (JString p) /\
              Forall (fun x => forall fs, x = JObject fs ->
                                 own "name" fs <> Some (JString p)) before).
  { intros Hf Hx. destruct (IH Hf) as (before & fields & after & -> & Hi & Hn & Hb).
    exists (x :: before), fields, after. split; [done |]. split; [done |].
    split; [done | by constructor]. }
  destruct x as [| b | n | s | l | fields]; try discriminate;
    try (intros Hf; apply Hrest; [done | by intros fs [=]]).
  destruct (own "name" fields) as [[| b | n | s | l | fs']|] eqn:Hname;
    try (intros Hf; apply Hrest; [done | intros fs [= <-]; by rewrite Hname]).
  destruct (decide (s = p)) as [-> | Hne].
  - intros [= <-]. exists [], fields, items. split; [done |]. split; [done |].
    split; [done | constructor].
  - intros Hf. apply Hrest; [done |]. intros fs [= <-]. rewrite Hname. congruence.
Qed.

Lemma find_named_network (p : string) (l : list Network) :
  find_named p (network_json <$> l) =
  Return (network_json <$> List.find (fun n => bool_decide (name n = p)) l).
Proof.
  induction l as [|n l IH]; simpl; [done |].
  destruct (decide (name n = p)) as [Heq | Hne].
  - by rewrite bool_decide_eq_true_2.
  - by rewrite bool_decide_eq_false_2.
Qed.

Lemma own_networks (inventory : Inventory) :
  own "networks" match inventory_json inventory with JObject fields => fields | _ => [] end
  = Some (JArray (network_json <$> networks inventory)).
Proof.
  unfold inventory_json. by destruct (hosts inventory), (reserved inventory).
Qed.

(** C8. A dotted path is followed field by field: a segment
    applied to an object reads the field of that name, a segment
    applied to an array selects the first element whose [name] equals
    it; hence [networks.lan.gateway] resolves to the gateway string
    stored on the network named [lan], and the inventory pass puts that
    string in place of the reference. *)
Theorem getRefValue_gateway (inventory : Inventory) (netCfg : Network) :
  List.find (fun n => bool_decide (name n = "lan")) (networks inventory) = Some netCfg ->
  (forall p rest fields v,
      own p fields = Some v ->
      getRefValue_loop (p :: rest) (Value (JObject fields)) =
      getRefValue_loop rest (Value v)) /\
  (forall p rest items item,
      find_named p items = Return (Some item) ->
      getRefValue_loop (p :: rest) (Value (JArray items)) =
        getRefValue_loop rest (Value item) /\
      exists before fields after,
        items = (before ++ item :: after)%list /\
        item = JObject fields /\ own "name" fields = Some (JString p) /\
        Forall (fun x => forall fs, x = JObject fs ->
                           own "name" fs <> Some (JString p)) before) /\
  getRefValue "networks.lan.gateway" (inventory_json inventory) =
    Done (Value (JString (gateway netCfg))) /\
  populateInventoryRefs
    (JObject [ ("gateway", JString "{inventory:networks.lan.gateway}") ])
    (inventory_json inventory_A) =
    Done (JObject [ ("gateway", JString "10.0.0.1") ]).
Proof.
  intros Hfind. split; [| split; [| split]].
  - intros p rest fields v Hown. simpl. by rewrite Hown.
  - intros p rest items item Hf. split; [simpl; by rewrite Hf |].
    by apply find_named_found.
  - unfold getRefValue.
    change (split "." "networks.lan.gateway") with ["networks"; "lan"; "gateway"].
    pose proof (own_networks inventory) as Hown.
    unfold inventory_json in *. simpl in *. rewrite Hown.
    rewrite find_named_network, Hfind. reflexivity.
  - vm_compute. reflexivity.
Qed.

Lemma getRefValue_gateway_witness :
  List.find (fun n => bool_decide (name n = "lan")) (networks inventory_A) = Some lan /\
  getRefValue "networks.lan.gateway" (inventory_json inventory_A) =
    Done (Value (JString "10.0.0.1")).
Proof.
  split; [reflexivity |].
  exact (proj1 (proj2 (proj2 (getRefValue_gateway inventory_A lan eq_refl)))).
Defined.

(** ** References that do not resolve *)

(** C6. A reference that does not resolve is not always left in
    place. The vault pass leaves the token when the secret or the last
    field of the path is absent, and throws when a field before the
    last is absent. The inventory and parent-config passes never leave
    it: the token is overwritten with the text [null], or [undefined]
    when the path ends on an array that has no element of that name. *)
Theorem unresolved_reference_is_overwritten :
  populateInventoryRefs
    (JObject [ ("gateway", JString "{inventory:networks.wan.gateway}") ])
    (inventory_json inventory_A) =
    Done (JObject [ ("gateway", JString "null") ]) /\
  populateInventoryRefs
    (JObject [ ("net", JString "{inventory:networks.wan}") ])
    (inventory_json inventory_A) =
    Done (JObject [ ("net", JString "undefined") ]) /\
  populateUpperLevelRefs
    (JObject [ ("name", JString "web"); ("fqdn", JString "{config:domain}") ]) =
    Done (JObject [ ("name", JString "web"); ("fqdn", JString "null") ]) /\
  fill sample_secrets (JObject [ ("password", JString "bw:nas.login.password") ]) =
    Done (JObject [ ("password", JString "bw:nas.login.password") ]) /\
  fill sample_secrets (JObject [ ("totp", JString "bw:pve.login.totp") ]) =
    Done (JObject [ ("totp", JString "bw:pve.login.totp") ]) /\
  fill sample_secrets (JObject [ ("key", JString "bw:pve.ssh.private") ]) =
    Raised TypeError /\
  fill sample_secrets (JObject [ ("password", JString "bw:pve.login.password") ]) =
    Done (JObject [ ("password", JString "hunter2") ]).
Proof. vm_compute. repeat split. Qed.

(** ** More on VM ids *)

Lemma getNextVmId_returns (type : string) (inventory : Inventory) (id : Z) :
  getNextVmId type inventory = Return id ->
  exists lo hi r,
    ranges type = Own lo hi /\ reserved inventory = Some r /\
    first_unused (used_vmids inventory r) lo hi = Some id.
Proof.
  unfold getNextVmId.
  destruct (ranges type) as [lo hi | |] eqn:Hty;
    destruct (reserved inventory) as [r|]; simpl; try discriminate.
  destruct (first_unused _ lo hi) as [x|] eqn:Hscan; [| discriminate].
  intros [= <-]. by exists lo, hi, r.
Qed.

Lemma ranges_own (type : string) (lo hi : Z) :
  ranges type = Own lo hi -> (type, (lo, hi)) ∈ vmid_ranges.
Proof.
  unfold ranges, vmid_ranges.
  repeat case_decide; try discriminate; intros [= <- <-]; subst;
    rewrite !elem_of_cons; tauto.
Qed.

(** X1. An id is handed out for one type only: [getNextVmId] returns for
    the four types of the table and for no other, the id lies in the
    range of its type, and the same id never comes out for two
    types, whatever the inventories. *)
Theorem getNextVmId_id_tells_type (type : string) (inventory : Inventory) (id : Z) :
  getNextVmId type inventory = Return id ->
  (exists lo hi, (type, (lo, hi)) ∈ vmid_ranges /\ lo <= id <= hi) /\
  0 <= id <= 399 /\
  forall type' inventory', getNextVmId type' inventory' = Return id -> type' = type.
Proof.
  intros (lo & hi & r & Hty & _ & Hscan)%getNextVmId_returns.
  apply first_unused_Some in Hscan as (Hrange & _).
  apply ranges_own in Hty as Hin.
  assert (Hcases := Hin). unfold vmid_ranges in Hcases.
  rewrite !elem_of_cons, elem_of_nil in Hcases.
  split; [by exists lo, hi |].
  split; [destruct Hcases as [H | [H | [H | [H | []]]]]; injection H as -> -> ->; lia |].
  intros type' inventory' (lo' & hi' & r' & Hty' & _ & Hscan')%getNextVmId_returns.
  apply first_unused_Some in Hscan' as (Hrange' & _).
  apply ranges_own in Hty'. unfold vmid_ranges in Hty'.
  rewrite !elem_of_cons, elem_of_nil in Hty'.
  destruct Hcases as [H | [H | [H | [H | []]]]]; injection H as -> -> ->;
    destruct Hty' as [H | [H | [H | [H | []]]]]; injection H as -> -> ->;
    first [reflexivity | lia].
Qed.

Lemma getNextVmId_id_tells_type_witness :
  getNextVmId "template" inventory_B = Return 301 /\
  forall type' inventory', getNextVmId type' inventory' = Return 301 -> type' = "template".
Proof.
  assert (H : getNextVmId "template" inventory_B = Return 301) by reflexivity.
  split; [exact H |].
  exact (proj2 (proj2 (getNextVmId_id_tells_type "template" inventory_B 301 H))).
Defined.

(** ** More on the ledger *)

Lemma getNextVmId_not_reserved (type : string) (inventory : Inventory) (r : Reserved)
  (id : Z) (v : ReservedVmid) :
  reserved inventory = Some r ->
  getNextVmId type inventory = Return id ->
  v ∈ vmids r -> vmid v <> id.
Proof.
  intros Hr Hnext Hv Heq. apply (getNextVmId_unused _ _ _ _ Hr Hnext).
  unfold used_vmids. rewrite elem_of_union, !elem_of_list_to_set. right.
  apply list_elem_of_fmap. by exists v.
Qed.

(** X2. Two different labels never share a VM id: on a ledger whose ids
    are pairwise distinct, reserving for [refId1] and then for
    another [refId2] gives two different ids, whether the labels were
    bound before or not. *)
Theorem reserveVmId_labels_apart
  (type1 type2 refId1 refId2 : string) (inventory : Inventory) (id1 id2 : Z) :
  refId1 <> refId2 ->
  NoDup (vmid <$> vmids (default empty_reserved (reserved inventory))) ->
  fst (reserveVmId type1 inventory refId1) = Return id1 ->
  fst (reserveVmId type2 (snd (reserveVmId type1 inventory refId1)) refId2) = Return id2 ->
  id1 <> id2.
Proof.
  intros Hne Hdup.
  destruct (reserveVmId type1 inventory refId1) as [res1 inventory1] eqn:H1. simpl.
  destruct (reserveVmId type2 inventory1 refId2) as [res2 inventory2] eqn:H2. simpl.
  intros -> ->.
  pose proof (reserved_init inventory) as Hr.
  set (r := default empty_reserved (reserved inventory)) in *.
  apply reserveVmId_returns in H1 as
    [(i & e1 & Hfind1 & <- & ->) | (Hfind1 & Hnext1 & ->)]; fold r in Hfind1.
  - apply reserveVmId_returns in H2. rewrite init_reserved_idemp, Hr in H2. simpl in H2.
    apply list_find_Some in Hfind1 as (Hi & Hid1 & _).
    destruct H2 as [(j & e2 & Hfind2 & <- & _) | (_ & Hnext2 & _)].
    + apply list_find_Some in Hfind2 as (Hj & Hid2 & _).
      intros Heq. assert (i = j) as ->.
      { apply (NoDup_lookup _ _ _ (vmid e1) Hdup); rewrite list_lookup_fmap.
        - by rewrite Hi.
        - rewrite Hj. simpl. by rewrite Heq. }
      congruence.
    + eapply getNextVmId_not_reserved; [exact Hr | exact Hnext2 |].
      by eapply list_elem_of_lookup_2.
  - apply reserveVmId_returns in H2. simpl in H2.
    set (entry := {| vmid := id1; vmid_refId := refId1 |}) in *.
    destruct H2 as [(j & e2 & Hfind2 & <- & _) | (_ & Hnext2 & _)].
    + apply list_find_Some in Hfind2 as (Hj & Hid2 & _).
      apply list_elem_of_lookup_2, elem_of_app in Hj as [Hin | Hin%list_elem_of_singleton].
      * intros Heq. by eapply (getNextVmId_not_reserved _ _ _ _ e2 Hr Hnext1).
      * subst e2. simpl in Hid2. congruence.
    + change (vmid entry <> id2).
      eapply getNextVmId_not_reserved; [| exact Hnext2 |].
      * reflexivity.
      * simpl. apply elem_of_app. right. by apply list_elem_of_singleton.
Qed.

Lemma reserveVmId_labels_apart_witness :
  fst (reserveVmId "vm" inventory_A "vm:id:web") = Return 100 /\
  fst (reserveVmId "vm" (snd (reserveVmId "vm" inventory_A "vm:id:web")) "vm:id:db")
    = Return 101 /\
  100 <> 101.
Proof.
  split; [reflexivity |]. split; [reflexivity |].
  apply (reserveVmId_labels_apart "vm" "vm" "vm:id:web" "vm:id:db" inventory_A 100 101).
  - discriminate.
  - simpl. apply NoDup_nil_2.
  - reflexivity.
  - reflexivity.
Defined.

Lemma set_reserved_same (inventory : Inventory) (r : Reserved) :
  reserved inventory = Some r -> set_reserved (Some r) inventory = inventory.
Proof. destruct inventory. simpl. by intros ->. Qed.

Lemma set_reserved_twice (r1 r2 : option Reserved) (inventory : Inventory) :
  set_reserved r1 (set_reserved r2 inventory) = set_reserved r1 inventory.
Proof. reflexivity. Qed.

Lemma set_vmids_same (r : Reserved) : set_vmids (vmids r) r = r.
Proof. by destruct r. Qed.

Lemma set_ips_same (r : Reserved) : set_ips (ips r) r = r.
Proof. by destruct r. Qed.

Lemma delete_snoc {A : Type} (l : list A) (x : A) : delete (length l) (l ++ [x])%list = l.
Proof. induction l as [|y l IH]; simpl; [done | by rewrite IH]. Qed.

Lemma list_find_snoc_fresh {A : Type} (P : A -> Prop) `{!forall x, Decision (P x)}
  (l : list A) (x : A) :
  list_find P l = None -> P x -> list_find P (l ++ [x])%list = Some (length l, x).
Proof.
  intros Hnone HP. apply list_find_app_Some. right.
  split; [lia |]. split; [done |].
  rewrite Nat.sub_diag. simpl. by rewrite decide_True.
Qed.

(** X3. Releasing what was just reserved gives the value back: after a
    reservation that returned, the release of the same [refId] returns
    that value; and when the [refId] was not bound before, the ledger
    is again what it was (with [reserved] initialised). *)
Theorem release_after_reserve
  (type networkName : string) (inventory : Inventory) (refId : string) :
  (forall id inventory1,
      reserveVmId type inventory refId = (Return id, inventory1) ->
      fst (releaseVmId inventory1 refId) = Return (Some id) /\
      (vmid_entries refId inventory = [] ->
       snd (releaseVmId inventory1 refId) = init_reserved inventory)) /\
  (forall a inventory1,
      reserveIpAddress networkName inventory refId = (Return a, inventory1) ->
      fst (releaseIpAddress inventory1 refId) = Return (Some a) /\
      (ip_entries refId inventory = [] ->
       snd (releaseIpAddress inventory1 refId) = init_reserved inventory)).
Proof.
  pose proof (reserved_init inventory) as Hr.
  split.
  - intros id inventory1 Hcall.
    apply reserveVmId_returns in Hcall as
      [(i & e & Hfind & <- & ->) | (Hfind & Hnext & ->)].
    + rewrite (releaseVmId_bound _ _ _ _ _ Hr Hfind). split; [done |].
      intros Hnone. exfalso.
      apply list_find_Some in Hfind as (Hi & He & _).
      assert (Hin : e ∈ vmid_entries refId inventory).
      { apply list_elem_of_filter. split; [done | by eapply list_elem_of_lookup_2]. }
      rewrite Hnone in Hin. by apply elem_of_nil in Hin.
    + set (entry := {| vmid := id; vmid_refId := refId |}).
      set (r := default empty_reserved (reserved inventory)) in *.
      assert (Hfind' : list_find (fun v => vmid_refId v = refId) (vmids r ++ [entry])%list
                       = Some (length (vmids r), entry))
        by (by apply list_find_snoc_fresh).
      erewrite releaseVmId_bound; [| reflexivity | exact Hfind'].
      split; [done |]. intros _. simpl.
      rewrite delete_snoc, set_reserved_twice.
      change (set_vmids (vmids r) (set_vmids (vmids r ++ [entry])%list r))
        with (set_vmids (vmids r) r).
      by rewrite set_vmids_same, set_reserved_same.
  - intros a inventory1 Hcall.
    apply reserveIpAddress_returns in Hcall as
      [(i & e & Hfind & <- & ->) | (Hfind & Hnext & ->)].
    + rewrite (releaseIpAddress_bound _ _ _ _ _ Hr Hfind). split; [done |].
      intros Hnone. exfalso.
      apply list_find_Some in Hfind as (Hi & He & _).
      assert (Hin : e ∈ ip_entries refId inventory).
      { apply list_elem_of_filter. split; [done | by eapply list_elem_of_lookup_2]. }
      rewrite Hnone in Hin. by apply elem_of_nil in Hin.
    + set (entry := {| ip := a; ip_refId := refId |}).
      set (r := default empty_reserved (reserved inventory)) in *.
      assert (Hfind' : list_find (fun e => ip_refId e = refId) (ips r ++ [entry])%list
                       = Some (length (ips r), entry))
        by (by apply list_find_snoc_fresh).
      erewrite releaseIpAddress_bound; [| reflexivity | exact Hfind'].
      split; [done |]. intros _. simpl.
      rewrite delete_snoc, set_reserved_twice.
      change (set_ips (ips r) (set_ips (ips r ++ [entry])%list r))
        with (set_ips (ips r) r).
      by rewrite set_ips_same, set_reserved_same.
Qed.

Lemma init_reserved_frame (inventory : Inventory) :
  set_reserved (reserved inventory) (init_reserved inventory) = inventory.
Proof.
  unfold init_reserved. destruct inventory as [p t h tp n [r|]]; reflexivity.
Qed.

Lemma after_only_appends (c : call) (inventory : Inventory) :
  let r := default empty_reserved (reserved inventory) in
  let r' := default empty_reserved (reserved (after c inventory)) in
  vmids r `prefix_of` vmids r' /\ ips r `prefix_of` ips r' /\
  set_reserved (reserved inventory) (after c inventory) = inventory.
Proof.
  pose proof (reserved_init inventory) as Hr.
  pose proof (init_reserved_frame inventory) as Hframe.
  destruct c as [type refId | networkName refId]; simpl.
  - destruct (reserveVmId_after type inventory refId)
      as [-> | (id & _ & _ & ->)].
    + rewrite Hr. done.
    + simpl. split; [by apply prefix_app_r |]. done.
  - destruct (reserveIpAddress_after networkName inventory refId)
      as [-> | (a & _ & ->)].
    + rewrite Hr. done.
    + simpl. split; [done |]. split; [by apply prefix_app_r | done].
Qed.

(** X4. Reserving only ever appends. After any sequence of reserve calls,
    returning or throwing, the two lists of the ledger start with the
    entries they had, in their order, and every other field of the
    inventory is what it was; a call that throws adds no entry. *)
Theorem reserve_calls_only_append (calls : list call) (inventory : Inventory) :
  let r := default empty_reserved (reserved inventory) in
  let r' := default empty_reserved (reserved (after_all calls inventory)) in
  (vmids r `prefix_of` vmids r' /\ ips r `prefix_of` ips r' /\
   set_reserved (reserved inventory) (after_all calls inventory) = inventory) /\
  (forall type refId e inventory',
      reserveVmId type inventory refId = (Throw e, inventory') ->
      inventory' = init_reserved inventory) /\
  (forall networkName refId e inventory',
      reserveIpAddress networkName inventory refId = (Throw e, inventory') ->
      inventory' = init_reserved inventory).
Proof.
  split; [| split].
  - revert inventory. induction calls as [|c calls IH]; intros inventory.
    + simpl. split; [done |]. split; [done |]. by destruct inventory.
    + simpl. destruct (IH (after c inventory)) as (Hv & Hi & Hf).
      destruct (after_only_appends c inventory) as (Hv0 & Hi0 & Hf0).
      split; [by etrans |]. split; [by etrans |].
      by rewrite <- (set_reserved_twice _ (reserved (after c inventory))), Hf, Hf0.
  - intros type refId e inventory'. unfold reserveVmId.
    rewrite reserved_init. simpl.
    destruct (list_find _ _) as [[i existing]|]; [discriminate |].
    destruct (getNextVmId _ _); [discriminate |]. by intros [= _ <-].
  - intros networkName refId e inventory'. unfold reserveIpAddress.
    rewrite reserved_init. simpl.
    destruct (list_find _ _) as [[i existing]|]; [discriminate |].
    destruct (getNextIpAddress _ _); [discriminate |]. by intros [= _ <-].
Qed.

(** ** Text to number and back *)

Lemma split_go_nonempty (sep s : string) (skip : nat) (cur : string) :
  split_go sep s skip cur <> [].
Proof.
  revert skip cur. induction s as [|x s IH]; intros skip cur; cbn [split_go]; [done |].
  destruct skip; [| apply IH]. destruct (String.prefix sep (String x s)); [done | apply IH].
Qed.

Lemma prefix_empty (s : string) : String.prefix "" s = true.
Proof. by destruct s. Qed.

Lemma join_cons (sep p : string) (rest : list string) :
  rest <> [] -> join sep (p :: rest) = p +:+ sep +:+ join sep rest.
Proof. by destruct rest. Qed.

(** Joining the pieces of a split on one character gives the string
    back. *)
Lemma join_split_go (c : ascii) (s cur : string) :
  join (String c "") (split_go (String c "") s 0 cur) = cur +:+ s.
Proof.
  revert cur. induction s as [|x s IH]; intros cur.
  - simpl. by rewrite append_empty.
  - cbn [split_go]. destruct (ascii_dec c x) as [<- | Hne].
    + rewrite prefix_head_same, prefix_empty. cbn [String.length Nat.sub].
      rewrite join_cons by apply split_go_nonempty.
      by rewrite IH.
    + rewrite prefix_head_differs by done.
      rewrite IH, append_assoc. reflexivity.
Qed.

Lemma join_split (c : ascii) (s : string) :
  join (String c "") (split (String c "") s) = s.
Proof. unfold split. by rewrite join_split_go. Qed.

Lemma digit_char_of_digit (c : ascii) :
  is_digit c = true -> digit_char (code c - 48) = c.
Proof.
  intros Hc%is_digit_code. unfold digit_char.
  replace (code c - 48 <? 10) with true by (symmetry; apply Z.ltb_lt; lia).
  replace (48 + (code c - 48)) with (code c) by lia.
  unfold code. rewrite N2Z.id. apply ascii_N_embedding.
Qed.

Lemma digit_value_of_digit (c : ascii) :
  is_digit c = true -> digit_value 10 c = Some (code c - 48).
Proof.
  intros Hc. unfold digit_value. cbv zeta. unfold is_digit in Hc. rewrite Hc.
  apply is_digit_code in Hc.
  by replace (code c - 48 <? 10) with true by (symmetry; apply Z.ltb_lt; lia).
Qed.

Lemma to_digits_last (radix : Z) (fuel : nat) (d : Z) (acc : string) :
  1 < radix -> 0 <= d < radix ->
  to_digits radix (S fuel) d acc = String (digit_char d) acc.
Proof.
  intros Hr Hd. cbn [to_digits]. rewrite Z.mod_small, Z.div_small by lia. reflexivity.
Qed.

Lemma to_digits_step (radix : Z) (fuel : nat) (m d : Z) (acc : string) :
  1 < radix -> 0 <= d < radix -> 0 < m ->
  to_digits radix (S fuel) (m * radix + d) acc =
  to_digits radix fuel m (String (digit_char d) acc).
Proof.
  intros Hr Hd Hm. cbn [to_digits].
  replace ((m * radix + d) mod radix) with d by
    (rewrite Z.add_comm, Z.mod_add, Z.mod_small by lia; reflexivity).
  replace ((m * radix + d) / radix) with m by
    (rewrite Z.add_comm, Z.div_add, Z.div_small by lia; lia).
  by replace (m =? 0) with false by (symmetry; apply Z.eqb_neq; lia).
Qed.

Lemma log2_fuel (v : Z) (k : nat) :
  2 ^ Z.of_nat k <= v -> exists f, Z.to_nat (Z.log2 v) = (k + f)%nat.
Proof.
  intros Hv. assert (0 < v) by (pose proof (Z.pow_pos_nonneg 2 (Z.of_nat k)); lia).
  apply Z.log2_le_pow2 in Hv; [| done].
  exists (Z.to_nat (Z.log2 v) - k)%nat. lia.
Qed.

(** A segment of a valid IPv4 address is the decimal numeral of the
    number it reads as. *)
Lemma isV4Seg_canonical (s : string) :
  isV4Seg s = true ->
  exists v, parseInt s 10 = Some v /\ 0 <= v <= 255 /\ toString 10 v = s.
Proof.
  intros Hseg. pose proof Hseg as Hseg0.
  unfold isV4Seg in Hseg. apply andb_prop in Hseg as [Hdigits Hshape].
  destruct s as [|c1 s]; [discriminate |].
  pose proof Hdigits as Hc1. cbn [forall_chars] in Hc1. apply andb_prop in Hc1 as [Hc1 Hrest].
  rewrite (parseInt_digit_head c1 s Hc1).
  pose proof (is_digit_code c1 Hc1) as Hcode1.
  destruct s as [|c2 [|c3 [|c4 s]]]; try discriminate.
  - exists (code c1 - 48). cbn [parse_digits]. rewrite digit_value_of_digit by done.
    cbn [default]. replace (10 * 0 + (code c1 - 48)) with (code c1 - 48) by lia.
    split; [rewrite to_double_Some; apply to_double_small; lia |]. split; [lia |].
    unfold toString. replace (code c1 - 48 <? 0) with false by (symmetry; apply Z.ltb_ge; lia).
    rewrite to_digits_last by lia. by rewrite digit_char_of_digit.
  - cbn [forall_chars] in Hrest. apply andb_prop in Hrest as [Hc2 _].
    pose proof (is_digit_code c2 Hc2) as Hcode2.
    apply andb_prop in Hshape as [Hz%negb_true_iff%Z.eqb_neq Hv].
    cbn [parse_digits] in Hv |- *. rewrite !digit_value_of_digit in Hv |- * by done.
    cbn [default parse_digits] in Hv |- *. unfold id in Hv |- *.
    set (d1 := code c1 - 48) in *. set (d2 := code c2 - 48) in *.
    assert (1 <= d1 <= 9 /\ 0 <= d2 <= 9) as [Hd1 Hd2] by (subst d1 d2; lia).
    apply Z.leb_le in Hv.
    exists (10 * (10 * 0 + d1) + d2). split; [rewrite to_double_Some; apply to_double_small; lia |]. split; [lia |].
    unfold toString.
    replace (10 * (10 * 0 + d1) + d2 <? 0) with false by (symmetry; apply Z.ltb_ge; lia).
    destruct (log2_fuel (10 * (10 * 0 + d1) + d2) 1) as [f ->]; [simpl; lia |].
    replace (10 * (10 * 0 + d1) + d2) with (d1 * 10 + d2) by lia.
    change (S (1 + f)) with (S (S f)).
    rewrite to_digits_step, to_digits_last by lia.
    subst d1 d2. by rewrite !digit_char_of_digit.
  - cbn [forall_chars] in Hrest. apply andb_prop in Hrest as [Hc2 Hrest].
    apply andb_prop in Hrest as [Hc3 _].
    pose proof (is_digit_code c2 Hc2) as Hcode2.
    pose proof (is_digit_code c3 Hc3) as Hcode3.
    apply andb_prop in Hshape as [Hz%negb_true_iff%Z.eqb_neq Hv].
    cbn [parse_digits] in Hv |- *. rewrite !digit_value_of_digit in Hv |- * by done.
    cbn [default parse_digits] in Hv |- *. unfold id in Hv |- *.
    set (d1 := code c1 - 48) in *. set (d2 := code c2 - 48) in *.
    set (d3 := code c3 - 48) in *.
    assert (1 <= d1 <= 9 /\ 0 <= d2 <= 9 /\ 0 <= d3 <= 9) as (Hd1 & Hd2 & Hd3)
      by (subst d1 d2 d3; lia).
    apply Z.leb_le in Hv.
    exists (10 * (10 * (10 * 0 + d1) + d2) + d3). split; [rewrite to_double_Some; apply to_double_small; lia |]. split; [lia |].
    unfold toString.
    replace (10 * (10 * (10 * 0 + d1) + d2) + d3 <? 0) with false
      by (symmetry; apply Z.ltb_ge; lia).
    destruct (log2_fuel (10 * (10 * (10 * 0 + d1) + d2) + d3) 2) as [f ->]; [simpl; lia |].
    replace (10 * (10 * (10 * 0 + d1) + d2) + d3) with ((d1 * 10 + d2) * 10 + d3) by lia.
    change (S (2 + f)) with (S (S (S f))).
    rewrite to_digits_step, to_digits_step, to_digits_last by lia.
    subst d1 d2 d3. by rewrite !digit_char_of_digit.
Qed.

Lemma octets_of_sum (a b c d : Z) :
  0 <= a <= 255 -> 0 <= b <= 255 -> 0 <= c <= 255 -> 0 <= d <= 255 ->
  let n := Z.shiftl (Z.shiftl (Z.shiftl (Z.shiftl 0 8 + a) 8 + b) 8 + c) 8 + d in
  0 <= n < 2 ^ 32 /\
  Z.land (Z.shiftr n 24) 255 = a /\ Z.land (Z.shiftr n 16) 255 = b /\
  Z.land (Z.shiftr n 8) 255 = c /\ Z.land n 255 = d.
Proof.
  intros Ha Hb Hc Hd. cbv zeta.
  change 255 with (Z.ones 8).
  rewrite !Z.land_ones, !Z.shiftr_div_pow2, !Z.shiftl_mul_pow2 by lia.
  change (2 ^ 8) with 256. change (2 ^ 16) with 65536. change (2 ^ 24) with 16777216.
  change (2 ^ 32) with 4294967296.
  repeat split; try lia; Z.div_mod_to_equations; lia.
Qed.

(** X5. A valid IPv4 address survives the trip through its number: the
    allocator reads it as a number below 2^32 and writes that number
    as the same text. *)
Theorem ipv4_text_roundtrip (a : string) :
  isIP a = 4 ->
  exists n, ipv4ToBig a = Return n /\ 0 <= n < 2 ^ 32 /\ bigToIpv4 n = a.
Proof.
  unfold isIP. destruct (isIPv4 a) eqn:Hv4; [intros _ | by destruct (isIPv6 a)].
  unfold isIPv4 in Hv4. unfold ipv4ToBig.
  pose proof (join_split "." a) as Hjoin.
  destruct (split "." a) as [|s1 [|s2 [|s3 [|s4 [|s5 l]]]]]; try discriminate.
  apply andb_prop in Hv4 as [[[H1 H2]%andb_prop H3]%andb_prop H4].
  destruct (isV4Seg_canonical s1 H1) as (v1 & E1 & B1 & T1).
  destruct (isV4Seg_canonical s2 H2) as (v2 & E2 & B2 & T2).
  destruct (isV4Seg_canonical s3 H3) as (v3 & E3 & B3 & T3).
  destruct (isV4Seg_canonical s4 H4) as (v4 & E4 & B4 & T4).
  cbn [reduce bind BigInt]. rewrite E1. cbn [reduce bind BigInt]. rewrite E2.
  cbn [reduce bind BigInt]. rewrite E3. cbn [reduce bind BigInt]. rewrite E4.
  cbn [reduce bind BigInt].
  destruct (octets_of_sum v1 v2 v3 v4 B1 B2 B3 B4) as (Hn & O1 & O2 & O3 & O4).
  eexists. split; [reflexivity |]. split; [exact Hn |].
  unfold bigToIpv4. rewrite O1, O2, O3, O4, T1, T2, T3, T4. exact Hjoin.
Qed.

Lemma ipv4_text_roundtrip_witness :
  isIP "10.0.0.5" = 4 /\
  exists n, ipv4ToBig "10.0.0.5" = Return n /\ 0 <= n < 2 ^ 32 /\ bigToIpv4 n = "10.0.0.5".
Proof.
  assert (H : isIP "10.0.0.5" = 4) by reflexivity.
  split; [exact H | exact (ipv4_text_roundtrip "10.0.0.5" H)].
Defined.

(** ** What the allocator returns, and why it throws *)

Lemma hextet_any (m : Z) : 0 <= Z.land m 65535 < 65536.
Proof.
  change 65535 with (Z.ones 16). rewrite Z.land_ones by lia.
  apply Z.mod_pos_bound. lia.
Qed.

(** Whatever the number, [bigToIpv6] writes eight groups in full: a
    valid IPv6 address without [::]. *)
Lemma bigToIpv6_form (n : Z) :
  isIP (bigToIpv6 n) = 6 /\ includes "::" (bigToIpv6 n) = false /\
  length (split ":" (bigToIpv6 n)) = 8%nat.
Proof.
  unfold bigToIpv6. cbn [ipv6_parts].
  set (n1 := Z.shiftr n 16). set (n2 := Z.shiftr n1 16).
  set (n3 := Z.shiftr n2 16). set (n4 := Z.shiftr n3 16).
  set (n5 := Z.shiftr n4 16). set (n6 := Z.shiftr n5 16).
  set (n7 := Z.shiftr n6 16).
  destruct (hextet_string _ (hextet_any n)) as (S0 & E0 & C0 & D0 & P0 & _).
  destruct (hextet_string _ (hextet_any n1)) as (S1 & E1 & C1 & D1 & P1 & _).
  destruct (hextet_string _ (hextet_any n2)) as (S2 & E2 & C2 & D2 & P2 & _).
  destruct (hextet_string _ (hextet_any n3)) as (S3 & E3 & C3 & D3 & P3 & _).
  destruct (hextet_string _ (hextet_any n4)) as (S4 & E4 & C4 & D4 & P4 & _).
  destruct (hextet_string _ (hextet_any n5)) as (S5 & E5 & C5 & D5 & P5 & _).
  destruct (hextet_string _ (hextet_any n6)) as (S6 & E6 & C6 & D6 & P6 & _).
  destruct (hextet_string _ (hextet_any n7)) as (S7 & E7 & C7 & D7 & P7 & _).
  cbv zeta in *.
  set (g0 := toString 16 (Z.land n 65535)) in *.
  set (g1 := toString 16 (Z.land n1 65535)) in *.
  set (g2 := toString 16 (Z.land n2 65535)) in *.
  set (g3 := toString 16 (Z.land n3 65535)) in *.
  set (g4 := toString 16 (Z.land n4 65535)) in *.
  set (g5 := toString 16 (Z.land n5 65535)) in *.
  set (g6 := toString 16 (Z.land n6 65535)) in *.
  set (g7 := toString 16 (Z.land n7 65535)) in *.
  clearbody g0 g1 g2 g3 g4 g5 g6 g7.
  set (groups := [g7; g6; g5; g4; g3; g2; g1; g0]).
  assert (Hsplit : split ":" (join ":" groups) = groups).
  { apply (split_join ":"); [done |]. subst groups. cbn [forallb].
    by rewrite C0, C1, C2, C3, C4, C5, C6, C7. }
  assert (Hnone : includes "::" (join ":" groups) = false).
  { apply includes_join. subst groups. by repeat constructor. }
  assert (Hwhole : split "::" (join ":" groups) = [join ":" groups]).
  { unfold split. by rewrite split_absent. }
  assert (Hdots : split "." (join ":" groups) = [join ":" groups]).
  { unfold split. rewrite (split_last "."); [done |].
    apply free_of_join; [done |]. subst groups. cbn [forallb].
    by rewrite D0, D1, D2, D3, D4, D5, D6, D7. }
  assert (Hzone : split "%" (join ":" groups) = [join ":" groups]).
  { unfold split. rewrite (split_last "%"); [done |].
    apply free_of_join; [done |]. subst groups. cbn [forallb].
    by rewrite P0, P1, P2, P3, P4, P5, P6, P7. }
  split; [| split; [exact Hnone | by rewrite Hsplit]].
  unfold isIP, isIPv4, isIPv6. rewrite Hdots, Hzone, Hwhole, Hsplit.
  subst groups. cbn [v6_groups]. by rewrite S0, S1, S2, S3, S4, S5, S6, S7.
Qed.

(** X6. Whatever [getNextIpAddress] returns is a valid address of the
    family of the range's start, followed by [/] and the prefix
    length when the subnet has one. An IPv6 address is written in
    full: eight groups, never [::]. *)
Theorem getNextIpAddress_returns_address
  (networkName : string) (inventory : Inventory) (a : string) :
  getNextIpAddress networkName inventory = Return a ->
  exists netCfg address,
    List.find (fun n => bool_decide (name n = networkName)) (networks inventory)
      = Some netCfg /\
    a = (if String.eqb (prefix_length netCfg) "" then address
         else address +:+ "/" +:+ prefix_length netCfg) /\
    isIP address <> 0 /\
    isIP address = isIP (start (static_range netCfg)) /\
    isIP address = isIP (end_ (static_range netCfg)) /\
    (isIP address = 6 ->
     includes "::" address = false /\ length (split ":" address) = 8%nat).
Proof.
  unfold getNextIpAddress.
  destruct (List.find _ _) as [netCfg|]; [| discriminate].
  destruct (_ || _); [discriminate |].
  destruct (Z.eqb_spec (isIP (start (static_range netCfg))) 0) as [? | Hv];
    [discriminate |].
  destruct (Z.eqb_spec (isIP (start (static_range netCfg)))
              (isIP (end_ (static_range netCfg)))) as [Hsame | ?]; [| discriminate].
  cbn [negb orb].
  set (version := isIP (start (static_range netCfg))) in *.
  destruct (toBig version (start _)) as [startBig|] eqn:Hs; [| discriminate].
  destruct (toBig version (end_ _)) as [endBig|] eqn:He; [| discriminate].
  cbn [bind]. destruct (startBig >? endBig); [discriminate |].
  destruct (used_ips _ _ _ _) as [used|]; [| discriminate]. cbn [bind].
  destruct (first_unused used startBig endBig) as [ipBig|] eqn:Hscan; [| discriminate].
  intros [= <-]. apply first_unused_Some in Hscan as (Hrange & _).
  exists netCfg, (fromBig version ipBig). split; [done |]. split; [done |].
  assert (Hfam : isIP (fromBig version ipBig) = version /\
                 (version = 6 -> includes "::" (fromBig version ipBig) = false /\
                                 length (split ":" (fromBig version ipBig)) = 8%nat)).
  { destruct (isIP_cases (start (static_range netCfg))) as [? | [H4 | H6]]; [done | |];
      fold version in H4 || fold version in H6.
    - split; [| lia]. rewrite H4 in *. unfold fromBig. change (4 =? 4) with true. cbv iota.
      destruct (ipv4ToBig_valid _ H4) as (s & Es & Hs4).
      destruct (ipv4ToBig_valid (end_ (static_range netCfg))) as (e & Ee & He4);
        [congruence |].
      unfold toBig in Hs, He. change (4 =? 4) with true in Hs, He. cbv iota in Hs, He.
      rewrite Es in Hs. rewrite Ee in He. injection Hs as <-. injection He as <-.
      apply ipv4_roundtrip. lia.
    - rewrite H6 in *. unfold fromBig. change (6 =? 4) with false. cbv iota.
      destruct (bigToIpv6_form ipBig) as (? & ? & ?). done. }
  destruct Hfam as [Hfam H6]. rewrite Hfam.
  split; [done |]. split; [done |]. split; [done |]. exact H6.
Qed.

Lemma getNextIpAddress_returns_address_witness :
  getNextIpAddress "lan" inventory_A = Return "10.0.0.2" /\
  exists netCfg address,
    List.find (fun n => bool_decide (name n = "lan")) (networks inventory_A)
      = Some netCfg /\
    "10.0.0.2" = (if String.eqb (prefix_length netCfg) "" then address
                  else address +:+ "/" +:+ prefix_length netCfg) /\
    isIP address <> 0 /\
    isIP address = isIP (start (static_range netCfg)) /\
    isIP address = isIP (end_ (static_range netCfg)) /\
    (isIP address = 6 ->
     includes "::" address = false /\ length (split ":" address) = 8%nat).
Proof.
  assert (H : getNextIpAddress "lan" inventory_A = Return "10.0.0.2") by reflexivity.
  split; [exact H | exact (getNextIpAddress_returns_address "lan" inventory_A _ H)].
Defined.

Lemma eqb_empty_false (s : string) : String.eqb s "" = false <-> s <> "".
Proof. apply String.eqb_neq. Qed.

Lemma reduce_throws {A B : Type} (f : B -> A -> result B) (l : list A) (acc : B) (e : exn) :
  (forall b a e', f b a = Throw e' -> e' = RangeError) ->
  reduce f l acc = Throw e -> e = RangeError.
Proof.
  intros Hf. revert acc. induction l as [|a l IH]; intros acc; cbn [reduce]; [discriminate |].
  destruct (f acc a) as [b|e'] eqn:Hfa; cbn [bind].
  - apply IH.
  - intros [= <-]. by eapply Hf.
Qed.

Lemma BigInt_throws (x : option Z) (e : exn) : BigInt x = Throw e -> e = RangeError.
Proof. destruct x; [discriminate | by intros [= <-]]. Qed.

(** The conversions throw nothing but the [RangeError] of [BigInt]
    and [Array]. *)
Lemma toBig_throws (version : Z) (a : string) (e : exn) :
  toBig version a = Throw e -> e = RangeError.
Proof.
  unfold toBig, ipv4ToBig, ipv6ToBig. destruct (version =? 4).
  - apply reduce_throws. intros b x e'.
    destruct (BigInt _) eqn:Hb; [discriminate |]. cbn [bind]. intros [= <-].
    by eapply BigInt_throws.
  - destruct (expandIpv6 a) as [parts|e'] eqn:Hx; cbn [bind].
    + apply reduce_throws. intros b x e''.
      destruct (BigInt _) eqn:Hb; [discriminate |]. cbn [bind]. intros [= <-].
      by eapply BigInt_throws.
    + intros [= <-]. unfold expandIpv6 in Hx.
      destruct (includes "::" a); [| discriminate].
      destruct (_ <? 0); [by injection Hx | discriminate].
Qed.

Lemma add_ip_throws (version : Z) (cond : bool) (a : string) (used : gset Z) (e : exn) :
  add_ip version cond a used = Throw e -> e = RangeError.
Proof.
  unfold add_ip. destruct cond; [| discriminate].
  destruct (toBig version a) eqn:Hb; [discriminate |]. cbn [bind]. intros [= <-].
  by eapply toBig_throws.
Qed.

Lemma used_ips_throws (version : Z) (networkName : string) (netCfg : Network)
  (inventory : Inventory) (e : exn) :
  used_ips version networkName netCfg inventory = Throw e -> e = RangeError.
Proof.
  unfold used_ips.
  destruct (add_ip _ _ (gateway netCfg) _) as [u1|e1] eqn:H1; cbn [bind];
    [| intros [= <-]; by eapply add_ip_throws].
  destruct (add_ip _ _ (dns netCfg) _) as [u2|e2] eqn:H2; cbn [bind];
    [| intros [= <-]; by eapply add_ip_throws].
  apply reduce_throws. intros b i e'. apply add_ip_throws.
Qed.

(** ** The lowest unused address *)

(** A numeral of [k] digits that continues the number [a] reads as a
    number between [a] and [a + 1] shifted by [k] digits. *)
Lemma parse_digits_range (radix : Z) (s : string) (a : Z) :
  1 < radix -> forall_chars (is_below radix) s = true -> 0 <= a ->
  exists v, parse_digits radix s (Some a) = Some v /\
            a * radix ^ Z.of_nat (String.length s) <= v
              < (a + 1) * radix ^ Z.of_nat (String.length s).
Proof.
  intros Hr. revert a. induction s as [|c s IH]; intros a Hs Ha.
  - exists a. split; [done |]. simpl. lia.
  - cbn [forall_chars] in Hs. apply andb_prop in Hs as [Hc Hs].
    unfold is_below in Hc. destruct (digit_value radix c) as [d|] eqn:Hd; [| discriminate].
    apply digit_value_nonneg in Hd as Hdr.
    cbn [parse_digits]. rewrite Hd. cbn [default].
    destruct (IH (radix * a + d) Hs ltac:(nia)) as (v & Hv & Hrange).
    exists v. split; [done |].
    cbn [String.length]. rewrite Nat2Z.inj_succ, Z.pow_succ_r by lia.
    assert (0 < radix ^ Z.of_nat (String.length s)) by (apply Z.pow_pos_nonneg; lia).
    nia.
Qed.

Lemma is_digit_below (c : ascii) : is_digit c = true -> is_below 10 c = true.
Proof.
  intros Hc. pose proof (is_digit_code c Hc) as Hcode.
  unfold is_below, digit_value. cbv zeta. unfold is_digit in Hc. rewrite Hc.
  by replace (code c - 48 <? 10) with true by (symmetry; apply Z.ltb_lt; lia).
Qed.

(** A segment of a dotted quad is a decimal numeral, and [parseInt]
    reads the number it stands for. *)
Lemma isV4Seg_value (s : string) :
  isV4Seg s = true ->
  exists v, parseInt s 10 = Some v /\ numeral 10 s = Some v /\ 0 <= v <= 255.
Proof.
  intros Hseg. destruct (isV4Seg_parse s Hseg) as (v & Hv & Hrange).
  exists v. split; [done |]. split; [| done].
  unfold isV4Seg in Hseg. apply andb_prop in Hseg as [Hdigits Hshape].
  assert (Hbelow : forall_chars (is_below 10) s = true)
    by (revert Hdigits; apply forall_chars_impl, is_digit_below).
  unfold numeral. rewrite Hbelow.
  destruct s as [|c s]; [discriminate |].
  pose proof Hdigits as Hc. cbn [forall_chars] in Hc. apply andb_prop in Hc as [Hc _].
  rewrite (parseInt_digit_head c s Hc) in Hv.
  assert (Hlen : (String.length s <= 2)%nat)
    by (destruct s as [|? [|? [|? ?]]]; simpl; first [lia | discriminate]).
  pose proof Hbelow as Hb. cbn [forall_chars] in Hb. apply andb_prop in Hb as [Hb Hs].
  unfold is_below in Hb. destruct (digit_value 10 c) as [d|] eqn:Hd; [| discriminate].
  apply digit_value_nonneg in Hd as Hdr.
  destruct (parse_digits_range 10 s d ltac:(lia) Hs ltac:(lia)) as (w & Hw & Hwr).
  assert (Hparse : parse_digits 10 (String c s) None = Some w).
  { cbn [parse_digits]. rewrite Hd. cbn [default].
    by replace (10 * 0 + d) with d by lia. }
  assert (10 ^ Z.of_nat (String.length s) <= 10 ^ 2) by (apply Z.pow_le_mono_r; lia).
  rewrite Hparse, to_double_Some, to_double_small in Hv by (change (2 ^ 53) with 9007199254740992; nia).
  congruence.
Qed.

(** A group of an IPv6 address is a hexadecimal numeral of a 16-bit
    word, and [parseInt] reads the number it stands for. *)
Lemma isV6Seg_value (p : string) :
  isV6Seg p = true ->
  exists w, parseInt p 16 = Some w /\ numeral 16 p = Some w /\ 0 <= w < 65536 /\ p <> "".
Proof.
  unfold isV6Seg. intros [[Hhex Hlo%Z.leb_le]%andb_prop Hhi%Z.leb_le]%andb_prop.
  change is_hex with (is_below 16) in Hhex.
  destruct p as [|c s]; [simpl in Hlo; lia |].
  pose proof Hhex as Hall.
  cbn [forall_chars] in Hhex. apply andb_prop in Hhex as [Hc Hs].
  pose proof (is_below_code _ _ Hc) as Hcode.
  unfold is_below in Hc. destruct (digit_value 16 c) as [d|] eqn:Hd; [| discriminate].
  apply digit_value_nonneg in Hd as Hdr.
  destruct (parse_digits_range 16 s d ltac:(lia) Hs ltac:(lia)) as (v & Hv & Hrange).
  assert (Hparse : parse_digits 16 (String c s) None = Some v).
  { cbn [parse_digits]. rewrite Hd. cbn [default].
    by replace (16 * 0 + d) with d by lia. }
  assert (Hsmall : 0 <= v < 65536).
  { cbn [String.length] in Hhi.
    assert (16 ^ Z.of_nat (String.length s) <= 16 ^ 3) by (apply Z.pow_le_mono_r; lia).
    assert (0 < 16 ^ Z.of_nat (String.length s)) by (apply Z.pow_pos_nonneg; lia).
    nia. }
  exists v. split; [| split; [| done]].
  - rewrite parseInt_plain.
    + rewrite Hparse, to_double_Some. apply to_double_small.
      change (2 ^ 53) with 9007199254740992. lia.
    + lia.
    + intros x s' ->. cbn [forall_chars] in Hs. apply andb_prop in Hs as [Hx _].
      apply is_below_code in Hx. lia.
  - unfold numeral. by rewrite Hall.
Qed.

(** The pieces of a string free of a character are free of it. *)
Lemma split_go_free (c : ascii) (sep s : string) (skip : nat) (cur : string) :
  free_of c s = true -> free_of c cur = true ->
  Forall (fun p => free_of c p = true) (split_go sep s skip cur).
Proof.
  revert skip cur. induction s as [|x s IH]; intros skip cur Hs Hcur.
  - by constructor.
  - unfold free_of in Hs. cbn [forall_chars] in Hs. apply andb_prop in Hs as [Hx Hs].
    cbn [split_go]. destruct skip as [|k]; [| by apply IH].
    destruct (String.prefix sep (String x s)).
    + constructor; [done |]. by apply IH.
    + apply IH; [done |]. unfold free_of in *. rewrite forall_chars_app.
      cbn [forall_chars]. by rewrite Hcur, Hx.
Qed.

Lemma split_free (c : ascii) (sep s : string) :
  free_of c s = true -> Forall (fun p => free_of c p = true) (split sep s).
Proof. intros Hs. by apply split_go_free. Qed.

(** One piece only: the separator does not occur. *)
Lemma split_go_single (sep s cur x : string) :
  sep <> "" -> split_go sep s 0 cur = [x] -> includes sep s = false.
Proof.
  intros Hsep. revert cur. induction s as [|c s IH]; intros cur Hx.
  - destruct sep; [done | reflexivity].
  - cbn [split_go] in Hx. cbn [includes].
    destruct (String.prefix sep (String c s)) eqn:Hp.
    + injection Hx as _ Hrest. by apply split_go_nonempty in Hrest.
    + cbn [orb]. by apply (IH _ Hx).
Qed.

Lemma isIPv4_has_dot (p : string) : free_of "." p = true -> isIPv4 p = false.
Proof. intros Hp. unfold isIPv4, split. by rewrite (split_last "." p "" Hp). Qed.

(** Groups without a dot are hexadecimal groups. *)
Lemma v6_groups_plain (parts : list string) (k : Z) :
  Forall (fun p => free_of "." p = true) parts -> v6_groups parts = Some k ->
  forallb isV6Seg parts = true /\ k = Z.of_nat (length parts).
Proof.
  revert k. induction parts as [|p parts IH]; intros k Hfree Hk.
  - by injection Hk as <-.
  - apply Forall_cons in Hfree as [Hp Hfree].
    destruct parts as [|q rest].
    + cbn [v6_groups] in Hk. destruct (isV6Seg p) eqn:Hseg.
      * injection Hk as <-. cbn [forallb]. by rewrite Hseg.
      * rewrite (isIPv4_has_dot p Hp) in Hk. discriminate.
    + change (v6_groups (p :: q :: rest))
        with (if isV6Seg p then Z.succ <$> v6_groups (q :: rest) else None) in Hk.
      destruct (isV6Seg p) eqn:Hseg; [| discriminate].
      destruct (v6_groups (q :: rest)) as [k'|] eqn:Hk'; [| discriminate].
      injection Hk as <-. destruct (IH k' Hfree eq_refl) as [Hall ->].
      split; [| cbn [length]; lia].
      change (forallb isV6Seg (p :: q :: rest))
        with (isV6Seg p && forallb isV6Seg (q :: rest)).
      by rewrite Hseg, Hall.
Qed.

(** On hexadecimal groups the code and the specification read the
    same words, and no group is empty. *)
Lemma words_hex (parts : list string) :
  forallb isV6Seg parts = true ->
  exists ws, words parts = Some ws /\
    (fun p => parseInt p 16) <$> (or_zero <$> parts) = Some <$> ws /\
    length ws = length parts /\ Forall (fun w => 0 <= w < 65536) ws /\
    filter (fun p => p <> "") parts = parts.
Proof.
  induction parts as [|p parts IH]; intros Hall.
  - by exists [].
  - cbn [forallb] in Hall. apply andb_prop in Hall as [Hp Hall].
    destruct (isV6Seg_value p Hp) as (w & Hparse & Hnum & Hw & Hne).
    destruct (IH Hall) as (ws & Hws & Hcode & Hlen & Hrange & Hfilter).
    exists (w :: ws).
    split.
    { destruct parts as [|q rest].
      - cbn [words] in *. rewrite Hnum. by injection Hws as <-.
      - change (words (p :: q :: rest))
          with (w ← numeral 16 p; ws ← words (q :: rest); Some (w :: ws)).
        by rewrite Hnum, Hws. }
    split; [rewrite !fmap_cons, or_zero_group, Hparse, Hcode by done; done |].
    split; [cbn [length]; by rewrite Hlen |].
    split; [by constructor |].
    rewrite filter_cons_True by done. by rewrite Hfilter.
Qed.

Lemma reduce_words (ws : list Z) (acc : Z) :
  reduce (fun acc part => v <- BigInt part ;; Return (Z.shiftl acc 16 + v))
         (Some <$> ws) acc
  = Return (foldl (fun acc w => acc * 65536 + w) acc ws).
Proof.
  revert acc. induction ws as [|w ws IH]; intros acc; [done |].
  rewrite fmap_cons. cbn [reduce BigInt bind foldl]. rewrite IH.
  by rewrite Z.shiftl_mul_pow2 by lia.
Qed.

Lemma words_number_range (ws : list Z) (acc : Z) (k : nat) :
  Forall (fun w => 0 <= w < 65536) ws -> 0 <= acc < 65536 ^ Z.of_nat k ->
  0 <= foldl (fun acc w => acc * 65536 + w) acc ws < 65536 ^ Z.of_nat (k + length ws).
Proof.
  intros Hws. revert acc k. induction Hws as [|w ws Hw Hws IH]; intros acc k Hacc.
  - cbn [foldl length]. by rewrite Nat.add_0_r.
  - cbn [foldl length]. replace (k + S (length ws))%nat with (S k + length ws)%nat by lia.
    apply IH. rewrite Nat2Z.inj_succ, Z.pow_succ_r by lia. lia.
Qed.

(** An IPv6 address in plain form: the code reads the number it
    stands for. *)
Lemma ipv6_plain_number (a : string) :
  isIPv6 a = true -> free_of "." a = true -> free_of "%" a = true ->
  exists n, ipv6ToBig a = Return n /\ ipv6_number a = Some n /\ 0 <= n < 2 ^ 128.
Proof.
  intros Hv6 Hdot Hzone.
  assert (Hpct : split "%" a = [a]) by (unfold split; by rewrite (split_last "%")).
  unfold isIPv6 in Hv6. rewrite Hpct in Hv6. cbn [andb] in Hv6.
  unfold ipv6_number, ipv6ToBig, expandIpv6. rewrite Hpct. cbn [hd].
  pose proof (split_free "." "::" a Hdot) as Hpieces.
  destruct (split "::" a) as [|l [|r [|x rest]]] eqn:Hsp; try discriminate.
  - apply split_go_single in Hsp as Hinc; [| done]. rewrite Hinc.
    assert (l = a) as ->.
    { unfold split in Hsp. rewrite split_absent in Hsp by done. by injection Hsp as <-. }
    destruct (v6_groups (split ":" a)) as [k|] eqn:Hk; [| discriminate].
    apply Z.eqb_eq in Hv6 as ->.
    apply v6_groups_plain in Hk as [Hall Hlen]; [| by apply split_free].
    destruct (words_hex _ Hall) as (ws & Hws & Hcode & Hlen' & Hrange & _).
    rewrite Hws. cbn [bind mbind option_bind]. rewrite Hcode, reduce_words.
    eexists. split; [reflexivity |]. split; [reflexivity |].
    pose proof (words_number_range ws 0 0 Hrange ltac:(simpl; lia)) as Hn.
    replace (0 + length ws)%nat with 8%nat in Hn by lia. exact Hn.
  - assert (Hinc : includes "::" a = true).
    { destruct (includes "::" a) eqn:Hinc; [done |].
      unfold split in Hsp. rewrite split_absent in Hsp by done. discriminate. }
    rewrite Hinc. cbn [nth].
    apply Forall_cons in Hpieces as [Hl Hpieces]. apply Forall_cons in Hpieces as [Hr _].
    destruct (v6_hex_groups (v6_side l)) as [ka|] eqn:Hka; [| discriminate].
    destruct (v6_groups (v6_side r)) as [kb|] eqn:Hkb; [| discriminate].
    apply Z.leb_le in Hv6.
    unfold v6_hex_groups in Hka.
    destruct (forallb isV6Seg (v6_side l)) eqn:Hall_l; [| discriminate].
    injection Hka as <-.
    apply v6_groups_plain in Hkb as [Hall_r ->];
      [| unfold v6_side; destruct (decide (r = "")); [constructor | by apply split_free]].
    destruct (words_hex _ Hall_l) as (lw & Hlw & Hcode_l & Hlen_l & Hrange_l & Hfil_l).
    destruct (words_hex _ Hall_r) as (rw & Hrw & Hcode_r & Hlen_r & Hrange_r & Hfil_r).
    assert (Hne_l : nonempty_parts l = v6_side l).
    { unfold nonempty_parts, v6_side in *. by destruct (decide (l = "")). }
    assert (Hne_r : nonempty_parts r = v6_side r).
    { unfold nonempty_parts, v6_side in *. by destruct (decide (r = "")). }
    rewrite Hne_l, Hne_r, Hlw, Hrw. cbn [mbind option_bind].
    replace (8 - Z.of_nat (length (v6_side l) + length (v6_side r)) <? 0) with false
      by (symmetry; apply Z.ltb_ge; lia).
    cbn [bind]. rewrite !fmap_app, !fmap_replicate, Hcode_l, Hcode_r.
    change (parseInt (or_zero "0") 16) with (Some 0).
    replace (Z.to_nat (8 - Z.of_nat (length (v6_side l) + length (v6_side r))))
      with (8 - length lw - length rw)%nat by lia.
    rewrite <- (fmap_replicate Some _ 0), <- !fmap_app, reduce_words.
    eexists. split; [reflexivity |]. split; [reflexivity |].
    assert (Hrange : Forall (fun w => 0 <= w < 65536)
                       (lw ++ replicate (8 - length lw - length rw) 0 ++ rw)).
    { apply Forall_app. split; [done |]. apply Forall_app. split; [| done].
      apply Forall_replicate. lia. }
    pose proof (words_number_range _ 0 0 Hrange ltac:(simpl; lia)) as Hn.
    rewrite !length_app, length_replicate in Hn.
    replace (0 + _)%nat with 8%nat in Hn by lia. exact Hn.
Qed.

(** A dotted quad: the code reads the number it stands for. *)
Lemma ipv4_number (a : string) :
  isIPv4 a = true ->
  exists n, ipv4ToBig a = Return n /\ quad_number a = Some n /\ 0 <= n < 2 ^ 32.
Proof.
  intros Hv4. unfold isIPv4 in Hv4. unfold ipv4ToBig, quad_number.
  destruct (split "." a) as [|s1 [|s2 [|s3 [|s4 [|s5 l]]]]]; try discriminate.
  apply andb_prop in Hv4 as [[[H1 H2]%andb_prop H3]%andb_prop H4].
  destruct (isV4Seg_value s1 H1) as (v1 & E1 & N1 & ?).
  destruct (isV4Seg_value s2 H2) as (v2 & E2 & N2 & ?).
  destruct (isV4Seg_value s3 H3) as (v3 & E3 & N3 & ?).
  destruct (isV4Seg_value s4 H4) as (v4 & E4 & N4 & ?).
  cbn [reduce bind BigInt]. rewrite E1. cbn [reduce bind BigInt]. rewrite E2.
  cbn [reduce bind BigInt]. rewrite E3. cbn [reduce bind BigInt]. rewrite E4.
  cbn [reduce bind BigInt]. rewrite N1, N2, N3, N4. cbn [mbind option_bind].
  eexists. split; [reflexivity |]. rewrite !Z.shiftl_mul_pow2 by lia.
  change (2 ^ 8) with 256. change (2 ^ 32) with 4294967296.
  split; [f_equal; lia | lia].
Qed.

(** On an address in plain form the conversion of the code gives the
    number the address stands for. *)
Lemma plain_number (version : Z) (a : string) :
  version <> 0 -> plain version a ->
  exists n, toBig version a = Return n /\ address_number a = Some n /\
            0 <= n < family_size version.
Proof.
  intros Hv [Hip Hplain]. unfold isIP in Hip. unfold address_number, toBig, family_size.
  destruct (isIPv4 a) eqn:Hv4.
  - subst version. change (4 =? 4) with true. cbv iota. by apply ipv4_number.
  - destruct (isIPv6 a) eqn:Hv6; [| congruence].
    subst version. change (6 =? 4) with false. cbv iota.
    destruct (Hplain eq_refl) as [Hdot Hzone]. by apply ipv6_plain_number.
Qed.

Lemma plain_readable (version : Z) (a : string) :
  version <> 0 -> plain version a -> readable version a.
Proof.
  intros Hv Hp. destruct (plain_number version a Hv Hp) as (n & Hn & _).
  split; [apply Hp | by exists n].
Qed.

Lemma plain_same_family (version : Z) (networkName : string) (netCfg : Network)
  (inventory : Inventory) :
  version <> 0 -> plain_network version networkName netCfg inventory ->
  same_family version networkName netCfg inventory.
Proof.
  intros Hv (_ & _ & Hg & Hd & Hhosts).
  split; [by apply plain_readable |]. split; [by apply plain_readable |].
  intros h i Hh Hi Hn Hip. apply plain_readable; [done |]. by apply (Hhosts h i).
Qed.

(** On a network written in plain form the used set of the code is
    the used set of the specification. *)
Lemma plain_taken (version : Z) (networkName : string) (netCfg : Network)
  (inventory : Inventory) (n : Z) :
  version <> 0 -> plain_network version networkName netCfg inventory ->
  ip_taken version networkName netCfg inventory n <->
  address_taken networkName netCfg inventory n.
Proof.
  intros Hv (_ & _ & Hg & Hd & Hhosts).
  assert (Hsame : forall a, plain version a ->
            toBig version a = Return n <-> address_number a = Some n).
  { intros a Ha. destruct (plain_number version a Hv Ha) as (m & -> & -> & _).
    split; congruence. }
  unfold ip_taken, address_taken. rewrite (Hsame _ Hg), (Hsame _ Hd).
  split; (intros [? | [? | (h & i & Hh & Hi & Hn & Hip & Hnum)]]; [by left | by right; left |]);
    right; right; exists h, i; repeat (split; [done |]);
    by apply (Hsame _ (Hhosts h i Hh Hi Hn Hip)).
Qed.

Lemma hextet_free (m : Z) :
  free_of "." (toString 16 (Z.land m 65535)) = true /\
  free_of "%" (toString 16 (Z.land m 65535)) = true.
Proof. by destruct (hextet_string _ (hextet_any m)) as (_ & _ & _ & D & P & _). Qed.

(** What [fromBig] writes for a number of the family is in plain form
    and stands for that number. *)
Lemma fromBig_plain (version n : Z) :
  version = 4 \/ version = 6 -> 0 <= n < family_size version ->
  plain version (fromBig version n) /\ address_number (fromBig version n) = Some n.
Proof.
  intros Hver Hn. destruct (fromBig_roundtrip version n Hver Hn) as [Hip Hback].
  assert (Hplain : plain version (fromBig version n)).
  { split; [done |]. intros ->. unfold fromBig. change (6 =? 4) with false. cbv iota.
    unfold bigToIpv6. cbn [ipv6_parts].
    split; (apply free_of_join; [done |]); cbn [forallb];
      repeat (apply andb_true_iff; split); try done; apply hextet_free. }
  split; [done |].
  destruct (plain_number version _ ltac:(lia) Hplain) as (m & Hm & Hnum & _). congruence.
Qed.

(** C5, as amended. Let the network be found by its name, the two
    ends of its static range be valid addresses of one family with
    start <= end, and the gateway, the dns and the host addresses on
    the network that [net.isIP] accepts be of that family too, all of
    them in plain form: a dotted quad, or, for IPv6, hexadecimal
    groups without an embedded dotted quad and without a zone.
    Addresses are ordered by the numbers they stand for. Then
    [getNextIpAddress] returns the lowest address of the range that
    is not the gateway, not the dns and not the address of a host
    interface on the network that [net.isIP] accepts, written in
    plain form and followed by the prefix length of the subnet when
    there is one; and it throws for lack of capacity when every
    address of the range is one of those. A host address that
    [net.isIP] does not accept is skipped. *)
Theorem getNextIpAddress_lowest_unused
  (networkName : string) (inventory : Inventory) (netCfg : Network)
  (version startN endN : Z) :
  List.find (fun n => bool_decide (name n = networkName)) (networks inventory)
    = Some netCfg ->
  version <> 0 ->
  plain_network version networkName netCfg inventory ->
  address_number (start (static_range netCfg)) = Some startN ->
  address_number (end_ (static_range netCfg)) = Some endN ->
  startN <= endN ->
  let taken := address_taken networkName netCfg inventory in
  match getNextIpAddress networkName inventory with
  | Return address =>
      exists a n,
        address =
          (if String.eqb (prefix_length netCfg) "" then a
           else a +:+ "/" +:+ prefix_length netCfg) /\
        plain version a /\ address_number a = Some n /\
        startN <= n <= endN /\ ~ taken n /\
        (forall j, startN <= j < n -> taken j)
  | Throw e =>
      e = Error ("No available static IP in range for network " +:+ networkName) /\
      forall j, startN <= j <= endN -> taken j
  end.
Proof.
  intros Hfind Hv Hplain Hs He Hle taken. subst taken.
  pose proof Hplain as (Pstart & Pend & _).
  destruct (plain_number _ _ Hv Pstart) as (s & Ts & Ns & Rs).
  destruct (plain_number _ _ Hv Pend) as (e & Te & Ne & Re).
  assert (s = startN) as -> by congruence.
  assert (e = endN) as -> by congruence.
  pose proof (getNextIpAddress_scan networkName inventory netCfg version startN endN
                Hfind Hv (proj1 Pstart) (proj1 Pend) Ts Te Hle
                (plain_same_family _ _ _ _ Hv Hplain)) as Hscan.
  cbv zeta in Hscan.
  assert (Hver : version = 4 \/ version = 6).
  { destruct (isIP_cases (start (static_range netCfg))) as [? | [? | ?]];
      [destruct Pstart; congruence | left | right]; destruct Pstart; congruence. }
  destruct (getNextIpAddress networkName inventory) as [address | err].
  - destruct Hscan as (n & Hrange & Hfree & Hlow & Haddr & _).
    destruct (fromBig_plain version n Hver ltac:(lia)) as [Pn Nn].
    exists (fromBig version n), n.
    split; [done |]. split; [done |]. split; [done |]. split; [done |].
    split.
    + intros Ht. apply Hfree. by apply plain_taken.
    + intros j Hj. apply (plain_taken version); [done | done |]. by apply Hlow.
  - destruct Hscan as [-> Hall]. split; [done |].
    intros j Hj. apply (plain_taken version); [done | done |]. by apply Hall.
Qed.

Lemma getNextIpAddress_lowest_unused_witness :
  plain_network 6 "lan6" lan6 inventory_v6 /\
  address_number (start (static_range lan6)) = Some 336294682933583715844663186250927177729 /\
  address_number (end_ (static_range lan6)) = Some 336294682933583715844663186250927177744 /\
  getNextIpAddress "lan6" inventory_v6 = Return "fd00:0:0:0:0:0:0:4/64" /\
  exists a n,
    "fd00:0:0:0:0:0:0:4/64" = a +:+ "/64" /\
    plain 6 a /\ address_number a = Some n /\
    336294682933583715844663186250927177729 <= n
      <= 336294682933583715844663186250927177744 /\
    ~ address_taken "lan6" lan6 inventory_v6 n /\
    forall j, 336294682933583715844663186250927177729 <= j < n ->
              address_taken "lan6" lan6 inventory_v6 j.
Proof.
  assert (Hplain : plain_network 6 "lan6" lan6 inventory_v6).
  { assert (Hp : forall a, isIP a = 6 -> free_of "." a = true -> free_of "%" a = true ->
                           plain 6 a) by (intros a ? ? ?; by split).
    split; [by apply Hp |]. split; [by apply Hp |].
    split; [by apply Hp |]. split; [by apply Hp |].
    intros h i ->%list_elem_of_singleton ->%list_elem_of_singleton _ _. by apply Hp. }
  assert (Hrun : getNextIpAddress "lan6" inventory_v6 = Return "fd00:0:0:0:0:0:0:4/64")
    by (vm_compute; reflexivity).
  split; [exact Hplain |]. split; [reflexivity |]. split; [reflexivity |].
  split; [exact Hrun |].
  pose proof (getNextIpAddress_lowest_unused "lan6" inventory_v6 lan6 6
                336294682933583715844663186250927177729
                336294682933583715844663186250927177744
                eq_refl ltac:(lia) Hplain eq_refl eq_refl ltac:(lia)) as H.
  cbv zeta in H. rewrite Hrun in H. exact H.
Defined.

(** C5, as stated, fails in three ways. At scenario C with the
    address of the host written 10.0.0.5/24, the range 10.0.0.5 -
    10.0.0.5 is valid and the host interface is on the network, yet
    the call does not throw for lack of capacity: [net.isIP] does not
    accept an address with a prefix length, the guard on host
    addresses skips it, and the call returns the very string the host
    has. With a gateway of the other family the call ends in the
    [RangeError] of [BigInt]. On the range ::ffff:10.0.0.2 -
    ::ffff:10.0.0.4, two valid IPv6 addresses in ascending order, the
    conversion reads the dotted tail as one hexadecimal group and the
    call returns 0:0:0:0:0:0:ffff:10, an address far below the range;
    with the range in hexadecimal groups and a host at
    ::ffff:10.0.0.2 the call returns the address of that host; and
    on a range that starts at fe80::%eth0 it ends in the [RangeError]
    of [BigInt]. *)
Lemma getNextIpAddress_not_lowest_unused :
  (List.find (fun n => bool_decide (name n = "lan")) (networks inventory_prefixed)
     = Some lan_C /\
   isIP (start (static_range lan_C)) = 4 /\
   isIP (end_ (static_range lan_C)) = 4 /\
   address_number (start (static_range lan_C)) = Some 167772165 /\
   address_number (end_ (static_range lan_C)) = Some 167772165 /\
   host_interfaces inventory_prefixed = [ {| network := "lan"; iface_ip := "10.0.0.5/24" |} ] /\
   isIP "10.0.0.5/24" = 0 /\
   getNextIpAddress "lan" inventory_prefixed = Return "10.0.0.5/24") /\
  (isIP (gateway lan_mixed) = 6 /\
   getNextIpAddress "lan" inventory_mixed = Throw RangeError) /\
  (List.find (fun n => bool_decide (name n = "lan")) (networks inventory_mapped)
     = Some lan_mapped /\
   isIP (start (static_range lan_mapped)) = 6 /\
   isIP (end_ (static_range lan_mapped)) = 6 /\
   isIP (gateway lan_mapped) = 6 /\ isIP (dns lan_mapped) = 6 /\
   address_number (start (static_range lan_mapped)) = Some 281470849515522 /\
   address_number (end_ (static_range lan_mapped)) = Some 281470849515524 /\
   address_number (gateway lan_mapped) = Some 281470849515521 /\
   getNextIpAddress "lan" inventory_mapped = Return "0:0:0:0:0:0:ffff:10/120" /\
   address_number "0:0:0:0:0:0:ffff:10" = Some 4294901776) /\
  (List.find (fun n => bool_decide (name n = "lan")) (networks inventory_mapped_host)
     = Some lan_mapped_host /\
   isIP (start (static_range lan_mapped_host)) = 6 /\
   isIP (end_ (static_range lan_mapped_host)) = 6 /\
   address_number (start (static_range lan_mapped_host)) = Some 281470849515522 /\
   address_number (end_ (static_range lan_mapped_host)) = Some 281470849515524 /\
   host_interfaces inventory_mapped_host
     = [ {| network := "lan"; iface_ip := "::ffff:10.0.0.2" |} ] /\
   isIP "::ffff:10.0.0.2" = 6 /\
   address_number "::ffff:10.0.0.2" = Some 281470849515522 /\
   getNextIpAddress "lan" inventory_mapped_host = Return "0:0:0:0:0:ffff:a00:2/120" /\
   address_number "0:0:0:0:0:ffff:a00:2" = Some 281470849515522) /\
  (List.find (fun n => bool_decide (name n = "lan")) (networks inventory_zone)
     = Some lan_zone /\
   isIP (start (static_range lan_zone)) = 6 /\
   isIP (end_ (static_range lan_zone)) = 6 /\
   address_number (start (static_range lan_zone))
     = Some 338288524927261089654018896841347694592 /\
   address_number (end_ (static_range lan_zone))
     = Some 338288524927261089654018896841347694608 /\
   getNextIpAddress "lan" inventory_zone = Throw RangeError).
Proof. repeat split; vm_compute; reflexivity. Qed.

(** ** An inventory without [reserved] *)

(** The allocator of addresses throws an [Error] with a message or
    the [RangeError] of a conversion, never a [TypeError]. *)
Lemma getNextIpAddress_no_TypeError (networkName : string) (inventory : Inventory) :
  getNextIpAddress networkName inventory <> Throw TypeError.
Proof.
  unfold getNextIpAddress.
  destruct (List.find _ _) as [netCfg|]; [| discriminate]. cbv zeta.
  destruct (_ || _); [discriminate |].
  destruct (_ || _); [discriminate |].
  destruct (toBig _ (start _)) as [startBig|e1] eqn:H1; cbn [bind];
    [| apply toBig_throws in H1 as ->; discriminate].
  destruct (toBig _ (end_ _)) as [endBig|e2] eqn:H2; cbn [bind];
    [| apply toBig_throws in H2 as ->; discriminate].
  destruct (_ >? _); [discriminate |].
  destruct (used_ips _ _ _ _) as [used|e3] eqn:H3; cbn [bind];
    [| apply used_ips_throws in H3 as ->; discriminate].
  destruct (first_unused _ _ _); discriminate.
Qed.

(** C10. On an inventory object that has no [reserved] field,
    [reserveVmId] and [reserveIpAddress] do not fail on the missing
    field: they set it to [{vmids: [], ips: []}] and run exactly as on
    the inventory with empty lists. The value returned is the one the
    allocator gives on that inventory, and the inventory is then the
    one given with [reserved] holding the single new entry and
    nothing else; when the allocator throws, its error is the one
    thrown, never a [TypeError], and [reserved] is left with its two
    empty lists. For the four types [reserveVmId] returns the smallest
    id of the range that is no template's, and throws only when the
    templates take the whole range. *)
Theorem reserve_without_reserved
  (type networkName refId : string) (inventory : Inventory) :
  reserved inventory = None ->
  let empty := set_reserved (Some empty_reserved) inventory in
  let template_ids := template_vmid <$> templates inventory in
  (reserveVmId type inventory refId = reserveVmId type empty refId /\
   match getNextVmId type empty with
   | Return id =>
       reserveVmId type inventory refId =
         (Return id,
          set_reserved
            (Some {| vmids := [ {| vmid := id; vmid_refId := refId |} ]; ips := [] |})
            inventory)
   | Throw e => reserveVmId type inventory refId = (Throw e, empty) /\ e <> TypeError
   end /\
   forall lo hi, (type, (lo, hi)) ∈ vmid_ranges ->
     (match fst (reserveVmId type inventory refId) with
      | Return id =>
          lo <= id <= hi /\ (id ∉ template_ids) /\
          forall j, lo <= j < id -> j ∈ template_ids
      | Throw e =>
          e = Error ("No available vmid for type " +:+ type) /\
          forall j, lo <= j <= hi -> j ∈ template_ids
      end)) /\
  (reserveIpAddress networkName inventory refId =
     reserveIpAddress networkName empty refId /\
   match getNextIpAddress networkName inventory with
   | Return a =>
       reserveIpAddress networkName inventory refId =
         (Return a,
          set_reserved
            (Some {| vmids := []; ips := [ {| ip := a; ip_refId := refId |} ] |})
            inventory)
   | Throw e =>
       reserveIpAddress networkName inventory refId = (Throw e, empty) /\ e <> TypeError
   end).
Proof.
  intros Hnone empty template_ids.
  assert (Hinit : init_reserved inventory = empty) by by apply init_reserved_None.
  assert (Hinit' : init_reserved empty = empty) by reflexivity.
  assert (Hv : reserveVmId type inventory refId =
    match getNextVmId type empty with
    | Return id =>
        (Return id,
         set_reserved
           (Some {| vmids := [ {| vmid := id; vmid_refId := refId |} ]; ips := [] |})
           inventory)
    | Throw e => (Throw e, empty)
    end).
  { unfold reserveVmId. rewrite Hinit. cbv zeta. cbn [reserved empty set_reserved].
    cbn [list_find vmids empty_reserved fmap option_fmap option_map].
    by destruct (getNextVmId type empty). }
  split; [| split].
  - split; [unfold reserveVmId; by rewrite Hinit, Hinit' |]. split.
    + rewrite Hv. destruct (getNextVmId type empty) as [id|e] eqn:Hnext; [done |].
      split; [done |]. intros ->. unfold getNextVmId in Hnext.
      destruct (ranges type) as [lo hi | |]; cbn in Hnext;
        try destruct (first_unused _ _ _); discriminate.
    + intros lo hi Hty%ranges_table. rewrite Hv.
      rewrite (getNextVmId_own type lo hi empty empty_reserved Hty eq_refl).
      assert (Hused : forall j, j ∈ used_vmids empty empty_reserved <-> j ∈ template_ids).
      { intros j. unfold used_vmids. cbn [vmids empty_reserved fmap list_fmap].
        rewrite elem_of_union, !elem_of_list_to_set. split; [| by left].
        intros [? | []%elem_of_nil]. done. }
      destruct (first_unused _ lo hi) as [id|] eqn:Hscan; cbn [fst].
      * apply first_unused_Some in Hscan as (Hrange & Hfree & Hlow).
        split; [done |]. split; [by rewrite <- Hused |].
        intros j Hj. apply Hused. by apply Hlow.
      * split; [done |]. intros j Hj. apply Hused.
        by apply (proj1 (first_unused_None _ _ _) Hscan).
  - unfold reserveIpAddress. by rewrite Hinit, Hinit'.
  - unfold reserveIpAddress. rewrite Hinit. cbv zeta. cbn [reserved empty set_reserved].
    cbn [list_find ips empty_reserved fmap option_fmap option_map].
    change (getNextIpAddress networkName empty)
      with (getNextIpAddress networkName inventory).
    pose proof (getNextIpAddress_no_TypeError networkName inventory) as Hno.
    destruct (getNextIpAddress networkName inventory) as [a|e]; [reflexivity |].
    split; [reflexivity |]. intros ->. by apply Hno.
Qed.

(** Scenario A on an inventory object without [reserved]: the first
    VM gets 100 and the first address is 10.0.0.2, and [reserved]
    holds that one entry. *)
Lemma reserve_without_reserved_witness :
  let bare := set_reserved None inventory_A in
  reserved bare = None /\
  reserveVmId "vm" bare "vm:id:web" =
    (Return 100,
     set_reserved
       (Some {| vmids := [ {| vmid := 100; vmid_refId := "vm:id:web" |} ]; ips := [] |})
       bare) /\
  reserveIpAddress "lan" bare "ip:lan:web" =
    (Return "10.0.0.2",
     set_reserved
       (Some {| vmids := []; ips := [ {| ip := "10.0.0.2"; ip_refId := "ip:lan:web" |} ] |})
       bare).
Proof.
  intros bare. split; [reflexivity |].
  pose proof (reserve_without_reserved "vm" "lan" "vm:id:web" bare eq_refl)
    as [(_ & Hv & _) _].
  pose proof (reserve_without_reserved "vm" "lan" "ip:lan:web" bare eq_refl)
    as [_ (_ & Hi)].
  split; [exact Hv | exact Hi].
Defined.

Ltac differ :=
  let H := fresh in intros H; cbn [String.append] in H; discriminate H.


(** ** More on dotted paths *)

Lemma split_go_app (c : ascii) (p q cur : string) :
  split_go (String c "") (p +:+ String c q) 0 cur =
  (split_go (String c "") p 0 cur ++ split_go (String c "") q 0 "")%list.
Proof.
  revert cur. induction p as [|x p IH]; intros cur.
  - change ("" +:+ String c q) with (String c q). cbn [split_go].
    rewrite prefix_head_same, prefix_empty. reflexivity.
  - rewrite append_cons. cbn [split_go]. destruct (ascii_dec c x) as [<- | Hne].
    + rewrite !prefix_head_same, !prefix_empty. cbn [String.length Nat.sub].
      by rewrite IH.
    + rewrite !prefix_head_differs by done. apply IH.
Qed.

Lemma split_app (c : ascii) (p q : string) :
  split (String c "") (p +:+ String c q) =
  (split (String c "") p ++ split (String c "") q)%list.
Proof. apply split_go_app. Qed.

Lemma getRefValue_loop_null (path : list string) :
  getRefValue_loop path (Value JNull) = Done (Value JNull).
Proof. by destruct path. Qed.

Lemma getRefValue_loop_app (l1 l2 : list string) (v : jsval) :
  getRefValue_loop (l1 ++ l2) v = (r <~ getRefValue_loop l1 v ;; getRefValue_loop l2 r).
Proof.
  revert v. induction l1 as [|p l1 IH]; intros v; [done |].
  cbn [app getRefValue_loop].
  destruct v as [|j|k]; cbn [and_then]; try by rewrite getRefValue_loop_null.
  - destruct j as [|[]|n|s|items|fields]; cbn [and_then];
      try (by rewrite getRefValue_loop_null); try done.
    + destruct n; cbn [and_then]; by rewrite ?getRefValue_loop_null.
    + destruct s; cbn [and_then]; by rewrite ?getRefValue_loop_null.
    + destruct (find_named p items) as [[item|]|e]; cbn [and_then]; by rewrite ?IH.
    + destruct (own p fields) as [x|]; [by rewrite IH |].
      destruct (decide _); [by rewrite IH |]. cbn [and_then].
      by rewrite getRefValue_loop_null.
  - done.
Qed.

(** X8. Paths compose: when [p] resolves to a value of the document, the
    path [p.q] resolves to what [q] resolves to inside that value. *)
Theorem getRefValue_compose (p q : string) (obj j : json) :
  getRefValue p obj = Done (Value j) ->
  getRefValue (p +:+ "." +:+ q) obj = getRefValue q j.
Proof.
  unfold getRefValue. intros Hp.
  change (p +:+ "." +:+ q) with (p +:+ String "." q).
  by rewrite split_app, getRefValue_loop_app, Hp.
Qed.

Lemma getRefValue_compose_witness :
  getRefValue "pve.login" (JArray sample_secrets)
    = Done (Value (JObject [ ("username", JString "root");
                             ("password", JString "hunter2") ])) /\
  getRefValue ("pve.login" +:+ "." +:+ "password") (JArray sample_secrets)
    = getRefValue "password" (JObject [ ("username", JString "root");
                                        ("password", JString "hunter2") ]).
Proof.
  split; [reflexivity |].
  apply (getRefValue_compose "pve.login" "password" (JArray sample_secrets)).
  reflexivity.
Defined.

(** X9. A path that goes on through a text, a number other than 0 or
    [true] does not resolve to [null]: the [in] test throws a
    [TypeError]. Through an empty text, 0, [false] or [null] it
    resolves to [null]. *)
Theorem getRefValue_through_primitive (p q : string) (obj j : json) :
  getRefValue p obj = Done (Value j) ->
  match j with
  | JString (String _ _) | JBool true => getRefValue (p +:+ "." +:+ q) obj = Raised TypeError
  | JNumber n =>
      getRefValue (p +:+ "." +:+ q) obj = if decide (n = 0) then Done (Value JNull) else Raised TypeError
  | JString EmptyString | JBool false | JNull =>
      getRefValue (p +:+ "." +:+ q) obj = Done (Value JNull)
  | JArray _ | JObject _ => True
  end.
Proof.
  intros Hp.
  assert (Hc : getRefValue (p +:+ "." +:+ q) obj
               = getRefValue_loop (split "." q) (Value j)).
  { unfold getRefValue in *. change (p +:+ "." +:+ q) with (p +:+ String "." q).
    by rewrite split_app, getRefValue_loop_app, Hp. }
  assert (Hne : exists s l, split "." q = s :: l).
  { unfold split. destruct (split_go "." q 0 "") eqn:E; [by apply split_go_nonempty in E | eauto]. }
  destruct Hne as (s & l & Hs). rewrite Hs in Hc.
  destruct j as [|[]|n|[|]|items|fields]; try done.
  rewrite Hc. cbn [getRefValue_loop]. by destruct n.
Qed.

Lemma getRefValue_through_primitive_witness :
  getRefValue "pve.login.password" (JArray sample_secrets) = Done (Value (JString "hunter2")) /\
  getRefValue ("pve.login.password" +:+ "." +:+ "length") (JArray sample_secrets)
    = Raised TypeError.
Proof.
  split; [reflexivity |].
  apply (getRefValue_through_primitive "pve.login.password" "length"
           (JArray sample_secrets) (JString "hunter2")).
  reflexivity.
Defined.

Lemma own_elem (key : string) (fields : list (string * json)) (v : json) :
  own key fields = Some v -> (key, v) ∈ fields.
Proof.
  induction fields as [|[k x] fields IH]; [discriminate |]. cbn [own].
  destruct (decide (k = key)) as [-> | _].
  - intros [= ->]. apply list_elem_of_here.
  - intros H. apply list_elem_of_further. by apply IH.
Qed.

Lemma find_named_elem (p : string) (items : list json) (item : json) :
  find_named p items = Return (Some item) -> item ∈ items.
Proof.
  induction items as [|x items IH]; [discriminate |]. cbn [find_named].
  assert (Hrest : find_named p items = Return (Some item) -> item ∈ x :: items)
    by (intros H; apply list_elem_of_further; by apply IH).
  destruct x as [| | | |l|fields]; try done.
  destruct (own "name" fields) as [[| | |s| |]|]; try done.
  destruct (decide (s = p)); [| done]. intros [= <-]. apply list_elem_of_here.
Qed.

Lemma occurs_in_trans (x y z : json) : occurs_in x y -> occurs_in y z -> occurs_in x z.
Proof.
  intros Hxy Hyz. induction Hyz as [|items item Hin _ IH|fields k v Hin _ IH].
  - done.
  - by eapply occurs_item.
  - by eapply occurs_field.
Qed.

Lemma getRefValue_loop_occurs (path : list string) (v j : json) :
  getRefValue_loop path (Value v) = Done (Value j) -> j = JNull \/ occurs_in j v.
Proof.
  revert v. induction path as [|p path IH]; intros v.
  - intros [= <-]. right. constructor.
  - cbn [getRefValue_loop].
    destruct v as [|[]|n|s|items|fields]; try (intros [= <-]; by left); try done.
    + destruct n; [intros [= <-]; by left | done..].
    + destruct s; [intros [= <-]; by left | done].
    + destruct (find_named p items) as [[item|]|e] eqn:Hf; [| | done].
      * intros [? | Hsub]%IH; [by left | right].
        eapply occurs_item; [by eapply find_named_elem | done].
      * destruct path; [done | intros [= <-]; by left].
    + destruct (own p fields) as [x|] eqn:Ho.
      * intros [? | Hsub]%IH; [by left | right].
        eapply occurs_field; [by eapply own_elem | done].
      * destruct (decide _); [| intros [= <-]; by left].
        destruct path; done.
Qed.



(** ** Terraform placeholders *)

Lemma populateVmIds_loop_new (inventory : Inventory) (destroy : bool)
  (matchesArray : list string) (strConfig : string) (vmIds : list Z)
  (newInventory deletedInventory : Reserved)
  (out : string) (ids : list Z) (newInventory' deletedInventory' : Reserved) :
  populateVmIds_loop inventory destroy matchesArray strConfig vmIds
    newInventory deletedInventory
    = (Return (out, ids), (newInventory', deletedInventory')) ->
  exists added,
    vmids newInventory' = (vmids newInventory ++ added)%list /\
    ips newInventory' = ips newInventory /\
    Forall (fun e => getNextVmId (label_type (vmid_refId e)) inventory = Return (vmid e) /\
                     vmid_entries (vmid_refId e) inventory = []) added /\
    (destroy = false -> deletedInventory' = deletedInventory) /\
    ips deletedInventory' = ips deletedInventory.
Proof.
  revert strConfig vmIds newInventory deletedInventory.
  induction matchesArray as [|m rest IH];
    intros strConfig vmIds newInventory deletedInventory; cbn [populateVmIds_loop].
  - intros [= <- <- <- <-]. exists []. rewrite app_nil_r. by repeat split.
  - destruct (reserved inventory) as [r|] eqn:Hr; [| discriminate].
    destruct (list_find _ (vmids r)) as [[i existing]|] eqn:Hfind.
    + intros (added & Hv & Hi & Hall & Hdel & Hdi)%IH.
      exists added. split; [done |]. split; [done |]. split; [done |].
      split; [intros ->; by apply Hdel | by destruct destroy].
    + destruct (getNextVmId _ inventory) as [vmId|e] eqn:Hnext; [| discriminate].
      intros (added & Hv & Hi & Hall & Hdel & Hdi)%IH.
      cbn [vmids ips set_vmids] in Hv, Hi.
      exists ({| vmid := vmId; vmid_refId := remove_chars is_dquote m |} :: added).
      split; [by rewrite Hv, <- app_assoc |]. split; [done |].
      split; [| done]. apply Forall_cons. split; [| done]. cbn [vmid vmid_refId].
      split; [exact Hnext |].
      unfold vmid_entries. rewrite Hr. apply bound_to_none.
      by apply (proj1 (list_find_None _ _)).
Qed.

(** X11. The ids [populateVmIds] picks for new labels. When it returns,
    every entry it has pushed to [newInventory.vmids] binds a label
    that the ledger did not bind to the id [getNextVmId] gives for the
    label's type on the inventory as loaded: the inventory is not
    updated between labels, so two new labels of one type get the
    same id. Nothing is queued for deletion unless [destroy] is set,
    and the lists of addresses are not touched. *)
Theorem populateVmIds_new_labels_share_id (inventory : Inventory) (destroy : bool)
  (strConfig : string) (newInventory deletedInventory : Reserved)
  (out : string) (ids : list Z) (newInventory' deletedInventory' : Reserved) :
  populateVmIds inventory destroy strConfig newInventory deletedInventory
    = (Return (out, ids), (newInventory', deletedInventory')) ->
  exists added,
    vmids newInventory' = (vmids newInventory ++ added)%list /\
    ips newInventory' = ips newInventory /\
    Forall (fun e => getNextVmId (label_type (vmid_refId e)) inventory = Return (vmid e) /\
                     vmid_entries (vmid_refId e) inventory = []) added /\
    (forall e1 e2, e1 ∈ added -> e2 ∈ added ->
       label_type (vmid_refId e1) = label_type (vmid_refId e2) -> vmid e1 = vmid e2) /\
    (destroy = false -> deletedInventory' = deletedInventory) /\
    ips deletedInventory' = ips deletedInventory.
Proof.
  unfold populateVmIds.
  intros (added & Hv & Hi & Hall & Hdel & Hdi)%populateVmIds_loop_new.
  exists added. split; [done |]. split; [done |]. split; [done |]. split; [| done].
  intros e1 e2 H1 H2 Hty.
  apply (proj1 (Forall_forall _ _) Hall) in H1 as [H1 _].
  apply (proj1 (Forall_forall _ _) Hall) in H2 as [H2 _].
  rewrite Hty in H1. congruence.
Qed.

Lemma populateVmIds_new_labels_share_id_witness :
  populateVmIds inventory_A false two_vms empty_reserved empty_reserved
    = (Return (replace (replace two_vms "vm:id:web" "100") "vm:id:db" "100", [100; 100]),
       ({| vmids := [ {| vmid := 100; vmid_refId := "vm:id:web" |};
                      {| vmid := 100; vmid_refId := "vm:id:db" |} ];
           ips := [] |}, empty_reserved)) /\
  exists added,
    [ {| vmid := 100; vmid_refId := "vm:id:web" |};
      {| vmid := 100; vmid_refId := "vm:id:db" |} ] = ([] ++ added)%list /\
    @nil ReservedIp = [] /\
    Forall (fun e => getNextVmId (label_type (vmid_refId e)) inventory_A = Return (vmid e) /\
                     vmid_entries (vmid_refId e) inventory_A = []) added /\
    (forall e1 e2, e1 ∈ added -> e2 ∈ added ->
       label_type (vmid_refId e1) = label_type (vmid_refId e2) -> vmid e1 = vmid e2) /\
    (false = false -> empty_reserved = empty_reserved) /\
    @nil ReservedIp = [].
Proof.
  assert (H : populateVmIds inventory_A false two_vms empty_reserved empty_reserved
    = (Return (replace (replace two_vms "vm:id:web" "100") "vm:id:db" "100", [100; 100]),
       ({| vmids := [ {| vmid := 100; vmid_refId := "vm:id:web" |};
                      {| vmid := 100; vmid_refId := "vm:id:db" |} ];
           ips := [] |}, empty_reserved))) by (vm_compute; reflexivity).
  split; [exact H |].
  exact (populateVmIds_new_labels_share_id _ _ _ _ _ _ _ _ _ H).
Defined.

Lemma populateIpAddresses_loop_new (inventory : Inventory) (destroy : bool)
  (matchesArray : list string) (strConfig : string) (reservedIps : list string)
  (newInventory deletedInventory : Reserved)
  (out : string) (addresses : list string) (newInventory' deletedInventory' : Reserved) :
  populateIpAddresses_loop inventory destroy matchesArray strConfig reservedIps
    newInventory deletedInventory
    = (Return (out, addresses), (newInventory', deletedInventory')) ->
  exists added,
    ips newInventory' = (ips newInventory ++ added)%list /\
    vmids newInventory' = vmids newInventory /\
    Forall (fun e => getNextIpAddress (label_network (ip_refId e)) inventory = Return (ip e) /\
                     ip_entries (ip_refId e) inventory = []) added /\
    (destroy = false -> deletedInventory' = deletedInventory) /\
    vmids deletedInventory' = vmids deletedInventory.
Proof.
  revert strConfig reservedIps newInventory deletedInventory.
  induction matchesArray as [|m rest IH];
    intros strConfig reservedIps newInventory deletedInventory;
    cbn [populateIpAddresses_loop].
  - intros [= <- <- <- <-]. exists []. rewrite app_nil_r. by repeat split.
  - destruct (reserved inventory) as [r|] eqn:Hr; [| discriminate].
    destruct (list_find _ (ips r)) as [[i existing]|] eqn:Hfind.
    + intros (added & Hv & Hi & Hall & Hdel & Hdi)%IH.
      exists added. split; [done |]. split; [done |]. split; [done |].
      split; [intros ->; by apply Hdel | by destruct destroy].
    + destruct (getNextIpAddress _ inventory) as [a|e] eqn:Hnext; [| discriminate].
      intros (added & Hv & Hi & Hall & Hdel & Hdi)%IH.
      cbn [vmids ips set_ips] in Hv, Hi.
      exists ({| ip := a; ip_refId := remove_chars is_dquote m |} :: added).
      split; [by rewrite Hv, <- app_assoc |]. split; [done |].
      split; [| done]. apply Forall_cons. split; [| done]. cbn [ip ip_refId].
      split; [exact Hnext |].
      unfold ip_entries. rewrite Hr. apply bound_to_none.
      by apply (proj1 (list_find_None _ _)).
Qed.

(** X12. The addresses [populateIpAddresses] picks for new labels. When it
    returns, every entry it has pushed to [newInventory.ips] binds a
    label that the ledger did not bind to the address
    [getNextIpAddress] gives for the label's network on the inventory
    as loaded, so two new labels on one network get the same
    address. *)
Theorem populateIpAddresses_new_labels_share_address (inventory : Inventory)
  (destroy : bool) (strConfig : string) (newInventory deletedInventory : Reserved)
  (out : string) (addresses : list string) (newInventory' deletedInventory' : Reserved) :
  populateIpAddresses inventory destroy strConfig newInventory deletedInventory
    = (Return (out, addresses), (newInventory', deletedInventory')) ->
  exists added,
    ips newInventory' = (ips newInventory ++ added)%list /\
    vmids newInventory' = vmids newInventory /\
    Forall (fun e => getNextIpAddress (label_network (ip_refId e)) inventory = Return (ip e) /\
                     ip_entries (ip_refId e) inventory = []) added /\
    (forall e1 e2, e1 ∈ added -> e2 ∈ added ->
       label_network (ip_refId e1) = label_network (ip_refId e2) -> ip e1 = ip e2) /\
    (destroy = false -> deletedInventory' = deletedInventory) /\
    vmids deletedInventory' = vmids deletedInventory.
Proof.
  unfold populateIpAddresses.
  intros (added & Hv & Hi & Hall & Hdel & Hdi)%populateIpAddresses_loop_new.
  exists added. split; [done |]. split; [done |]. split; [done |]. split; [| done].
  intros e1 e2 H1 H2 Hty.
  apply (proj1 (Forall_forall _ _) Hall) in H1 as [H1 _].
  apply (proj1 (Forall_forall _ _) Hall) in H2 as [H2 _].
  rewrite Hty in H1. congruence.
Qed.

Lemma populateIpAddresses_new_labels_share_address_witness :
  populateIpAddresses inventory_A false two_vms empty_reserved empty_reserved
    = (Return (replace (replace two_vms "ip:lan:web" "10.0.0.2") "ip:lan:db" "10.0.0.2",
               ["10.0.0.2"; "10.0.0.2"]),
       ({| vmids := [];
           ips := [ {| ip := "10.0.0.2"; ip_refId := "ip:lan:web" |};
                    {| ip := "10.0.0.2"; ip_refId := "ip:lan:db" |} ] |}, empty_reserved)) /\
  exists added,
    [ {| ip := "10.0.0.2"; ip_refId := "ip:lan:web" |};
      {| ip := "10.0.0.2"; ip_refId := "ip:lan:db" |} ] = ([] ++ added)%list /\
    @nil ReservedVmid = [] /\
    Forall (fun e => getNextIpAddress (label_network (ip_refId e)) inventory_A = Return (ip e) /\
                     ip_entries (ip_refId e) inventory_A = []) added /\
    (forall e1 e2, e1 ∈ added -> e2 ∈ added ->
       label_network (ip_refId e1) = label_network (ip_refId e2) -> ip e1 = ip e2) /\
    (false = false -> empty_reserved = empty_reserved) /\
    @nil ReservedVmid = [].
Proof.
  assert (H : populateIpAddresses inventory_A false two_vms empty_reserved empty_reserved
    = (Return (replace (replace two_vms "ip:lan:web" "10.0.0.2") "ip:lan:db" "10.0.0.2",
               ["10.0.0.2"; "10.0.0.2"]),
       ({| vmids := [];
           ips := [ {| ip := "10.0.0.2"; ip_refId := "ip:lan:web" |};
                    {| ip := "10.0.0.2"; ip_refId := "ip:lan:db" |} ] |}, empty_reserved)))
    by (vm_compute; reflexivity).
  split; [exact H |].
  exact (populateIpAddresses_new_labels_share_address _ _ _ _ _ _ _ _ _ H).
Defined.

(** ** The address of the build host *)

Lemma ToInt32_mod (x : Z) : ToInt32 x mod 2 ^ 32 = x mod 2 ^ 32.
Proof.
  unfold ToInt32. cbv zeta. destruct (_ <? _).
  - apply Z.mod_mod. lia.
  - rewrite <- (Z.mod_mod x (2 ^ 32)) at 2 by lia.
    replace (x mod 2 ^ 32 - 2 ^ 32) with (x mod 2 ^ 32 + (-1) * 2 ^ 32) by lia.
    apply Z.mod_add. lia.
Qed.

Lemma ToInt32_inj (x y : Z) : ToInt32 x = ToInt32 y <-> x mod 2 ^ 32 = y mod 2 ^ 32.
Proof.
  split.
  - intros H. by rewrite <- (ToInt32_mod x), <- (ToInt32_mod y), H.
  - intros H. unfold ToInt32. by rewrite H.
Qed.

Lemma land_mod (a b : Z) (n : Z) :
  0 <= n -> Z.land a b mod 2 ^ n = Z.land (a mod 2 ^ n) (b mod 2 ^ n).
Proof.
  intros Hn. rewrite <- !Z.land_ones by done.
  apply Z.bits_inj'. intros i Hi. rewrite !Z.land_spec.
  by destruct (Z.testbit a i), (Z.testbit b i), (Z.testbit (Z.ones n) i).
Qed.

Lemma subnet_masks :
  forallb (fun p => subnet_mask p =? 2 ^ 32 - 2 ^ (32 - p)) (seqZ 1 32) = true.
Proof. vm_compute. reflexivity. Qed.

(** The mask has its [prefixLen] high bits set. *)
Lemma subnet_mask_bits (p : Z) :
  0 <= p <= 32 -> subnet_mask p = 2 ^ 32 - 2 ^ (32 - p).
Proof.
  intros Hp. destruct (decide (p = 0)) as [-> | Hne]; [reflexivity |].
  apply Z.eqb_eq.
  apply (proj1 (forallb_forall _ _) subnet_masks), list_elem_of_In, elem_of_seqZ. lia.
Qed.

Lemma land_mask (x k : Z) :
  0 <= k <= 32 -> 0 <= x < 2 ^ 32 ->
  Z.land x (2 ^ 32 - 2 ^ k) = x / 2 ^ k * 2 ^ k.
Proof.
  intros Hk Hx.
  assert (Hmask : 2 ^ 32 - 2 ^ k = Z.ldiff (Z.ones 32) (Z.ones k)).
  { rewrite Z.ldiff_ones_r, Z.shiftr_div_pow2, Z.shiftl_mul_pow2 by lia.
    rewrite Z.ones_equiv. 
    replace (2 ^ 32) with (2 ^ (32 - k) * 2 ^ k) by (rewrite <- Z.pow_add_r by lia; f_equal; lia).
    assert (0 < 2 ^ k) by (apply Z.pow_pos_nonneg; lia).
    assert (0 < 2 ^ (32 - k)) by (apply Z.pow_pos_nonneg; lia).
    replace (Z.pred (2 ^ (32 - k) * 2 ^ k)) with ((2 ^ (32 - k) - 1) * 2 ^ k + (2 ^ k - 1)) by lia.
    rewrite Z.div_add_l, (Z.div_small (2 ^ k - 1)) by lia. lia. }
  rewrite Hmask, Z.ldiff_land, Z.land_assoc, Z.land_ones, Z.mod_small by lia.
  rewrite <- Z.ldiff_land, Z.ldiff_ones_r, Z.shiftr_div_pow2, Z.shiftl_mul_pow2 by lia.
  reflexivity.
Qed.

(** The comparison of the masked addresses is the comparison of their
    network parts. *)
Lemma band_mask_same_subnet (p x y : Z) :
  0 <= p <= 32 -> 0 <= x < 2 ^ 32 -> 0 <= y < 2 ^ 32 ->
  band x (subnet_mask p) = band y (subnet_mask p) <-> same_subnet p x y.
Proof.
  intros Hp Hx Hy. unfold band. rewrite ToInt32_inj, !land_mod, !ToInt32_mod by lia.
  rewrite subnet_mask_bits by done.
  assert (Hk : 0 < 2 ^ (32 - p)) by (apply Z.pow_pos_nonneg; lia).
  assert (Hm : 0 <= 2 ^ 32 - 2 ^ (32 - p) < 2 ^ 32).
  { split; [| lia]. enough (2 ^ (32 - p) <= 2 ^ 32) by lia.
    apply Z.pow_le_mono_r; lia. }
  rewrite !(Z.mod_small x), !(Z.mod_small y), (Z.mod_small (2 ^ 32 - _)) by lia.
  rewrite !land_mask by lia. unfold same_subnet. split; [| by intros ->].
  intros H. by apply Z.mul_reg_r in H; [| lia].
Qed.

Lemma ushr0_range (x : Z) : 0 <= ushr0 x < 2 ^ 32.
Proof. apply Z.mod_pos_bound. lia. Qed.

Lemma ipToInt_range (s : string) (x : Z) : ipToInt s = Done x -> 0 <= x < 2 ^ 32.
Proof.
  unfold ipToInt. destruct (ipToInt_go _ _) as [a| |]; try discriminate.
  cbn [and_then]. intros [= <-]. apply ushr0_range.
Qed.

(** What one step of [ipToInt] computes. *)
Lemma ipToInt_step_value (a v : Z) : ushr0 (shl a 8 + v) = (a * 256 + v) mod 2 ^ 32.
Proof.
  unfold ushr0, ToUint32, shl. change (8 mod 32) with 8.
  rewrite Z.add_mod, ToInt32_mod, Z.shiftl_mul_pow2 by lia.
  rewrite Z.mul_mod, ToInt32_mod, <- Z.mul_mod, <- Z.add_mod by lia.
  reflexivity.
Qed.

(** X13. The two readers of dotted addresses agree: on a valid IPv4
    address the 32-bit arithmetic of [ipToInt] in [getHttpIp] gives
    the number that [ipv4ToBig] of the allocator gives, below 2^32,
    so the shifts never wrap. *)
Theorem ipToInt_agrees_with_ipv4ToBig (a : string) :
  isIP a = 4 -> exists n, ipToInt a = Done n /\ ipv4ToBig a = Return n /\ 0 <= n < 2 ^ 32.
Proof.
  unfold isIP. destruct (isIPv4 a) eqn:Hv4; [intros _ | by destruct (isIPv6 a)].
  unfold isIPv4 in Hv4. unfold ipv4ToBig, ipToInt.
  destruct (split "." a) as [|s1 [|s2 [|s3 [|s4 [|s5 l]]]]]; try discriminate.
  apply andb_prop in Hv4 as [[[H1 H2]%andb_prop H3]%andb_prop H4].
  destruct (isV4Seg_parse s1 H1) as (v1 & E1 & B1).
  destruct (isV4Seg_parse s2 H2) as (v2 & E2 & B2).
  destruct (isV4Seg_parse s3 H3) as (v3 & E3 & B3).
  destruct (isV4Seg_parse s4 H4) as (v4 & E4 & B4).
  assert (Hb : forall v, 0 <= v <= 255 -> (Z.abs v <=? exact_bound) = true).
  { intros v Hv. apply Z.leb_le. unfold exact_bound. simpl. lia. }
  cbn [reduce bind BigInt ipToInt_go]. unfold ipToInt_step.
  rewrite E1, E2, E3, E4, !Hb by done. cbn [reduce bind BigInt ipToInt_go and_then].
  rewrite !ipToInt_step_value. unfold ushr0, ToUint32.
  rewrite !Z.shiftl_mul_pow2 by lia. change (2 ^ 8) with 256.
  change (2 ^ 32) with 4294967296.
  assert (Hsmall : forall m, 0 <= m < 4294967296 -> m mod 4294967296 = m)
    by (intros m Hm; by apply Z.mod_small).
  eexists. split; [| split; [reflexivity | lia]].
  f_equal. rewrite (Hsmall (0 * 256 + v1)) by lia.
  rewrite (Hsmall ((0 * 256 + v1) * 256 + v2)) by lia.
  rewrite (Hsmall (((0 * 256 + v1) * 256 + v2) * 256 + v3)) by lia.
  by rewrite !(Hsmall ((((0 * 256 + v1) * 256 + v2) * 256 + v3) * 256 + v4)) by lia.
Qed.

Lemma ipToInt_agrees_with_ipv4ToBig_witness :
  isIP "192.168.1.10" = 4 /\
  exists n, ipToInt "192.168.1.10" = Done n /\ ipv4ToBig "192.168.1.10" = Return n /\
            0 <= n < 2 ^ 32.
Proof.
  split; [reflexivity |]. apply (ipToInt_agrees_with_ipv4ToBig "192.168.1.10"). reflexivity.
Defined.

Lemma getHttpIp_lines_found (networkName : string) (network : Network)
  (lines : list string) (address : string) :
  getHttpIp_lines networkName network lines = Done address ->
  exists line p x y,
    line ∈ lines /\ inet_search (trim line) = Some address /\
    subnet_base network <> "" /\ subnet_prefixLen network = Some p /\ 0 <= p <= 32 /\
    ipToInt address = Done x /\ ipToInt (subnet_base network) = Done y /\
    same_subnet p x y.
Proof.
  induction lines as [|line rest IH]; cbn [getHttpIp_lines]; [discriminate |].
  assert (Hrest : getHttpIp_lines networkName network rest = Done address ->
    exists line0 p x y,
      line0 ∈ line :: rest /\ inet_search (trim line0) = Some address /\
      subnet_base network <> "" /\ subnet_prefixLen network = Some p /\ 0 <= p <= 32 /\
      ipToInt address = Done x /\ ipToInt (subnet_base network) = Done y /\
      same_subnet p x y).
  { intros (l & p & x & y & Hin & H)%IH. exists l, p, x, y.
    split; [by apply list_elem_of_further | done]. }
  destruct (inet_search (trim line)) as [found|] eqn:Hsearch; [| done].
  destruct (subnet_prefixLen network) as [p|] eqn:Hp; [| done].
  destruct (String.eqb (subnet_base network) "") eqn:Hbase; [done |].
  destruct (Z.ltb_spec p 0); [done |]. destruct (Z.gtb_spec p 32); [done |].
  cbn [orb]. destruct (ipToInt found) as [x| |] eqn:Hx; try discriminate.
  cbn [and_then]. destruct (ipToInt (subnet_base network)) as [y| |] eqn:Hy; try discriminate.
  cbn [and_then].
  cbv zeta.
  destruct (Z.eqb_spec (band x (subnet_mask p)) (band y (subnet_mask p)))
    as [Heq | _]; [| done].
  intros [= <-]. exists line, p, x, y.
  split; [apply list_elem_of_here |]. split; [done |].
  split; [by apply String.eqb_neq |]. split; [done |]. split; [lia |].
  split; [done |]. split; [done |].
  apply ipToInt_range in Hx, Hy.
  by apply band_mask_same_subnet; [lia | done | done |].
Qed.

(** X14. The address [getHttpIp] returns is one the host has on the
    network: it stands on an [inet] line of the output of
    [ip addr show], and it agrees with the base address of the
    network's subnet on the first [prefixLen] bits, where the subnet
    is written [base/prefixLen] with a prefix length from 0 to 32 (32
    when none is given). *)
Theorem getHttpIp_in_subnet (inventory : Inventory) (networkName output address : string) :
  getHttpIp (Some inventory) networkName (Return output) = Done address ->
  exists network line p x y,
    List.find (fun n => bool_decide (name n = networkName)) (networks inventory)
      = Some network /\
    line ∈ split (String (ascii_of_nat 10) "") output /\
    inet_search (trim line) = Some address /\
    subnet_base network <> "" /\ subnet_prefixLen network = Some p /\ 0 <= p <= 32 /\
    ipToInt address = Done x /\ ipToInt (subnet_base network) = Done y /\
    same_subnet p x y.
Proof.
  unfold getHttpIp. destruct (List.find _ _) as [network|]; [| discriminate].
  intros (line & p & x & y & H)%getHttpIp_lines_found.
  by exists network, line, p, x, y.
Qed.

Lemma getHttpIp_in_subnet_witness :
  getHttpIp (Some inventory_C) "lan" (Return ip_addr_show) = Done "10.0.0.17" /\
  exists network line p x y,
    List.find (fun n => bool_decide (name n = "lan")) (networks inventory_C)
      = Some network /\
    line ∈ split (String (ascii_of_nat 10) "") ip_addr_show /\
    inet_search (trim line) = Some "10.0.0.17" /\
    subnet_base network <> "" /\ subnet_prefixLen network = Some p /\ 0 <= p <= 32 /\
    ipToInt "10.0.0.17" = Done x /\ ipToInt (subnet_base network) = Done y /\
    same_subnet p x y.
Proof.
  assert (H : getHttpIp (Some inventory_C) "lan" (Return ip_addr_show) = Done "10.0.0.17")
    by (vm_compute; reflexivity).
  split; [exact H | exact (getHttpIp_in_subnet _ _ _ _ H)].
Defined.

Lemma getHttpIp_lines_none (networkName : string) (network : Network) (lines : list string) :
  subnet_base network = "" \/
  match subnet_prefixLen network with
  | None => True
  | Some p => p < 0 \/ 32 < p
  end ->
  getHttpIp_lines networkName network lines
    = Raised (Error ("No valid IP found for network " +:+ networkName)).
Proof.
  intros Hbad. induction lines as [|line rest IH]; cbn [getHttpIp_lines]; [done |].
  destruct (inet_search (trim line)); [| done].
  destruct (subnet_prefixLen network) as [p|]; [| done].
  destruct Hbad as [-> | [Hp | Hp]].
  - done.
  - replace (p <? 0) with true by (symmetry; apply Z.ltb_lt; lia).
    by rewrite orb_true_r.
  - replace (p >? 32) with true by (symmetry; apply Z.gtb_lt; lia).
    by rewrite orb_true_r.
Qed.

(** X15. When [getHttpIp] has nothing to compare with, it finds nothing:
    for a network whose subnet has no base address, or a prefix
    length that is no number or lies outside 0..32, it throws "No
    valid IP found" whatever the host's addresses are. What the
    executor rejects with is passed on, and an unknown network is
    reported before anything is run. *)
Theorem getHttpIp_errors (inventory : Inventory) (networkName : string) (network : Network) :
  List.find (fun n => bool_decide (name n = networkName)) (networks inventory)
    = Some network ->
  (subnet_base network = "" \/
   match subnet_prefixLen network with
   | None => True
   | Some p => p < 0 \/ 32 < p
   end ->
   forall output,
     getHttpIp (Some inventory) networkName (Return output)
       = Raised (Error ("No valid IP found for network " +:+ networkName))) /\
  (forall e, getHttpIp (Some inventory) networkName (Throw e) = Raised e) /\
  (forall run, getHttpIp None networkName run = Raised (Error "Inventory not loaded")).
Proof.
  intros Hfind. split; [| split].
  - intros Hbad output. unfold getHttpIp. rewrite Hfind. by apply getHttpIp_lines_none.
  - intros e. unfold getHttpIp. by rewrite Hfind.
  - done.
Qed.

Lemma getHttpIp_errors_witness :
  List.find (fun n => bool_decide (name n = "lan")) (networks inventory_A) = Some lan /\
  forall output,
    getHttpIp (Some inventory_A) "lan" (Return output)
      = Raised (Error ("No valid IP found for network " +:+ "lan")).
Proof.
  assert (H : List.find (fun n => bool_decide (name n = "lan")) (networks inventory_A)
              = Some lan) by reflexivity.
  split; [exact H |].
  apply (proj1 (getHttpIp_errors inventory_A "lan" lan H)). by left.
Defined.

(** ** The command line *)

Lemma split_prefixed (flag v : string) :
  free_of "=" flag = true ->
  split "=" (flag +:+ String "=" v) = flag :: split "=" v.
Proof.
  intros Hflag. rewrite (split_app "="). unfold split at 1.
  rewrite (split_last "="); [reflexivity | done].
Qed.

Lemma prefix_append (p s : string) : String.prefix p (p +:+ s) = true.
Proof.
  induction p as [|c p IH]; [apply prefix_empty |].
  rewrite append_cons, prefix_head_same. exact IH.
Qed.

Lemma after_equals_prefixed (flag v : string) :
  free_of "=" flag = true ->
  after_equals (flag +:+ String "=" v) = ArgString (before_equals v).
Proof.
  intros Hflag. unfold after_equals, before_equals. rewrite split_prefixed by done.
  unfold split. destruct (split_go "=" v 0 "") eqn:E; [by apply split_go_nonempty in E | done].
Qed.

(** X16. A value given as [--name=value] is cut at the next [=]: the word
    is read exactly as [--name] followed by the part of the value
    before its first [=], for each of the three options that take a
    value and whatever follows on the command line. *)
Theorem parseArgs_value_cut_at_equals (v : string) (rest : list string) :
  parseArgs (("--manifest=" +:+ v) :: rest)
    = parseArgs ("--manifest" :: before_equals v :: rest) /\
  parseArgs (("--bw-auth=" +:+ v) :: rest)
    = parseArgs ("--bw-auth" :: before_equals v :: rest) /\
  parseArgs (("--inventory-file=" +:+ v) :: rest)
    = parseArgs ("--inventory-file" :: before_equals v :: rest).
Proof.
  unfold parseArgs. split; [| split].
  - change ("--manifest=" +:+ v) with ("--manifest" +:+ String "=" v).
    cbn [parseArgs_loop].
    rewrite decide_False by (intros [H | H]; discriminate H).
    change ("--manifest" +:+ String "=" v) with ("--manifest=" +:+ v) at 1.
    rewrite prefix_append.
    rewrite after_equals_prefixed by reflexivity.
    rewrite decide_False by (intros [H | H]; discriminate H).
    reflexivity.
  - change ("--bw-auth=" +:+ v) with ("--bw-auth" +:+ String "=" v).
    cbn [parseArgs_loop].
    rewrite decide_False by (intros [H | H]; discriminate H).
    replace (String.prefix "--manifest=" ("--bw-auth" +:+ String "=" v)) with false
      by reflexivity.
    rewrite (decide_False (P := _ = "--manifest")) by discriminate.
    change ("--bw-auth" +:+ String "=" v) with ("--bw-auth=" +:+ v) at 1.
    rewrite prefix_append.
    rewrite after_equals_prefixed by reflexivity.
    rewrite decide_False by (intros [H | H]; discriminate H).
    reflexivity.
  - change ("--inventory-file=" +:+ v) with ("--inventory-file" +:+ String "=" v).
    cbn [parseArgs_loop].
    rewrite decide_False by (intros [H | H]; discriminate H).
    replace (String.prefix "--manifest=" ("--inventory-file" +:+ String "=" v)) with false
      by reflexivity.
    rewrite (decide_False (P := _ = "--manifest")) by discriminate.
    replace (String.prefix "--bw-auth=" ("--inventory-file" +:+ String "=" v)) with false
      by reflexivity.
    rewrite (decide_False (P := _ = "--bw-auth")) by discriminate.
    change ("--inventory-file" +:+ String "=" v) with ("--inventory-file=" +:+ v) at 1.
    rewrite prefix_append.
    rewrite after_equals_prefixed by reflexivity.
    rewrite decide_False by (intros [H | H]; discriminate H).
    reflexivity.
Qed.

(** ** The text of a document reads back as the document *)

Lemma json_induction (P : json -> Prop) :
  P JNull -> (forall b, P (JBool b)) -> (forall n, P (JNumber n)) ->
  (forall s, P (JString s)) ->
  (forall items, Forall P items -> P (JArray items)) ->
  (forall fields, Forall (fun kv => P (snd kv)) fields -> P (JObject fields)) ->
  forall j, P j.
Proof.
  intros Hnull Hbool Hnum Hstr Harr Hobj.
  fix IH 1. intros [| b | n | s | items | fields].
  - exact Hnull.
  - apply Hbool.
  - apply Hnum.
  - apply Hstr.
  - apply Harr. induction items as [|item items IHitems]; constructor; [apply IH | exact IHitems].
  - apply Hobj. induction fields as [|[k v] fields IHfields]; constructor;
      [apply IH | exact IHfields].
Qed.

Lemma parse_chars_escape_char (c : ascii) (tail : string) :
  parse_chars (escape_char c +:+ tail) =
  (r <~ parse_chars tail ;; Done (String c (fst r), snd r)).
Proof. destruct c as [[] [] [] [] [] [] [] []]; reflexivity. Qed.

Lemma parse_chars_escape (s rest : string) :
  parse_chars (escape s +:+ String dquote rest) = Done (s, rest).
Proof.
  induction s as [|c s IH]; [reflexivity |].
  cbn [escape]. rewrite append_assoc, parse_chars_escape_char, IH. reflexivity.
Qed.

Lemma parse_chars_quote (s rest : string) :
  exists tail, quote s +:+ rest = String dquote tail /\ parse_chars tail = Done (s, rest).
Proof.
  exists (escape s +:+ String dquote rest). split; [| apply parse_chars_escape].
  unfold quote. rewrite append_cons, append_assoc. reflexivity.
Qed.

Lemma is_below_10_digit (c : ascii) : is_below 10 c = true -> is_digit c = true.
Proof.
  intros H. apply is_below_code in H. unfold is_digit.
  apply andb_true_iff. split; apply Z.leb_le; lia.
Qed.

Lemma span_digits (d rest : string) :
  forall_chars is_digit d = true ->
  match rest with String c _ => is_digit c = false | EmptyString => True end ->
  span is_digit (d +:+ rest) = (d, rest).
Proof.
  intros Hd Hrest. induction d as [|c d IH].
  - change ("" +:+ rest) with rest. destruct rest as [|c rest]; [done |].
    cbn [span]. by rewrite Hrest.
  - cbn [forall_chars] in Hd. apply andb_prop in Hd as [Hc Hd].
    rewrite append_cons. cbn [span]. by rewrite Hc, IH.
Qed.

(** The numeral of a positive number does not start with 0. *)
Lemma to_digits_head (radix : Z) (fuel : nat) (n : Z) (acc : string) :
  1 < radix <= 36 -> 0 < n < radix ^ Z.of_nat (S fuel) ->
  exists c s, to_digits radix (S fuel) n acc = String c s /\ code c <> 48.
Proof.
  intros Hr. revert n acc. induction fuel as [|fuel IH]; intros n acc Hn;
    change (to_digits radix (S ?f) n acc) with
      (let acc' := String (digit_char (n mod radix)) acc in
       if n / radix =? 0 then acc' else to_digits radix f (n / radix) acc');
    cbv zeta;
    destruct (Z.eqb_spec (n / radix) 0) as [Hq | Hq].
  - eexists _, _. split; [reflexivity |].
    apply Z.div_small_iff in Hq; [| lia]. destruct Hq as [Hq | Hq]; [| lia].
    rewrite Z.mod_small, code_digit_char by lia. destruct (n <? 10); lia.
  - exfalso. apply Hq, Z.div_small. change (Z.of_nat 1) with 1 in Hn.
    rewrite Z.pow_1_r in Hn. lia.
  - eexists _, _. split; [reflexivity |].
    apply Z.div_small_iff in Hq; [| lia]. destruct Hq as [Hq | Hq]; [| lia].
    rewrite Z.mod_small, code_digit_char by lia. destruct (n <? 10); lia.
  - apply IH. split.
    + enough (0 <= n / radix) by lia. apply Z.div_pos; lia.
    + apply Z.div_lt_upper_bound; [lia |].
      rewrite (Nat2Z.inj_succ (S fuel)), Z.pow_succ_r in Hn by lia. lia.
Qed.

Lemma toString_fuel (radix n : Z) :
  1 < radix -> 0 <= n -> n < radix ^ Z.of_nat (S (Z.to_nat (Z.log2 n))).
Proof.
  intros Hr Hn. rewrite Nat2Z.inj_succ, Z2Nat.id by apply Z.log2_nonneg.
  destruct (decide (n = 0)) as [-> | Hpos].
  - simpl. lia.
  - pose proof (Z.log2_spec n ltac:(lia)) as [_ Hlt].
    eapply Z.lt_le_trans; [exact Hlt |].
    apply Z.pow_le_mono_l. lia.
Qed.

(** The decimal numeral of a natural number: digits, the first of
    which is 0 only for the number 0. *)
Lemma numeral_shape (n : Z) :
  0 <= n ->
  exists d ds,
    toString 10 n = String d ds /\ forall_chars is_digit (String d ds) = true /\
    (code d = 48 -> ds = "") /\ parse_digits 10 (String d ds) None = Some n.
Proof.
  intros Hn. destruct (toString_digits 10 n ltac:(lia) Hn) as (Hchars & Hne & Hparse).
  destruct (toString 10 n) as [|d ds] eqn:Hs; [done |].
  exists d, ds. split; [done |].
  split; [by apply (forall_chars_impl (is_below 10)); [apply is_below_10_digit |] |].
  split; [| done]. intros Hd.
  destruct (decide (n = 0)) as [-> | Hpos]; [by injection Hs as _ <- |].
  exfalso. unfold toString in Hs.
  replace (n <? 0) with false in Hs by (symmetry; apply Z.ltb_ge; lia).
  destruct (to_digits_head 10 (Z.to_nat (Z.log2 n)) n "") as (c & s & Hcs & Hc);
    [lia | split; [lia | by apply toString_fuel] |].
  rewrite Hs in Hcs. injection Hcs as <- <-. done.
Qed.

Lemma parse_number_digits (negative : bool) (n : Z) (rest : string) (d : ascii) (ds : string) :
  forall_chars is_digit (String d ds) = true ->
  (code d = 48 -> ds = "") ->
  parse_digits 10 (String d ds) None = Some n ->
  n < 2 ^ 53 ->
  ends_number rest ->
  (let '(digits, rest') := span is_digit (String d ds +:+ rest) in
   match digits with
   | EmptyString => Raised SyntaxError
   | String d ds =>
       if (code d =? 48) && negb (String.eqb ds "") then Raised SyntaxError
       else
         let fractional :=
           match rest' with
           | String c _ => (code c =? 46) || (code c =? 101) || (code c =? 69)
           | EmptyString => false
           end in
         if fractional then Beyond
         else
           let v := default 0 (parse_digits 10 digits None) in
           if v <? 2 ^ 53 then Done (JNumber (if negative then - v else v), rest')
           else Beyond
   end) = Done (JNumber (if negative then - n else n), rest).
Proof.
  intros Hdigits Hzero Hparse Hsmall%Z.ltb_lt Hrest.
  rewrite span_digits; [| done | destruct rest; [done | apply Hrest]].
  assert (Hlead : (code d =? 48) && negb (String.eqb ds "") = false).
  { destruct (Z.eqb_spec (code d) 48) as [H48 | _]; [| done].
    rewrite (Hzero H48). reflexivity. }
  rewrite Hlead, Hparse. cbv zeta. cbn [default]. unfold id. rewrite Hsmall.
  destruct rest as [|c rest]; [reflexivity |].
  destruct Hrest as (_ & H1 & H2 & H3).
  by rewrite (proj2 (Z.eqb_neq _ _) H1), (proj2 (Z.eqb_neq _ _) H2),
    (proj2 (Z.eqb_neq _ _) H3).
Qed.

(** A number written by [JSON.stringify] is read back by the number
    rule of [JSON.parse]. *)
Lemma parse_number_toString (n : Z) (rest : string) :
  - 2 ^ 53 < n < 2 ^ 53 ->
  ends_number rest ->
  parse_number (toString 10 n +:+ rest) = Done (JNumber n, rest).
Proof.
  intros Hn Hrest. unfold parse_number. destruct (Z.ltb_spec n 0) as [Hneg | Hpos].
  - destruct (numeral_shape (- n) ltac:(lia)) as (d & ds & Hs & Hdigits & Hzero & Hparse).
    assert (Htext : toString 10 n = String "-" (String d ds)).
    { unfold toString in *. replace (n <? 0) with true by (symmetry; apply Z.ltb_lt; lia).
      replace (- n <? 0) with false in Hs by (symmetry; apply Z.ltb_ge; lia).
      by rewrite Hs. }
    rewrite Htext, append_cons.
    rewrite (parse_number_digits true (- n)) by (done || lia).
    by rewrite Z.opp_involutive.
  - destruct (numeral_shape n Hpos) as (d & ds & Hs & Hdigits & Hzero & Hparse).
    rewrite Hs.
    assert (Hd : d <> "-"%char).
    { cbn [forall_chars] in Hdigits. apply andb_prop in Hdigits as [Hd%is_digit_code _].
      intros ->. unfold code in Hd. simpl in Hd. lia. }
    rewrite append_cons.
    replace (match String d (ds +:+ rest) with
             | String "-"%char r => (true, r)
             | _ => (false, String d (ds +:+ rest))
             end) with (false, String d (ds +:+ rest)).
    2: { destruct d as [[] [] [] [] [] [] [] []]; try reflexivity. done. }
    rewrite <- append_cons. by rewrite (parse_number_digits false n) by (done || lia).
Qed.

Lemma insert_index_append (i : Z) (k : string) (v : json) (fields : list (string * json)) :
  Forall (fun kv => exists j, array_index (fst kv) = Some j /\ j < i) fields ->
  insert_index i k v fields = (fields ++ [(k, v)])%list.
Proof.
  induction 1 as [|[k' v'] fields (j & Hj & Hlt) _ IH]; [reflexivity |].
  cbn [insert_index fst] in *. rewrite Hj.
  replace (j <? i) with true by (symmetry; apply Z.ltb_lt; lia).
  by rewrite IH.
Qed.

(** Defining the next key of an object whose keys are in enumeration
    order appends it. *)
Lemma define_append (k : string) (v : json) (acc rest : list (string * json)) :
  ordered_keys (acc ++ (k, v) :: rest) -> define k v acc = (acc ++ [(k, v)])%list.
Proof.
  intros Hord. destruct (Hord acc k v rest eq_refl) as [Hown Hidx].
  unfold define. rewrite Hown. destruct (array_index k) as [i|]; [| reflexivity].
  apply insert_index_append. by apply Hidx.
Qed.

Lemma skip_ws_head (c : ascii) (s : string) :
  is_json_space c = false -> skip_ws (String c s) = String c s.
Proof. intros H. cbn [skip_ws]. by rewrite H. Qed.

Lemma parse_value_unfold (fuel : nat) (s : string) :
  parse_value (S fuel) s =
  match skip_ws s with
  | EmptyString => Raised SyntaxError
  | String c rest as s0 =>
      if code c =? 91 then
        match skip_ws rest with
        | String "]" r => Done (JArray [], r)
        | r => parse_elements fuel [] r
        end
      else if code c =? 123 then
        match skip_ws rest with
        | String "}" r => Done (JObject [], r)
        | r => parse_members fuel [] r
        end
      else if code c =? 34 then
        r <~ parse_chars rest ;; Done (JString (fst r), snd r)
      else if String.prefix "true" s0 then Done (JBool true, string_drop 4 s0)
      else if String.prefix "false" s0 then Done (JBool false, string_drop 5 s0)
      else if String.prefix "null" s0 then Done (JNull, string_drop 4 s0)
      else parse_number s0
  end.
Proof. reflexivity. Qed.

Lemma parse_elements_unfold (fuel : nat) (acc : list json) (s : string) :
  parse_elements (S fuel) acc s =
  (r <~ parse_value fuel s ;;
   match skip_ws (snd r) with
   | String "," rest => parse_elements fuel (acc ++ [fst r]) rest
   | String "]" rest => Done (JArray (acc ++ [fst r]), rest)
   | _ => Raised SyntaxError
   end).
Proof. reflexivity. Qed.

Lemma parse_members_unfold (fuel : nat) (acc : list (string * json)) (s : string) :
  parse_members (S fuel) acc s =
  match skip_ws s with
  | String q rest =>
      if code q =? 34 then
        k <~ parse_chars rest ;;
        match skip_ws (snd k) with
        | String ":" rest' =>
            v <~ parse_value fuel rest' ;;
            let acc' := define (fst k) (fst v) acc in
            match skip_ws (snd v) with
            | String "," rest'' => parse_members fuel acc' rest''
            | String "}" rest'' => Done (JObject acc', rest'')
            | _ => Raised SyntaxError
            end
        | _ => Raised SyntaxError
        end
      else Raised SyntaxError
  | EmptyString => Raised SyntaxError
  end.
Proof. reflexivity. Qed.

Lemma digit_head (d : ascii) : is_digit d = true -> value_head d.
Proof.
  intros Hd%is_digit_code. unfold value_head, is_json_space. cbv zeta.
  split; [| lia].
  repeat (apply orb_false_iff; split); apply Z.eqb_neq; lia.
Qed.

Lemma number_head (n : Z) :
  exists c s, toString 10 n = String c s /\ (is_digit c = true \/ c = "-"%char).
Proof.
  destruct (Z.ltb_spec n 0) as [Hneg | Hpos].
  - exists "-"%char. unfold toString.
    replace (n <? 0) with true by (symmetry; apply Z.ltb_lt; lia). eauto.
  - destruct (numeral_shape n Hpos) as (d & ds & Hs & Hdigits & _).
    exists d, ds. split; [done |]. left.
    cbn [forall_chars] in Hdigits. by apply andb_prop in Hdigits as [? _].
Qed.

Lemma stringify_head (j : json) :
  exists c s, stringify j = String c s /\ value_head c.
Proof.
  destruct j as [| [] | n | s | items | fields];
    try (eexists _, _; split; [reflexivity | by repeat split]).
  destruct (number_head n) as (c & s & Hs & [Hc | ->]).
  - exists c, s. split; [done | by apply digit_head].
  - exists "-"%char, s. split; [done | by repeat split].
Qed.

Lemma parse_value_number (fuel : nat) (n : Z) (rest : string) :
  - 2 ^ 53 < n < 2 ^ 53 ->
  ends_number rest ->
  parse_value (S fuel) (toString 10 n +:+ rest) = Done (JNumber n, rest).
Proof.
  intros Hn Hrest.
  rewrite parse_value_unfold, <- (parse_number_toString n rest Hn Hrest).
  destruct (number_head n) as (c & s & Hs & Hc). rewrite Hs, append_cons.
  destruct Hc as [Hc | ->]; [| reflexivity].
  rewrite skip_ws_head by (by destruct (digit_head c Hc)). cbv iota beta.
  apply is_digit_code in Hc.
  replace (code c =? 91) with false by (symmetry; apply Z.eqb_neq; lia).
  replace (code c =? 123) with false by (symmetry; apply Z.eqb_neq; lia).
  replace (code c =? 34) with false by (symmetry; apply Z.eqb_neq; lia).
  cbv zeta. rewrite !prefix_head_differs; [reflexivity | | |];
    intros <-; unfold code in Hc; simpl in Hc; lia.
Qed.

Lemma parse_value_string (fuel : nat) (s rest : string) :
  parse_value (S fuel) (quote s +:+ rest) = Done (JString s, rest).
Proof.
  destruct (parse_chars_quote s rest) as (tail & -> & Htail).
  rewrite parse_value_unfold. cbn [skip_ws]. 
  change (is_json_space dquote) with false. cbv iota.
  change (code dquote =? 91) with false. change (code dquote =? 123) with false.
  change (code dquote =? 34) with true. cbv iota.
  by rewrite Htail.
Qed.

(** After an opening bracket or brace, the text of a first element
    or member is handed to the loop. *)
Lemma parse_value_bracket (fuel : nat) (c : ascii) (r : string) :
  value_head c ->
  parse_value (S fuel) (String "[" (String c r)) = parse_elements fuel [] (String c r).
Proof.
  intros (Hspace & H93 & _). rewrite parse_value_unfold.
  cbn [skip_ws]. change (is_json_space "[") with false. cbv iota.
  change (code "[" =? 91) with true. cbv iota. rewrite (skip_ws_head c r Hspace).
  destruct c as [[] [] [] [] [] [] [] []]; try reflexivity.
  by contradict H93.
Qed.

Lemma parse_value_brace (fuel : nat) (c : ascii) (r : string) :
  value_head c ->
  parse_value (S fuel) (String "{" (String c r)) = parse_members fuel [] (String c r).
Proof.
  intros (Hspace & _ & H125). rewrite parse_value_unfold.
  cbn [skip_ws]. change (is_json_space "{") with false. cbv iota.
  change (code "{" =? 91) with false. change (code "{" =? 123) with true. cbv iota.
  rewrite (skip_ws_head c r Hspace).
  destruct c as [[] [] [] [] [] [] [] []]; try reflexivity.
  by contradict H125.
Qed.

Lemma parse_value_null (fuel : nat) (rest : string) :
  parse_value (S fuel) ("null" +:+ rest) = Done (JNull, rest).
Proof.
  rewrite parse_value_unfold. pose proof (prefix_append "null" rest) as Hp.
  change ("null" +:+ rest) with (String "n" (String "u" (String "l" (String "l" rest)))) in *.
  cbn [skip_ws].
  change (is_json_space "n") with false. cbv iota beta zeta.
  change (code "n" =? 91) with false. change (code "n" =? 123) with false.
  change (code "n" =? 34) with false. cbv iota.
  rewrite !prefix_head_differs by discriminate. by rewrite Hp.
Qed.

Lemma parse_value_true (fuel : nat) (rest : string) :
  parse_value (S fuel) ("true" +:+ rest) = Done (JBool true, rest).
Proof.
  rewrite parse_value_unfold. pose proof (prefix_append "true" rest) as Hp.
  change ("true" +:+ rest) with (String "t" (String "r" (String "u" (String "e" rest)))) in *.
  cbn [skip_ws].
  change (is_json_space "t") with false. cbv iota beta zeta.
  change (code "t" =? 91) with false. change (code "t" =? 123) with false.
  change (code "t" =? 34) with false. cbv iota.
  by rewrite Hp.
Qed.

Lemma parse_value_false (fuel : nat) (rest : string) :
  parse_value (S fuel) ("false" +:+ rest) = Done (JBool false, rest).
Proof.
  rewrite parse_value_unfold. pose proof (prefix_append "false" rest) as Hp.
  change ("false" +:+ rest)
    with (String "f" (String "a" (String "l" (String "s" (String "e" rest))))) in *.
  cbn [skip_ws].
  change (is_json_space "f") with false. cbv iota beta zeta.
  change (code "f" =? 91) with false. change (code "f" =? 123) with false.
  change (code "f" =? 34) with false. cbv iota.
  rewrite !prefix_head_differs by discriminate. by rewrite Hp.
Qed.

Lemma ends_number_punct (c : ascii) (rest : string) :
  c = ","%char \/ c = "]"%char \/ c = "}"%char -> ends_number (String c rest).
Proof. intros [-> | [-> | ->]]; by repeat split. Qed.

Lemma parse_elements_items (items : list json) :
  items <> [] -> Forall reads_back items ->
  forall fuel acc rest,
    (list_sum (List.map (fun item => S (size item)) items) <= fuel)%nat ->
    parse_elements fuel acc (join "," (List.map stringify items) +:+ String "]" rest)
      = Done (JArray (acc ++ items), rest).
Proof.
  intros Hne Hall. induction Hall as [|item items Hitem Hall IH]; [done |].
  intros fuel acc rest Hfuel. cbn [List.map list_sum fold_right] in Hfuel.
  destruct fuel as [|fuel]; [lia |]. rewrite parse_elements_unfold.
  destruct items as [|item2 items].
  - cbn [List.map join]. rewrite Hitem; [| lia |
      apply ends_number_punct; auto].
    reflexivity.
  - change (List.map stringify (item :: item2 :: items))
      with (stringify item :: List.map stringify (item2 :: items)).
    rewrite join_cons by done. rewrite !append_assoc.
    change ("," +:+ ?x) with (String "," x).
    rewrite Hitem; [| lia | apply ends_number_punct; auto].
    cbn [and_then fst snd skip_ws]. change (is_json_space ",") with false. cbv iota.
    rewrite (IH ltac:(done) fuel (acc ++ [item])%list rest) by (cbn [List.map list_sum fold_right] in *; lia).
    by rewrite <- app_assoc.
Qed.

Lemma parse_members_fields (fields : list (string * json)) :
  fields <> [] -> Forall (fun kv => reads_back (snd kv)) fields ->
  forall fuel acc rest,
    ordered_keys (acc ++ fields) ->
    (list_sum (List.map (fun kv => S (size (snd kv))) fields) <= fuel)%nat ->
    parse_members fuel acc
      (join "," (List.map (fun kv => quote (fst kv) +:+ ":" +:+ stringify (snd kv)) fields)
       +:+ String "}" rest)
      = Done (JObject (acc ++ fields), rest).
Proof.
  intros Hne Hall. induction Hall as [|[k v] fields Hv Hall IH]; [done |].
  intros fuel acc rest Hord Hfuel. cbn [List.map list_sum fold_right fst snd] in Hfuel, Hv.
  destruct fuel as [|fuel]; [lia |]. rewrite parse_members_unfold.
  pose proof (define_append k v acc fields Hord) as Hdef.
  destruct fields as [|kv2 fields].
  - cbn [List.map join fst snd]. rewrite !append_assoc.
    destruct (parse_chars_quote k (":" +:+ stringify v +:+ String "}" rest))
      as (tail & -> & Htail).
    cbn [skip_ws]. change (is_json_space dquote) with false. cbv iota.
    change (code dquote =? 34) with true. cbv iota. rewrite Htail.
    cbn [and_then fst snd]. change (":" +:+ ?x) with (String ":" x).
    cbn [skip_ws]. change (is_json_space ":") with false. cbv iota.
    rewrite Hv; [| lia | apply ends_number_punct; auto].
    cbn [and_then fst snd skip_ws]. change (is_json_space "}") with false. cbv iota.
    by rewrite Hdef.
  - set (member := fun kv : string * json => quote (fst kv) +:+ ":" +:+ stringify (snd kv)).
    change (List.map member ((k, v) :: kv2 :: fields))
      with ((quote k +:+ ":" +:+ stringify v) :: List.map member (kv2 :: fields)).
    rewrite join_cons by done. rewrite !append_assoc.
    destruct (parse_chars_quote k
      (":" +:+ stringify v +:+ "," +:+
       join "," (List.map member (kv2 :: fields)) +:+ String "}" rest))
      as (tail & -> & Htail).
    cbn [skip_ws]. change (is_json_space dquote) with false. cbv iota.
    change (code dquote =? 34) with true. cbv iota. rewrite Htail.
    cbn [and_then fst snd]. change (":" +:+ ?x) with (String ":" x).
    cbn [skip_ws]. change (is_json_space ":") with false. cbv iota.
    change ("," +:+ ?x) with (String "," x).
    rewrite Hv; [| lia | apply ends_number_punct; auto].
    cbn [and_then fst snd skip_ws]. change (is_json_space ",") with false. cbv iota.
    rewrite Hdef. subst member.
    rewrite (IH ltac:(done) fuel (acc ++ [(k, v)])%list rest).
    + by rewrite <- app_assoc.
    + by rewrite <- app_assoc.
    + cbn [List.map list_sum fold_right] in *. lia.
Qed.

(** [JSON.parse] reads the text [JSON.stringify] writes for a
    well-formed document, whatever follows it. *)
Lemma parse_value_stringify (j : json) : well_formed j -> reads_back j.
Proof.
  induction j as [| b | n | s | items IH | fields IH] using json_induction;
    intros Hwf fuel rest Hfuel Hrest; (destruct fuel as [|fuel]; [simpl in Hfuel; lia |]).
  - apply parse_value_null.
  - destruct b; [apply parse_value_true | apply parse_value_false].
  - cbn [stringify]. inversion Hwf; subst. by apply parse_value_number.
  - cbn [stringify]. apply parse_value_string.
  - inversion Hwf as [| | | | items' Hitems |]; subst.
    cbn [stringify size] in *. rewrite !append_assoc.
    change ("[" +:+ ?x) with (String "[" x). change ("]" +:+ ?x) with (String "]" x).
    destruct items as [|item items]; [reflexivity |].
    assert (Hreads : Forall reads_back (item :: items)).
    { apply Forall_forall. intros x Hx.
      apply (proj1 (Forall_forall _ _) IH x Hx), (proj1 (Forall_forall _ _) Hitems x Hx). }
    destruct (stringify_head item) as (c & s & Hs & Hc).
    assert (Htext : exists r,
      join "," (List.map stringify (item :: items)) +:+ String "]" rest = String c r).
    { cbn [List.map]. destruct items; [cbn [join] | rewrite join_cons by done];
        rewrite Hs, append_cons; eauto. }
    destruct Htext as [r Htext]. rewrite Htext, parse_value_bracket by done.
    rewrite <- Htext. rewrite parse_elements_items; [done | done | done | lia].
  - inversion Hwf as [| | | | | fields' Hord Hfields]; subst.
    cbn [stringify size] in *. rewrite !append_assoc.
    change ("{" +:+ ?x) with (String "{" x). change ("}" +:+ ?x) with (String "}" x).
    destruct fields as [|kv fields]; [reflexivity |].
    assert (Hreads : Forall (fun kv => reads_back (snd kv)) (kv :: fields)).
    { apply Forall_forall. intros x Hx.
      apply (proj1 (Forall_forall _ _) IH x Hx), (proj1 (Forall_forall _ _) Hfields x Hx). }
    assert (Htext : exists r,
      join "," (List.map (fun kv => quote (fst kv) +:+ ":" +:+ stringify (snd kv))
                  (kv :: fields)) +:+ String "}" rest = String dquote r).
    { cbn [List.map]. destruct fields; [cbn [join] | rewrite join_cons by done];
        unfold quote; rewrite !append_cons; eauto. }
    destruct Htext as [r Htext]. rewrite Htext, parse_value_brace by (by repeat split).
    rewrite <- Htext. rewrite (parse_members_fields (kv :: fields) ltac:(done) Hreads fuel []);
      [done | done | lia].
Qed.

Lemma length_append (s t : string) :
  String.length (s +:+ t) = (String.length s + String.length t)%nat.
Proof. induction s as [|c s IH]; [done |]. rewrite append_cons. simpl. by rewrite IH. Qed.

Lemma length_join (pieces : list string) (weights : list nat) :
  Forall2 (fun p w => (w <= String.length p)%nat) pieces weights ->
  (list_sum (List.map S weights) <= S (String.length (join "," pieces)))%nat.
Proof.
  induction 1 as [|p w pieces weights Hp Hall IH]; [simpl; lia |].
  destruct pieces as [|q pieces].
  - inversion Hall; subst. simpl. lia.
  - rewrite join_cons by done. rewrite !length_append.
    change (String.length ",") with 1%nat.
    unfold list_sum in *. cbn [List.map fold_right] in *. lia.
Qed.

(** A document has no more values than its text has characters. *)
Lemma size_le_length (j : json) : (size j <= String.length (stringify j))%nat.
Proof.
  induction j as [| b | n | s | items IH | fields IH] using json_induction.
  - simpl. lia.
  - destruct b; simpl; lia.
  - cbn [size stringify]. destruct (number_head n) as (c & s & -> & _). simpl. lia.
  - cbn [size stringify]. unfold quote. simpl. lia.
  - cbn [size stringify]. rewrite !length_append.
    change (String.length "[") with 1%nat. change (String.length "]") with 1%nat.
    enough (list_sum (List.map (fun item => S (size item)) items)
            <= S (String.length (join "," (List.map stringify items))))%nat by lia.
    rewrite <- (map_map size S). apply length_join.
    induction IH as [|item items Hitem _ IHitems]; constructor; done.
  - cbn [size stringify]. rewrite !length_append.
    change (String.length "{") with 1%nat. change (String.length "}") with 1%nat.
    enough (list_sum (List.map (fun kv => S (size (snd kv))) fields)
            <= S (String.length
                    (join "," (List.map (fun kv => quote (fst kv) +:+ ":" +:+ stringify (snd kv))
                                 fields))))%nat by lia.
    rewrite <- (map_map (fun kv => size (snd kv)) S). apply length_join.
    induction IH as [|kv fields Hkv _ IHfields]; constructor; [| done].
    rewrite !length_append. lia.
Qed.

(** [JSON.parse(JSON.stringify(j))] is [j] for a well-formed
    document. *)
Lemma JSON_parse_stringify (j : json) : well_formed j -> JSON_parse (stringify j) = Done j.
Proof.
  intros Hwf. unfold JSON_parse.
  rewrite <- (append_empty (stringify j)) at 2.
  rewrite (parse_value_stringify j Hwf); [reflexivity | | done].
  pose proof (size_le_length j). lia.
Qed.

(** ** Documents without references *)

Lemma match_at_includes (opening : string) (inner : ascii -> bool) (closing : ascii)
  (s m : string) :
  match_at opening inner closing s = Some m -> String.prefix opening s = true.
Proof. unfold match_at. by destruct (String.prefix opening s). Qed.

Lemma match_all_go_none (opening : string) (inner : ascii -> bool) (closing : ascii)
  (s : string) (skip : nat) :
  includes opening s = false -> match_all_go opening inner closing s skip = [].
Proof.
  revert skip. induction s as [|c s IH]; intros skip Hs; [reflexivity |].
  cbn [includes] in Hs. apply orb_false_iff in Hs as [Hp Hs].
  cbn [match_all_go]. destruct skip; [| by apply IH].
  destruct (match_at opening inner closing (String c s)) as [m|] eqn:Hm.
  - apply match_at_includes in Hm. congruence.
  - by apply IH.
Qed.

(** A text without the opening of a placeholder has no match. *)
Lemma match_all_none (opening : string) (inner : ascii -> bool) (closing : ascii)
  (s : string) :
  includes opening s = false -> match_all opening inner closing s = [].
Proof. apply match_all_go_none. Qed.

(** X17. The passes leave alone what they have nothing to do with. A
    well-formed configuration whose text has no [{inventory:] comes
    back from [populateInventoryRefs] as it went in, whatever the
    inventory; one without [{config:] comes back unchanged from
    [populateUpperLevelRefs]. *)
Theorem populate_refs_without_token (config inventory : json) :
  well_formed config ->
  (includes "{inventory:" (stringify config) = false ->
   populateInventoryRefs config inventory = Done config) /\
  (includes "{config:" (stringify config) = false ->
   populateUpperLevelRefs config = Done config).
Proof.
  intros Hwf. split; intros Hnone.
  - unfold populateInventoryRefs. rewrite match_all_none by done.
    cbn [substitute_refs and_then]. by apply JSON_parse_stringify.
  - unfold populateUpperLevelRefs. rewrite match_all_none by done.
    cbn [substitute_refs and_then]. by apply JSON_parse_stringify.
Qed.

Lemma ordered_keys_nil : ordered_keys [].
Proof. intros [|] ????; discriminate. Qed.

Lemma ordered_keys_snoc (fields : list (string * json)) (k : string) (v : json) :
  ordered_keys fields -> own k fields = None ->
  (forall i, array_index k = Some i ->
     Forall (fun kv => exists j, array_index (fst kv) = Some j /\ j < i) fields) ->
  ordered_keys (fields ++ [(k, v)]).
Proof.
  intros Hord Hown Hidx l1 k' v' l2 Heq.
  destruct l2 as [|kv l2 _] using rev_ind.
  - apply app_inj_tail in Heq as [<- [= <- <-]]. by split.
  - rewrite app_comm_cons, app_assoc in Heq. apply app_inj_tail in Heq as [-> _].
    by apply (Hord l1 k' v' l2).
Qed.

Lemma plain_config_well_formed : well_formed plain_config.
Proof.
  unfold plain_config. constructor.
  - apply (ordered_keys_snoc [ _; _ ]); [| reflexivity | discriminate].
    apply (ordered_keys_snoc [ _ ]); [| reflexivity | discriminate].
    apply (ordered_keys_snoc []); [apply ordered_keys_nil | reflexivity | discriminate].
  - repeat constructor; simpl; lia.
Qed.

Lemma populate_refs_without_token_witness :
  well_formed plain_config /\
  populateInventoryRefs plain_config (inventory_json inventory_A) = Done plain_config /\
  populateUpperLevelRefs plain_config = Done plain_config.
Proof.
  split; [exact plain_config_well_formed |].
  pose proof (populate_refs_without_token plain_config (inventory_json inventory_A)
                plain_config_well_formed) as [H1 H2].
  split; [apply H1 | apply H2]; reflexivity.
Defined.

Lemma fill_loop_no_secrets (bwMatches : list string) (strConfig : string) :
  fill_loop [] bwMatches strConfig = Done strConfig.
Proof. induction bwMatches as [|m rest IH]; [reflexivity | exact IH]. Qed.

(** X18. The vault pass leaves a well-formed document as it is when the
    vault lists no secret, and when the text holds no string that
    starts with [bw:], whatever the secrets. *)
Theorem fill_nothing_to_fill (secrets : list json) (config : json) :
  well_formed config ->
  fill [] config = Done config /\
  (includes (String dquote "bw:") (stringify config) = false ->
   fill secrets config = Done config).
Proof.
  intros Hwf. split.
  - unfold fill. rewrite fill_loop_no_secrets. cbn [and_then].
    by apply JSON_parse_stringify.
  - intros Hnone. unfold fill. rewrite match_all_none by done.
    cbn [fill_loop and_then]. by apply JSON_parse_stringify.
Qed.

Lemma fill_nothing_to_fill_witness :
  well_formed plain_config /\ fill [] plain_config = Done plain_config /\
  fill sample_secrets plain_config = Done plain_config.
Proof.
  split; [exact plain_config_well_formed |].
  pose proof (fill_nothing_to_fill sample_secrets plain_config plain_config_well_formed)
    as [H1 H2].
  split; [exact H1 | apply H2; reflexivity].
Defined.

(** X19. What [JSON.stringify] writes to a file, [loadConfig] reads back:
    for a well-formed document [j], loading the file that holds the
    text of [j] gives [j]. A file that is missing gives [null]. *)
Theorem loadConfig_reads_back (fs : files) (configFile : string) (j : json) :
  well_formed j ->
  loadConfig (writeFileSync configFile (stringify j) fs) configFile = Done j /\
  (fs configFile = None -> loadConfig fs configFile = Done JNull).
Proof.
  intros Hwf. split.
  - unfold loadConfig, writeFileSync. rewrite decide_True by done.
    by rewrite JSON_parse_stringify.
  - intros Hnone. unfold loadConfig. by rewrite Hnone.
Qed.

Lemma loadConfig_reads_back_witness :
  well_formed plain_config /\
  loadConfig (writeFileSync "manifest.json" (stringify plain_config) sample_files)
    "manifest.json" = Done plain_config.
Proof.
  split; [exact plain_config_well_formed |].
  exact (proj1 (loadConfig_reads_back sample_files "manifest.json" plain_config
                  plain_config_well_formed)).
Defined.

(** ** The earlier allocator and the wait for the ISO *)

(** X20. The earlier [getNextVmId] looks at the hosts and at nothing else:
    for each of the four types it returns the smallest id of the
    range that no host carries, whatever the templates and the
    reservations, and throws "No available vmid" when every id of the
    range is a host's. Without a loaded inventory it throws
    "Inventory not loaded". *)
Theorem earlier_getNextVmId_smallest_unused
  (type : string) (lo hi : Z) (inventory : Inventory) :
  (type, (lo, hi)) ∈ vmid_ranges ->
  match Earlier.getNextVmId (Some inventory) type with
  | Return id =>
      lo <= id <= hi /\ ~ host_vmid_taken inventory id /\
      forall j, lo <= j < id -> host_vmid_taken inventory j
  | Throw e =>
      e = Error ("No available vmid for type " +:+ type) /\
      forall j, lo <= j <= hi -> host_vmid_taken inventory j
  end /\
  Earlier.getNextVmId None type = Throw (Error "Inventory not loaded").
Proof.
  intros Hty%ranges_table. split; [| reflexivity].
  unfold Earlier.getNextVmId. rewrite Hty.
  assert (Hused : forall id, id ∈ Earlier.used_vmids inventory <-> host_vmid_taken inventory id).
  { intros id. unfold Earlier.used_vmids, host_vmid_taken.
    rewrite elem_of_list_to_set, list_elem_of_fmap. split.
    - intros (h & -> & Hh). eauto.
    - intros (h & Hh & <-). eauto. }
  destruct (first_unused _ lo hi) as [id|] eqn:Hscan.
  - apply first_unused_Some in Hscan as (Hrange & Hfree & Hlow).
    split; [done |]. split; [by rewrite <- Hused |].
    intros j Hj. apply Hused. by apply Hlow.
  - split; [done |]. intros j Hj. apply Hused.
    by apply (proj1 (first_unused_None _ _ _) Hscan).
Qed.

Lemma earlier_getNextVmId_smallest_unused_witness :
  ("template", (300, 399)) ∈ vmid_ranges /\
  Earlier.getNextVmId (Some inventory_B) "template" = Return 300 /\
  ~ host_vmid_taken inventory_B 300 /\
  getNextVmId "template" inventory_B = Return 301.
Proof.
  assert (Hin : ("template", (300, 399)) ∈ vmid_ranges).
  { unfold vmid_ranges. apply list_elem_of_In. simpl. auto. }
  split; [exact Hin |].
  pose proof (proj1 (earlier_getNextVmId_smallest_unused "template" 300 399 inventory_B Hin))
    as H.
  change (Earlier.getNextVmId (Some inventory_B) "template") with (@Return Z 300) in H.
  split; [reflexivity |]. split; [exact (proj1 (proj2 H)) | reflexivity].
Defined.

Lemma ensureIso_poll_calls (checkForIso : nat -> result bool) (calls left : nat) :
  let '(r, calls') := ensureIso_poll checkForIso calls left in
  (calls <= calls' <= calls + left)%nat /\
  match r with
  | Return _ =>
      (forall k, (calls <= k < calls' - 1)%nat -> checkForIso k = Return false) /\
      ((calls' = calls + left)%nat \/ checkForIso (calls' - 1)%nat = Return true)
  | Throw e => (calls < calls')%nat /\ checkForIso (calls' - 1)%nat = Throw e
  end.
Proof.
  revert calls. induction left as [|left IH]; intros calls; cbn [ensureIso_poll].
  - split; [lia |]. split; [intros k Hk; lia | left; lia].
  - destruct (checkForIso calls) as [[]|e] eqn:Hc.
    + split; [lia |]. split; [intros k Hk; lia |].
      right. by replace (S calls - 1)%nat with calls by lia.
    + specialize (IH (S calls)).
      destruct (ensureIso_poll checkForIso (S calls) left) as [r calls'].
      destruct IH as [Hrange IH]. split; [lia |].
      destruct r as [[]|e].
      * destruct IH as [Hfalse Hend]. split.
        -- intros k Hk. destruct (decide (k = calls)) as [-> | ?]; [done | apply Hfalse; lia].
        -- destruct Hend as [Hend | Hend]; [left; lia | by right].
      * destruct IH as [? ?]. split; [lia | done].
    + split; [lia |]. split; [lia |].
      by replace (S calls - 1)%nat with calls by lia.
Qed.

(** X21. [ensureIsoOnProxmox] asks for the download once at most, and only
    when the first look did not find the ISO; it looks for the ISO 25
    times at most; and when the ISO never shows up it returns all the
    same, without an error, after the 24 retries. It throws only
    what [checkForIso] or [downloadIso] threw. *)
Theorem ensureIsoOnProxmox_gives_up_silently
  (checkForIso : nat -> result bool) (downloadIso : result bool) :
  let '(r, (checks, downloads)) := ensureIsoOnProxmox checkForIso downloadIso in
  (1 <= checks <= 25)%nat /\
  (downloads = 1%nat /\ checkForIso 0%nat = Return false \/
   downloads = 0%nat /\ checkForIso 0%nat <> Return false) /\
  (forall e, r = Throw e ->
     downloadIso = Throw e \/ exists k, (k < checks)%nat /\ checkForIso k = Throw e) /\
  ((forall k, checkForIso k = Return false) -> (exists b, downloadIso = Return b) ->
   r = Return tt /\ checks = 25%nat).
Proof.
  unfold ensureIsoOnProxmox. destruct (checkForIso 0%nat) as [[]|e0] eqn:H0.
  - split; [lia |]. split; [by right |]. split; [discriminate |].
    intros Hall. rewrite Hall in H0. discriminate.
  - destruct downloadIso as [b|e1].
    + pose proof (ensureIso_poll_calls checkForIso 1 24) as Hpoll.
      destruct (ensureIso_poll checkForIso 1 24) as [r calls].
      destruct Hpoll as [Hrange Hr].
      split; [lia |]. split; [by left |]. split.
      * intros e ->. destruct Hr as [? Hthrow]. right. exists (calls - 1)%nat.
        split; [lia | done].
      * intros Hall _. destruct r as [[]|e].
        -- split; [done |]. destruct Hr as [_ [Hend | Hend]]; [lia |].
           rewrite Hall in Hend. discriminate.
        -- destruct Hr as [_ Hthrow]. rewrite Hall in Hthrow. discriminate.
    + split; [lia |]. split; [by left |]. split; [intros e [= <-]; by left |].
      intros _ [b Hb]. discriminate.
  - split; [lia |]. split; [by right |]. split.
    + intros e [= <-]. right. exists 0%nat. split; [lia | done].
    + intros Hall. rewrite Hall in H0. discriminate.
Qed.

(** ** The Bitwarden session *)

Lemma find_named_throws (p : string) (items : list json) (e : exn) :
  find_named p items = Throw e -> e = TypeError.
Proof.
  induction items as [|item rest IH]; cbn [find_named]; [discriminate |].
  destruct item as [| b | n | s | l | fields]; auto.
  - by intros [= <-].
  - destruct (own "name" fields) as [[| b | n | s | l | f]|]; auto.
    destruct (decide (s = p)); [discriminate | auto].
Qed.

Lemma bw_walk_raises (path : list string) (current : jsval) (e : exn) :
  bw_walk path current = Raised e -> e = TypeError.
Proof.
  revert current. induction path as [|part rest IH]; intros current; cbn [bw_walk];
    [discriminate |].
  destruct current as [| j | k].
  - by intros [= <-].
  - destruct j as [| b | n | s | items | fields]; try discriminate.
    + by intros [= <-].
    + destruct (find_named part items) as [[item|]|e'] eqn:Hf; eauto.
      intros [= <-]. by apply find_named_throws in Hf.
    + destruct (own part fields); eauto.
      destruct (decide (part ∈ object_prototype_keys)); eauto.
  - discriminate.
Qed.

Lemma fill_loop_raises (secrets : list json) (bwMatches : list string)
  (strConfig : string) (e : exn) :
  fill_loop secrets bwMatches strConfig = Raised e -> e = TypeError.
Proof.
  revert strConfig. induction bwMatches as [|m rest IH]; intros strConfig;
    cbn [fill_loop]; [discriminate |].
  cbv zeta.
  destruct (find_named _ secrets) as [[bwSecret|]|e'] eqn:Hf; eauto.
  - unfold and_then.
    destruct (bw_walk _ (Value bwSecret)) as [current | e' |] eqn:Hw.
    + destruct current as [| [| b | n | s | l | f] | k]; eauto.
    + intros [= <-]. by apply bw_walk_raises in Hw.
    + discriminate.
  - intros [= <-]. by apply find_named_throws in Hf.
Qed.

Lemma only_syntax_bind {A B : Type} (m : resolved A) (k : A -> resolved B) :
  only_syntax m -> (forall a, only_syntax (k a)) -> only_syntax (and_then m k).
Proof.
  intros Hm Hk e. destruct m as [a | e' |]; cbn [and_then].
  - apply Hk.
  - intros [= <-]. by apply Hm.
  - discriminate.
Qed.

Lemma only_syntax_Done {A : Type} (a : A) : only_syntax (Done a).
Proof. intros e. discriminate. Qed.

Lemma only_syntax_Beyond {A : Type} : only_syntax (@Beyond A).
Proof. intros e. discriminate. Qed.

Lemma only_syntax_Raised {A : Type} : only_syntax (@Raised A SyntaxError).
Proof. by intros e [= <-]. Qed.

#[local] Hint Resolve only_syntax_Done only_syntax_Beyond only_syntax_Raised : core.

Ltac each_char c := destruct c as [[] [] [] [] [] [] [] []]; cbv iota beta.

Lemma parse_chars_only_syntax : forall s, only_syntax (parse_chars s).
Proof.
  fix IH 1. intros [|c s']; cbn [parse_chars]; [auto |].
  destruct (code c =? 34); [auto |].
  destruct (code c =? 92).
  - destruct s' as [|e s'']; [auto |].
    cbv zeta.
    set (unescaped := if code e =? 34 then _ else _). clearbody unescaped.
    destruct unescaped as [x|].
    + apply only_syntax_bind; [apply IH | auto].
    + destruct (code e =? 117); [| auto].
      destruct s'' as [|h1 [|h2 [|h3 [|h4 s5]]]]; auto.
      destruct (digit_value 16 h1), (digit_value 16 h2), (digit_value 16 h3),
        (digit_value 16 h4); auto.
      match goal with |- context [if ?b then _ else _] => destruct b end; [| auto].
      apply only_syntax_bind; [apply IH | auto].
  - destruct (code c <? 32); [auto |].
    apply only_syntax_bind; [apply IH | auto].
Qed.

Lemma parse_number_only_syntax (s : string) : only_syntax (parse_number s).
Proof.
  unfold parse_number.
  match goal with |- context [let '(_, _) := ?x in _] => destruct x as [negative s1] end.
  destruct (span is_digit s1) as [digits rest].
  destruct digits as [|d ds]; [auto |].
  match goal with |- context [if ?b then _ else _] => destruct b end; [auto |].
  cbv zeta.
  repeat match goal with |- context [if ?b then _ else _] => destruct b end; auto.
Qed.

Lemma parse_value_only_syntax (fuel : nat) :
  (forall s, only_syntax (parse_value fuel s)) /\
  (forall acc s, only_syntax (parse_elements fuel acc s)) /\
  (forall acc s, only_syntax (parse_members fuel acc s)).
Proof.
  induction fuel as [|fuel (IHv & IHe & IHm)]; [by repeat split; intros; cbn; auto |].
  split; [| split].
  - intros s. rewrite parse_value_unfold.
    destruct (skip_ws s) as [|c rest]; [auto |].
    destruct (code c =? 91).
    { destruct (skip_ws rest) as [|c' r]; [apply IHe |]. each_char c'; auto. }
    destruct (code c =? 123).
    { destruct (skip_ws rest) as [|c' r]; [apply IHm |]. each_char c'; auto. }
    destruct (code c =? 34).
    { apply only_syntax_bind; [apply parse_chars_only_syntax | auto]. }
    cbv zeta.
    repeat match goal with |- context [if ?b then _ else _] => destruct b; [by auto |] end.
    apply parse_number_only_syntax.
  - intros acc s. rewrite parse_elements_unfold.
    apply only_syntax_bind; [apply IHv |]. intros r.
    destruct (skip_ws (snd r)) as [|c' rest]; [auto |]. each_char c'; auto.
  - intros acc s. rewrite parse_members_unfold.
    destruct (skip_ws s) as [|q rest]; [auto |].
    destruct (code q =? 34); [| auto].
    apply only_syntax_bind; [apply parse_chars_only_syntax |]. intros k.
    destruct (skip_ws (snd k)) as [|c' rest']; [auto |].
    each_char c'; auto.
    apply only_syntax_bind; [apply IHv |]. intros v. cbv zeta.
    destruct (skip_ws (snd v)) as [|c'' rest'']; [auto |]. each_char c''; auto.
Qed.

Lemma JSON_parse_raises (s : string) (e : exn) :
  JSON_parse s = Raised e -> e = SyntaxError.
Proof.
  revert e. change (only_syntax (JSON_parse s)). unfold JSON_parse.
  apply only_syntax_bind; [apply parse_value_only_syntax |].
  intros r. destruct (skip_ws (snd r)); auto.
Qed.

Lemma fill_raises (secrets : list json) (config : json) (e : exn) :
  fill secrets config = Raised e -> e = TypeError \/ e = SyntaxError.
Proof.
  unfold fill, and_then. cbv zeta.
  destruct (fill_loop secrets _ _) as [strConfig | e' |] eqn:Hl.
  - intros H%JSON_parse_raises. by right.
  - intros [= <-]. left. by apply fill_loop_raises in Hl.
  - discriminate.
Qed.

Lemma act_bind_eq {A B : Type} (m : act A) (k : A -> act B) (s : Bw * list Spawn) :
  act_bind m k s =
  match m s with
  | (Resolves a, s') => k a s'
  | (Rejects e, s') => (Rejects e, s')
  | (Escapes e, s') => (Escapes e, s')
  | (Unmodelled, s') => (Unmodelled, s')
  end.
Proof. reflexivity. Qed.

Section BitwardenRuns.

Variable spawn : nat -> Spawn -> Exit.

Ltac one_process_tac :=
  intros bw started; cbv beta iota zeta;
  repeat match goal with
         | |- context [if ?b then _ else _] => destruct b
         end;
  eexists _, _, _; (split; [reflexivity | split; [reflexivity | split; [reflexivity |]]]);
  eauto.

Lemma login_one_process : one_process spawn (login spawn) ["login"; "--apikey"] false.
Proof. unfold one_process, login, act_bind, run_child. one_process_tac. Qed.

Lemma unlock_one_process :
  one_process spawn (unlock spawn) ["unlock"; "--passwordenv"; "BW_PASSWORD"; "--raw"] false.
Proof. unfold one_process, unlock, act_bind, run_child. one_process_tac. Qed.

Lemma lock_one_process : one_process spawn (lock spawn) ["lock"] false.
Proof. unfold one_process, lock, act_bind, run_child. one_process_tac. Qed.

Lemma logout_one_process : one_process spawn (logout spawn) ["logout"] false.
Proof. unfold one_process, logout, act_bind, run_child. one_process_tac. Qed.

Lemma list_items_one_process : one_process spawn (list_items spawn) ["list"; "items"] true.
Proof.
  unfold one_process, list_items, act_bind, run_child. intros bw started.
  cbv beta iota zeta.
  set (call := {| spawn_executable := executable (bw_options bw);
                  spawn_args := ["list"; "items"];
                  spawn_env := _ |}).
  set (x := spawn (List.length started) call).
  destruct ((exit_code x =? 0) && negb (String.eqb (trim (stdout x)) "")) eqn:Hok.
  - apply andb_prop in Hok as [Hcode%Z.eqb_eq _].
    destruct (JSON_parse (trim (stdout x))) as [j | e |] eqn:Hparse;
      eexists call, _, _;
      (split; [reflexivity | split; [reflexivity | split; [reflexivity |]]]);
      cbv zeta; fold x; auto.
  - eexists call, _, _.
    split; [reflexivity |]. split; [reflexivity |]. split; [reflexivity |].
    cbv zeta. fold x. eauto.
Qed.

Lemma Bw_fill_runs (config : json) (bw : Bw) (started : list Spawn) :
  exists r bw' calls,
    Bw_fill spawn config (bw, started) = (r, (bw', (started ++ calls)%list)) /\
    bw_options bw' = bw_options bw /\
    (calls = [] \/ exists call, calls = [call] /\ spawn_args call = ["list"; "items"]) /\
    fill_ending spawn config started calls r.
Proof.
  unfold Bw_fill. cbv zeta.
  destruct (match_all _ not_dquote dquote (stringify config)) as [|m rest] eqn:Hm.
  - exists (awaited (JSON_parse (stringify config))), bw, []. rewrite app_nil_r.
    split; [done |]. split; [done |]. split; [by left |].
    destruct (JSON_parse (stringify config)) as [j | e |] eqn:Hp; cbn.
    + done.
    + right; left. by apply JSON_parse_raises in Hp.
    + by right; left.
  - cbn [fst].
    assert (Hfill : forall items calls,
      fill_ending spawn config started calls (awaited (fill items config))).
    { intros items calls. destruct (fill items config) as [j | e |] eqn:Hf; cbn.
      - done.
      - apply fill_raises in Hf as [-> | ->]; auto.
      - right; right. by exists items. }
    assert (Hlisted : forall secrets, bw_secrets bw = Some secrets ->
      exists r bw' calls,
        match Some secrets with
        | Some (JArray items) => (awaited (fill items config), (bw, started))
        | _ => (Rejects TypeError, (bw, started))
        end = (r, (bw', (started ++ calls)%list)) /\
        bw_options bw' = bw_options bw /\
        (calls = [] \/ exists call, calls = [call] /\ spawn_args call = ["list"; "items"]) /\
        fill_ending spawn config started calls r).
    { intros [| b | n | t | items | fields] _;
        try (exists (Rejects TypeError), bw, []; rewrite app_nil_r; cbn; by auto).
      exists (awaited (fill items config)), bw, []. rewrite app_nil_r.
      split; [done |]. split; [done |]. split; [by left |]. apply Hfill. }
    assert (Hlist :
      exists r bw' calls,
        match list_items spawn (bw, started) with
        | (Resolves _, s') =>
            match bw_secrets (fst s') with
            | Some (JArray items) => (awaited (fill items config), s')
            | _ => (Rejects TypeError, s')
            end
        | (Rejects e, s') => (Rejects e, s')
        | (Escapes e, s') => (Escapes e, s')
        | (Unmodelled, s') => (Unmodelled, s')
        end = (r, (bw', (started ++ calls)%list)) /\
        bw_options bw' = bw_options bw /\
        (calls = [] \/ exists call, calls = [call] /\ spawn_args call = ["list"; "items"]) /\
        fill_ending spawn config started calls r).
    { destruct (list_items_one_process bw started) as (call & r & bw' & E & Hargs & Ho & Hr).
      rewrite E. cbv zeta in Hr. destruct r as [j | e | e |].
      - cbn [fst].
        destruct (bw_secrets bw') as [[| b | n | t | items | fields]|];
          try (exists (Rejects TypeError), bw', [call]; cbn; by eauto 8).
        exists (awaited (fill items config)), bw', [call].
        split; [done |]. split; [done |]. split; [by eauto |]. apply Hfill.
      - exists (Rejects e), bw', [call]. destruct Hr as [what ->].
        split; [done |]. split; [done |]. split; [by eauto |]. cbn. eauto 8.
      - exists (Escapes e), bw', [call]. destruct Hr as (_ & Hcode & Hparse).
        split; [done |]. split; [done |]. split; [by eauto |]. cbn. eauto 8.
      - exists Unmodelled, bw', [call]. destruct Hr as (_ & Hcode & Hparse).
        split; [done |]. split; [done |]. split; [by eauto |]. cbn. eauto 8. }
    destruct (bw_secrets bw) as [j|] eqn:Hs; [| exact Hlist].
    destruct (falsy j); [exact Hlist |].
    cbn [fst]. rewrite Hs. by apply Hlisted.
Qed.

(** The [catch] branch: the lock is tried, the logout after it when
    the lock went through, and the error caught is the one reported. *)
Lemma catch_locks (err : exn) (bw : Bw) (started : list Spawn) :
  hd_error (spawn_args <$> started) = Some ["login"; "--apikey"] ->
  err = TypeError \/ err = SyntaxError \/
    process_failure spawn started (List.length started) err ->
  exists final,
    (let '(_, (_, started')) := (_ <<- lock spawn ;; logout spawn) (bw, started) in
     (@Rejects (json * json) err, started')) = (Rejects err, final) /\
    exists before,
      (spawn_args <$> final = (before ++ [["lock"]])%list \/
       spawn_args <$> final = (before ++ [["lock"]; ["logout"]])%list) /\
      hd_error before = Some ["login"; "--apikey"] /\
      (err = TypeError \/ err = SyntaxError \/
       process_failure spawn final (List.length before) err).
Proof.
  intros Hhd Herr. rewrite act_bind_eq.
  destruct (lock_one_process bw started) as (c1 & r1 & bw1 & E1 & A1 & _ & R1).
  rewrite E1. cbv zeta in R1.
  assert (Hkeep : forall calls,
    err = TypeError \/ err = SyntaxError \/
    process_failure spawn (started ++ calls)
      (List.length (spawn_args <$> started)) err).
  { intros calls. destruct Herr as [? | [? | (k & call & what & Hk & Hcall & ->)]]; auto.
    right; right. exists k, call, what. rewrite length_fmap.
    split; [done |]. split; [| done]. by apply lookup_app_l_Some. }
  destruct r1 as [x1 | e1 | e1 |].
  - destruct (logout_one_process bw1 (started ++ [c1])%list)
      as (c2 & r2 & bw2 & E2 & A2 & _ & R2).
    rewrite E2. eexists. split; [reflexivity |].
    exists (spawn_args <$> started). split; [| split; [done |]].
    + right. rewrite !fmap_app. cbn [fmap list_fmap]. rewrite A1, A2.
      by rewrite <- app_assoc.
    + rewrite <- app_assoc. apply Hkeep.
  - eexists. split; [reflexivity |].
    exists (spawn_args <$> started). split; [| split; [done |]].
    + left. rewrite !fmap_app. cbn [fmap list_fmap]. by rewrite A1.
    + apply Hkeep.
  - by destruct R1.
  - by destruct R1.
Qed.

End BitwardenRuns.


(** A vault whose list prints a notice: the run neither resolves nor
    rejects, and login, unlock and list are all it has started. *)
Example populateBitwardenRefs_unlocked :
  populateBitwardenRefs spawn_notice JNull JNull (Return sample_options) =
  (Escapes SyntaxError,
   [ {| spawn_executable := "bw"; spawn_args := ["login"; "--apikey"];
        spawn_env := [("BW_DATA_DIR", Some ""); ("BW_CLIENTID", Some "user.1");
                      ("BW_CLIENTSECRET", Some "s3cret")] |};
     {| spawn_executable := "bw";
        spawn_args := ["unlock"; "--passwordenv"; "BW_PASSWORD"; "--raw"];
        spawn_env := [("BW_DATA_DIR", Some ""); ("BW_CLIENTID", Some "user.1");
                      ("BW_CLIENTSECRET", Some "s3cret"); ("BW_PASSWORD", Some "pw")] |};
     {| spawn_executable := "bw"; spawn_args := ["list"; "items"];
        spawn_env := [("BW_DATA_DIR", Some ""); ("BW_SESSION", Some "ok")] |} ]).
Proof. vm_compute. reflexivity. Qed.

(** ** Variables passed to Terraform *)

Lemma append_inj_l (p a b : string) : p +:+ a = p +:+ b -> a = b.
Proof.
  induction p as [|c p IH]; [done |]. rewrite !append_cons. intros [= H]. by apply IH.
Qed.

Lemma setVariables_other (variables : list (string * json)) (env : gmap string string)
  (name : string) :
  (forall key, key ∈ (fst <$> variables) -> name <> "TF_VAR_" +:+ key) ->
  setVariables variables env !! name = env !! name.
Proof.
  unfold setVariables. revert env.
  induction variables as [|[k v] variables IH]; intros env Hname; [done |].
  cbn [foldl fst snd]. rewrite IH.
  - apply lookup_insert_ne. intros Heq. apply (Hname k); [| done].
    cbn. apply list_elem_of_here.
  - intros key Hkey. apply Hname. cbn. by apply list_elem_of_further.
Qed.

(** X23. Every variable of the configuration reaches Terraform under
    [TF_VAR_] and its name: a text as it is, any other value as its
    JSON text. The rest of the environment is passed on as it was. *)
Theorem setVariables_lookup (variables : list (string * json)) (env : gmap string string) :
  NoDup (fst <$> variables) ->
  (forall key value, (key, value) ∈ variables ->
     setVariables variables env !! ("TF_VAR_" +:+ key) = Some (variable_text value)) /\
  (forall name, (forall key, key ∈ (fst <$> variables) -> name <> "TF_VAR_" +:+ key) ->
     setVariables variables env !! name = env !! name).
Proof.
  intros Hnodup. split; [| apply setVariables_other].
  revert env. induction variables as [|[k v] variables IH]; intros env key value Hin.
  - by apply elem_of_nil in Hin.
  - rewrite fmap_cons in Hnodup. apply NoDup_cons in Hnodup as [Hfresh Hnodup].
    apply elem_of_cons in Hin as [[= -> ->] | Hin].
    + unfold setVariables. cbn [foldl fst snd].
      change (setVariables variables (<["TF_VAR_" +:+ k := variable_text v]> env)
                !! ("TF_VAR_" +:+ k) = Some (variable_text v)).
      rewrite setVariables_other; [apply lookup_insert_eq |].
      intros key Hkey Heq%append_inj_l. by subst.
    + unfold setVariables. cbn [foldl fst snd]. by apply IH.
Qed.

Lemma setVariables_lookup_witness :
  NoDup (fst <$> [ ("server_name", JString "web"); ("cores", JNumber 2) ]) /\
  setVariables [ ("server_name", JString "web"); ("cores", JNumber 2) ]
    {[ "PATH" := "/usr/bin" ]} !! ("TF_VAR_" +:+ "cores") = Some (variable_text (JNumber 2)) /\
  setVariables [ ("server_name", JString "web"); ("cores", JNumber 2) ]
    {[ "PATH" := "/usr/bin" ]} !! "PATH" = ({[ "PATH" := "/usr/bin" ]} : gmap string string) !! "PATH".
Proof.
  assert (Hnodup : NoDup (fst <$> [ ("server_name", JString "web"); ("cores", JNumber 2) ])).
  { apply (bool_decide_unpack _). vm_compute. exact I. }
  split; [exact Hnodup |].
  destruct (setVariables_lookup [ ("server_name", JString "web"); ("cores", JNumber 2) ]
              {[ "PATH" := "/usr/bin" ]} Hnodup) as [Hset Hrest].
  split.
  - apply Hset. apply list_elem_of_further, list_elem_of_here.
  - apply Hrest. intros key Hkey. cbn in Hkey.
    apply elem_of_cons in Hkey as [-> | Hkey]; [discriminate |].
    apply elem_of_cons in Hkey as [-> | Hkey]; [discriminate |].
    by apply elem_of_nil in Hkey.
Defined.

